(** * RRG sector rotation: the series normalizer, the RRG transform engine
      and the quadrant classification of [src/rrg_calculator.py], with the
      history gate of [generate_chart] in [app.py].

    Numbers.  The program computes on Python floats (IEEE 754 doubles) held
    in pandas Series.  The development keeps the special values of that
    format (the two infinities and NaN, which pandas uses as its missing
    value) and takes the finite values as exact rationals: arithmetic is
    IEEE arithmetic without rounding, overflow or a signed zero.  Every
    statement below about an exact value ("equals 100") is a statement about
    this exact arithmetic.  The statements on zero divisors do without it:
    their calculator is over any float arithmetic, IEEE doubles with their
    rounding and overflow (the Standard Library's [SpecFloat]) among them,
    and some of the statements on exact values come with a run on doubles.

    pandas.  The calculator is a chain of pandas calls.  Each of them is
    written out here as pandas (1.x, 2.x) computes it: [ewm(span, adjust=False)
    .mean()] as the loop of [window.aggregations.ewm] ([ignore_na=False],
    [min_periods=0]), [rolling(window).mean()] with [min_periods = window],
    both after the conversion of infinities to NaN that the window classes
    apply to their input, [shift] by position, [replace] by value, and the
    arithmetic of two Series on one index element by element.  Dates are
    integer timestamps. *)

From Stdlib Require Import String ZArith QArith Qcanon List Bool Lia Lqa Sorted Permutation.
From Stdlib Require Import Floats.SpecFloat.
Import ListNotations.

Open Scope Z_scope.

(** ** Floats *)

Inductive float : Type :=
| Fin (q : Qc)
| Inf (neg : bool)
| NaN.

Definition Qc_eqb (x y : Qc) : bool := Qeq_bool x y.
Definition Qc_ltb (x y : Qc) : bool :=
  match (x ?= y)%Qc with Lt => true | _ => false end.
Definition Qc_leb (x y : Qc) : bool :=
  match (x ?= y)%Qc with Gt => false | _ => true end.
Definition Qc_neg (x : Qc) : bool := Qc_ltb x 0%Qc.

Definition of_Z (z : Z) : float := Fin (Q2Qc (inject_Z z)).
Definition of_Q (q : Q) : float := Fin (Q2Qc q).

Definition fopp (x : float) : float :=
  match x with
  | Fin a => Fin (- a)%Qc
  | Inf s => Inf (negb s)
  | NaN => NaN
  end.

Definition fadd (x y : float) : float :=
  match x, y with
  | Fin a, Fin b => Fin (a + b)%Qc
  | Fin _, Inf s => Inf s
  | Inf s, Fin _ => Inf s
  | Inf s, Inf s' => if Bool.eqb s s' then Inf s else NaN
  | _, _ => NaN
  end.

Definition fsub (x y : float) : float := fadd x (fopp y).

Definition fmul (x y : float) : float :=
  match x, y with
  | Fin a, Fin b => Fin (a * b)%Qc
  | Fin a, Inf s => if Qc_eqb a 0%Qc then NaN else Inf (xorb (Qc_neg a) s)
  | Inf s, Fin b => if Qc_eqb b 0%Qc then NaN else Inf (xorb s (Qc_neg b))
  | Inf s, Inf s' => Inf (xorb s s')
  | _, _ => NaN
  end.

(** Float division as numpy performs it on a Series: a zero divisor gives an
    infinity (NaN for 0/0), never an exception. *)
Definition fdiv (x y : float) : float :=
  match x, y with
  | Fin a, Fin b =>
      if Qc_eqb b 0%Qc
      then (if Qc_eqb a 0%Qc then NaN else Inf (Qc_neg a))
      else Fin (a / b)%Qc
  | Fin _, Inf _ => Fin 0%Qc
  | Inf s, Fin b => Inf (xorb s (Qc_neg b))
  | _, _ => NaN
  end.

(** Comparisons: every ordered comparison with NaN is false. *)
Definition fgtb (x y : float) : bool :=
  match x, y with
  | Fin a, Fin b => Qc_ltb b a
  | Fin _, Inf s => s
  | Inf s, Fin _ => negb s
  | Inf s, Inf s' => negb s && s'
  | _, _ => false
  end.

Definition fleb (x y : float) : bool :=
  match x, y with
  | Fin a, Fin b => Qc_leb a b
  | Fin _, Inf s => negb s
  | Inf s, Fin _ => s
  | Inf s, Inf s' => s || negb s'
  | _, _ => false
  end.

(** [x == y] *)
Definition feqb (x y : float) : bool :=
  match x, y with
  | Fin a, Fin b => Qc_eqb a b
  | Inf s, Inf s' => Bool.eqb s s'
  | _, _ => false
  end.

(** [x != x], the test for NaN *)
Definition is_nan (x : float) : bool := negb (feqb x x).
Definition is_inf (x : float) : bool :=
  match x with Inf _ => true | _ => false end.

Declare Scope float_scope.
Delimit Scope float_scope with float.
Bind Scope float_scope with float.
Infix "+" := fadd : float_scope.
Infix "-" := fsub : float_scope.
Infix "*" := fmul : float_scope.
Infix "/" := fdiv : float_scope.
Infix ">?" := fgtb (at level 70) : float_scope.
Infix "<=?" := fleb (at level 70) : float_scope.
Infix "==?" := feqb (at level 70) : float_scope.

(** ** Quadrants and colours *)

Inductive Quadrant : Type := Leading | Weakening | Improving | Lagging.

(** [RRGCalculator.get_quadrant] *)
Definition get_quadrant (rs_value momentum_value : float) : Quadrant :=
  if (rs_value >? of_Z 100)%float && (momentum_value >? of_Z 100)%float
  then Leading
  else if (rs_value >? of_Z 100)%float && (momentum_value <=? of_Z 100)%float
  then Weakening
  else if (rs_value <=? of_Z 100)%float && (momentum_value >? of_Z 100)%float
  then Improving
  else Lagging.

(** [RRGCalculator.get_color] *)
Definition get_color (rs_value momentum_value : float) : string :=
  if (rs_value >? of_Z 100)%float
  then (if (momentum_value >? of_Z 100)%float then "#008217" else "#918000")
  else (if (momentum_value >? of_Z 100)%float then "#00749D" else "#E0002B").

(** ** Series

    A pandas Series of floats over a date index: the rows in their order,
    each a label (a timestamp, as an integer) and a value.  Duplicated labels
    and any order are allowed, as in pandas. *)

Definition date : Type := Z.
Definition Series : Type := list (date * float).

Definition index (s : Series) : list date := map fst s.
Definition values (s : Series) : list float := map snd s.
Definition with_values (idx : list date) (vals : list float) : Series :=
  combine idx vals.

Definition map2 {A B C} (f : A -> B -> C) (l1 : list A) (l2 : list B) : list C :=
  map (fun p => f (fst p) (snd p)) (combine l1 l2).

Definition index_eqb (i1 i2 : list date) : bool :=
  (length i1 =? length i2)%nat && forallb (fun p => fst p =? snd p) (combine i1 i2).

(** *** The pandas operations the calculator calls *)

(** Window aggregations first turn infinities into NaN
    ([BaseWindow._prep_values]). *)
Definition prep_values (vals : list float) : list float :=
  map (fun x => if is_inf x then NaN else x) vals.

(** [Series.ewm(span=span, adjust=False).mean()]: the loop of
    [window.aggregations.ewm] with [adjust=False], [ignore_na=False] and
    [min_periods=0] (so [minp = 1]). *)
Record ewm_state : Type := mk_ewm {
  weighted : float;
  old_wt : float;
  nobs : nat
}.

Definition ewm_alpha (span : Z) : float :=
  let com := (of_Z (span - 1) / of_Z 2)%float in
  (of_Z 1 / (of_Z 1 + com))%float.

Definition ewm_emit (st : ewm_state) : float :=
  if (1 <=? nobs st)%nat then weighted st else NaN.

Definition ewm_init (v0 : float) : ewm_state :=
  {| weighted := v0; old_wt := of_Z 1;
     nobs := if is_nan v0 then 0%nat else 1%nat |}.

Definition ewm_step (alpha : float) (st : ewm_state) (cur : float) : ewm_state :=
  let old_wt_factor := (of_Z 1 - alpha)%float in
  let new_wt := alpha in
  let is_observation := negb (is_nan cur) in
  let nobs' := if is_observation then S (nobs st) else nobs st in
  if negb (is_nan (weighted st)) then
    let old_wt' := (old_wt st * old_wt_factor)%float in
    if is_observation then
      let weighted' :=
        if negb (weighted st ==? cur)%float
        then ((old_wt' * weighted st + new_wt * cur) / (old_wt' + new_wt))%float
        else weighted st in
      {| weighted := weighted'; old_wt := of_Z 1; nobs := nobs' |}
    else {| weighted := weighted st; old_wt := old_wt'; nobs := nobs' |}
  else if is_observation then
    {| weighted := cur; old_wt := old_wt st; nobs := nobs' |}
  else {| weighted := weighted st; old_wt := old_wt st; nobs := nobs' |}.

Fixpoint ewm_loop (alpha : float) (st : ewm_state) (vals : list float) : list float :=
  match vals with
  | [] => []
  | cur :: rest =>
      let st' := ewm_step alpha st cur in
      ewm_emit st' :: ewm_loop alpha st' rest
  end.

Definition ewm (alpha : float) (vals : list float) : list float :=
  match vals with
  | [] => []
  | v0 :: rest => ewm_emit (ewm_init v0) :: ewm_loop alpha (ewm_init v0) rest
  end.

(** The state of the loop after position [t] of [vals]. *)
Definition ewm_state_after (alpha : float) (vals : list float) (t : nat) : ewm_state :=
  match vals with
  | [] => ewm_init NaN
  | v0 :: rest => fold_left (ewm_step alpha) (firstn t rest) (ewm_init v0)
  end.

(** What the loop keeps true of its state on values without infinities: the
    old weight is a number that is not negative, and is 1 as long as no
    value was seen; the weighted mean is never infinite; once it is a number
    an observation was counted. *)
Definition ewm_inv (st : ewm_state) : Prop :=
  exists o : Qc,
    old_wt st = Fin o /\ (0 <= o)%Qc /\
    is_inf (weighted st) = false /\
    (is_nan (weighted st) = true -> o = 1%Qc) /\
    (is_nan (weighted st) = false -> (1 <= nobs st)%nat).

(** The smoothing factor of a span as the specification writes it,
    [2 / (m + 1)]. *)
Definition alpha_of (m : Z) : Qc :=
  (Q2Qc (inject_Z 2) / Q2Qc (inject_Z (m + 1)))%Qc.

(** [None]: the ValueError of [span < 1]. *)
Definition ewm_mean (span : Z) (vals : list float) : option (list float) :=
  if span <? 1 then None
  else Some (ewm (ewm_alpha span) (prep_values vals)).

(** [Series.rolling(window=window).mean()]: [min_periods] is the window
    size; the window of position [i] is [max 0 (i+1-window), i+1). *)
Definition window_slice (window i : nat) (vals : list float) : list float :=
  let e := S i in
  let s := (e - window)%nat in
  firstn (e - s) (skipn s vals).

Definition sum_floats (l : list float) : float := fold_left fadd l (of_Z 0).

Definition calc_mean (minp : nat) (win : list float) : float :=
  let obs := filter (fun x => negb (is_nan x)) win in
  let n := length obs in
  if (minp <=? n)%nat && (0 <? n)%nat
  then (sum_floats obs / of_Z (Z.of_nat n))%float
  else NaN.

Definition rolling_mean (window : nat) (vals : list float) : list float :=
  let vals' := prep_values vals in
  map (fun i => calc_mean window (window_slice window i vals'))
      (seq 0 (length vals)).

(** [Series.shift(periods)]: by position, NaN filled in. *)
Definition shift (periods : Z) (vals : list float) : list float :=
  let n := length vals in
  if 0 <=? periods then
    let k := Nat.min (Z.to_nat periods) n in
    repeat NaN k ++ firstn (n - k) vals
  else
    let k := Nat.min (Z.to_nat (- periods)) n in
    skipn k vals ++ repeat NaN k.

(** [Series.replace(to_replace, value)] *)
Definition replace (to_replace value : float) (vals : list float) : list float :=
  map (fun x => if (x ==? to_replace)%float then value else x) vals.

(** ** The calculator *)

Record RRGCalculator : Type := mk_calculator {
  window : Z;
  period : Z;
  ema_span : Z;
  roc_shift : Z;
  ema_roc_span : Z
}.

(** [RRGCalculator(...)] with the defaults of [__init__] for what is not
    given. *)
Definition default_calculator : RRGCalculator :=
  {| window := 14; period := 52; ema_span := 14; roc_shift := 10;
     ema_roc_span := 14 |}.

(** What a call does: it returns, or pandas raises ValueError ([span < 1]).
    [Unaligned] marks operands with different indexes: pandas would align
    them by label (an outer join) before dividing; that join is outside this
    development, [generate_chart] cuts both operands to the same
    [common_dates]. *)
Inductive outcome (A : Type) : Type :=
| Ok (a : A)
| ValueError
| Unaligned.
Arguments Ok {A} a.
Arguments ValueError {A}.
Arguments Unaligned {A}.

(** The three steps of [calculate_rs] on the values. *)
Definition rs_values (stock bench : list float) : list float :=
  map2 fdiv stock bench.

Definition rs_ratio_values (ema_rs ema_rs_mean : list float) : list float :=
  map2 fdiv (map (fmul (of_Z 100)) ema_rs) (replace (of_Z 0) NaN ema_rs_mean).

(** [RRGCalculator.calculate_rs] *)
Definition calculate_rs (self : RRGCalculator) (stock_df benchmark_df : Series)
  : outcome Series :=
  if negb (index_eqb (index stock_df) (index benchmark_df)) then Unaligned
  else
    let rs := rs_values (values stock_df) (values benchmark_df) in
    match ewm_mean (ema_roc_span self) rs with
    | None => ValueError
    | Some ema_rs =>
        let ema_rs_mean := rolling_mean (Z.to_nat (ema_roc_span self)) ema_rs in
        Ok (with_values (index stock_df) (rs_ratio_values ema_rs ema_rs_mean))
    end.

Definition roc_values (rs_ratio rs_ratio_shifted : list float) : list float :=
  map2 fdiv (map2 fsub rs_ratio rs_ratio_shifted)
            (replace (of_Z 0) NaN rs_ratio_shifted).

Definition rs_momentum_values (ema_roc : list float) : list float :=
  map (fun x => (of_Z 100 + of_Z 100 * x)%float) ema_roc.

(** [RRGCalculator.calculate_momentum] *)
Definition calculate_momentum (self : RRGCalculator) (rs_ratio : Series)
  : outcome Series :=
  let rs_ratio_shifted := shift (roc_shift self) (values rs_ratio) in
  let roc := roc_values (values rs_ratio) rs_ratio_shifted in
  match ewm_mean (ema_roc_span self) roc with
  | None => ValueError
  | Some ema_roc => Ok (with_values (index rs_ratio) (rs_momentum_values ema_roc))
  end.

(** The values of the series [calculate_rs] and [calculate_momentum] build
    on the way, for a span [m] that [ewm] accepts and operands on one index:
    [ema_rs], [ema_rs_mean] and [rs_ratio], then [roc], [ema_roc] and
    [rs_momentum]. *)
Definition ema_rs_values (m : Z) (stock bench : list float) : list float :=
  ewm (ewm_alpha m) (prep_values (rs_values stock bench)).

Definition ema_rs_mean_values (m : Z) (stock bench : list float) : list float :=
  rolling_mean (Z.to_nat m) (ema_rs_values m stock bench).

Definition ratio_values (m : Z) (stock bench : list float) : list float :=
  rs_ratio_values (ema_rs_values m stock bench) (ema_rs_mean_values m stock bench).

Definition roc_of (k : Z) (rs_ratio : list float) : list float :=
  roc_values rs_ratio (shift k rs_ratio).

Definition ema_roc_values (m k : Z) (rs_ratio : list float) : list float :=
  ewm (ewm_alpha m) (prep_values (roc_of k rs_ratio)).

Definition momentum_values (m k : Z) (rs_ratio : list float) : list float :=
  rs_momentum_values (ema_roc_values m k rs_ratio).

(** ** The calculator over any float arithmetic

    The calculator once more, with the float arithmetic left open: a type
    of floats with its NaN, the conversion of an integer, the four
    operations, [==] and [isinf].  What is proved of it holds of IEEE
    doubles with their rounding and overflow ([binary64] below) as of the
    exact numbers above ([exact]).  The rolling mean, whose kernel sums with
    rounding in an order of its own, is left open too. *)

Module Any.

Class Arithmetic (F : Type) : Type := {
  nan : F;
  of_int : Z -> F;
  add : F -> F -> F;
  sub : F -> F -> F;
  mul : F -> F -> F;
  div : F -> F -> F;
  eqb : F -> F -> bool;
  isinf : F -> bool
}.

(** What the proofs use of the arithmetic: NaN is not equal to itself, and
    a sum, a product and a quotient with NaN as the second operand are
    NaN. *)
Definition propagates_nan {F : Type} (A : Arithmetic F) : Prop :=
  eqb nan nan = false /\
  (forall x : F, add x nan = nan) /\
  (forall x : F, mul x nan = nan) /\
  (forall x : F, div x nan = nan).

Section Calculator.

Context {F : Type} {A : Arithmetic F}.

Definition Series : Type := list (date * F).

Definition index (s : Series) : list date := map fst s.
Definition values (s : Series) : list F := map snd s.
Definition with_values (idx : list date) (vals : list F) : Series :=
  combine idx vals.

(** [x != x] *)
Definition is_nan (x : F) : bool := negb (eqb x x).

Definition prep_values (vals : list F) : list F :=
  map (fun x => if isinf x then nan else x) vals.

Record ewm_state : Type := mk_ewm {
  weighted : F;
  old_wt : F;
  nobs : nat
}.

Definition ewm_alpha (span : Z) : F :=
  let com := div (of_int (span - 1)) (of_int 2) in
  div (of_int 1) (add (of_int 1) com).

Definition ewm_emit (st : ewm_state) : F :=
  if (1 <=? nobs st)%nat then weighted st else nan.

Definition ewm_init (v0 : F) : ewm_state :=
  {| weighted := v0; old_wt := of_int 1;
     nobs := if is_nan v0 then 0%nat else 1%nat |}.

Definition ewm_step (alpha : F) (st : ewm_state) (cur : F) : ewm_state :=
  let old_wt_factor := sub (of_int 1) alpha in
  let new_wt := alpha in
  let is_observation := negb (is_nan cur) in
  let nobs' := if is_observation then S (nobs st) else nobs st in
  if negb (is_nan (weighted st)) then
    let old_wt' := mul (old_wt st) old_wt_factor in
    if is_observation then
      let weighted' :=
        if negb (eqb (weighted st) cur)
        then div (add (mul old_wt' (weighted st)) (mul new_wt cur))
                 (add old_wt' new_wt)
        else weighted st in
      {| weighted := weighted'; old_wt := of_int 1; nobs := nobs' |}
    else {| weighted := weighted st; old_wt := old_wt'; nobs := nobs' |}
  else if is_observation then
    {| weighted := cur; old_wt := old_wt st; nobs := nobs' |}
  else {| weighted := weighted st; old_wt := old_wt st; nobs := nobs' |}.

Fixpoint ewm_loop (alpha : F) (st : ewm_state) (vals : list F) : list F :=
  match vals with
  | [] => []
  | cur :: rest =>
      let st' := ewm_step alpha st cur in
      ewm_emit st' :: ewm_loop alpha st' rest
  end.

Definition ewm (alpha : F) (vals : list F) : list F :=
  match vals with
  | [] => []
  | v0 :: rest => ewm_emit (ewm_init v0) :: ewm_loop alpha (ewm_init v0) rest
  end.

Definition ewm_mean (span : Z) (vals : list F) : option (list F) :=
  if span <? 1 then None
  else Some (ewm (ewm_alpha span) (prep_values vals)).

Definition shift (periods : Z) (vals : list F) : list F :=
  let n := length vals in
  if 0 <=? periods then
    let k := Nat.min (Z.to_nat periods) n in
    repeat nan k ++ firstn (n - k) vals
  else
    let k := Nat.min (Z.to_nat (- periods)) n in
    skipn k vals ++ repeat nan k.

Definition replace (to_replace value : F) (vals : list F) : list F :=
  map (fun x => if eqb x to_replace then value else x) vals.

Definition rs_values (stock bench : list F) : list F := map2 div stock bench.

Definition rs_ratio_values (ema_rs ema_rs_mean : list F) : list F :=
  map2 div (map (mul (of_int 100)) ema_rs) (replace (of_int 0) nan ema_rs_mean).

(** [Series.rolling(window=window).mean()], whatever it computes *)
Variable rolling_mean : nat -> list F -> list F.

(** [RRGCalculator.calculate_rs] *)
Definition calculate_rs (self : RRGCalculator) (stock_df benchmark_df : Series)
  : outcome Series :=
  if negb (index_eqb (index stock_df) (index benchmark_df)) then Unaligned
  else
    let rs := rs_values (values stock_df) (values benchmark_df) in
    match ewm_mean (ema_roc_span self) rs with
    | None => ValueError
    | Some ema_rs =>
        let ema_rs_mean := rolling_mean (Z.to_nat (ema_roc_span self)) ema_rs in
        Ok (with_values (index stock_df) (rs_ratio_values ema_rs ema_rs_mean))
    end.

Definition roc_values (rs_ratio rs_ratio_shifted : list F) : list F :=
  map2 div (map2 sub rs_ratio rs_ratio_shifted)
           (replace (of_int 0) nan rs_ratio_shifted).

Definition rs_momentum_values (ema_roc : list F) : list F :=
  map (fun x => add (of_int 100) (mul (of_int 100) x)) ema_roc.

(** [RRGCalculator.calculate_momentum] *)
Definition calculate_momentum (self : RRGCalculator) (rs_ratio : Series)
  : outcome Series :=
  let rs_ratio_shifted := shift (roc_shift self) (values rs_ratio) in
  let roc := roc_values (values rs_ratio) rs_ratio_shifted in
  match ewm_mean (ema_roc_span self) roc with
  | None => ValueError
  | Some ema_roc => Ok (with_values (index rs_ratio) (rs_momentum_values ema_roc))
  end.

End Calculator.

End Any.

(** The exact numbers of this development as such an arithmetic. *)
#[export] Instance exact : Any.Arithmetic float :=
  {| Any.nan := NaN;
     Any.of_int := of_Z;
     Any.add := fadd;
     Any.sub := fsub;
     Any.mul := fmul;
     Any.div := fdiv;
     Any.eqb := feqb;
     Any.isinf := is_inf |}.

(** IEEE 754 doubles: 53 bits of precision, exponents up to 1024, every
    operation rounded to the nearest double, ties to even. *)
#[export] Instance binary64 : Any.Arithmetic spec_float :=
  {| Any.nan := S754_nan;
     Any.of_int := fun z => binary_normalize 53 1024 z 0 false;
     Any.add := SFadd 53 1024;
     Any.sub := SFsub 53 1024;
     Any.mul := SFmul 53 1024;
     Any.div := SFdiv 53 1024;
     Any.eqb := SFeqb;
     Any.isinf := fun x => match x with S754_infinity _ => true | _ => false end |}.

(** ** The normalizer *)

(** [Index.duplicated()] with [keep='first']: a row is marked when its label
    occurred at an earlier row. *)
Fixpoint duplicated_from (seen idx : list date) : list bool :=
  match idx with
  | [] => []
  | d :: rest => existsb (Z.eqb d) seen :: duplicated_from (d :: seen) rest
  end.

Definition duplicated (idx : list date) : list bool := duplicated_from [] idx.

(** [Index.has_duplicates] *)
Definition has_duplicates (idx : list date) : bool :=
  existsb (fun b => b) (duplicated idx).

(** [ser.loc[mask]] for a boolean mask *)
Fixpoint loc_mask (ser : Series) (mask : list bool) : Series :=
  match ser, mask with
  | row :: ser', b :: mask' =>
      if b then row :: loc_mask ser' mask' else loc_mask ser' mask'
  | _, _ => []
  end.

(** The rows that stay when the rows marked by [duplicated_from seen] are
    dropped; [keep_first [] ser] is [ser.loc[~ser.index.duplicated()]]. *)
Definition keep_first (seen : list date) (ser : Series) : Series :=
  loc_mask ser (map negb (duplicated_from seen (index ser))).

(** [Index.is_monotonic_increasing]: each label is at least the one before. *)
Fixpoint is_monotonic_increasing (idx : list date) : bool :=
  match idx with
  | [] => true
  | d :: rest =>
      match rest with
      | [] => true
      | d' :: _ => (d <=? d') && is_monotonic_increasing rest
      end
  end.

(** [Series.sort_index(ascending=True)], as an insertion sort on the labels.
    [process_series] sorts a series only after the duplicated labels are
    gone, where every sorting algorithm gives the same rows. *)
Fixpoint insert_row (row : date * float) (ser : Series) : Series :=
  match ser with
  | [] => [row]
  | row' :: ser' =>
      if fst row <=? fst row' then row :: ser
      else row' :: insert_row row ser'
  end.

Fixpoint sort_index (ser : Series) : Series :=
  match ser with
  | [] => []
  | row :: ser' => insert_row row (sort_index ser')
  end.

(** [RRGCalculator.process_series] *)
Definition process_series (ser : Series) : Series :=
  let ser1 :=
    if has_duplicates (index ser)
    then loc_mask ser (map negb (duplicated (index ser)))
    else ser in
  if negb (is_monotonic_increasing (index ser1))
  then sort_index ser1
  else ser1.

(** The value of the first row of [ser] labelled [d]. *)
Definition first_occurrence (ser : Series) (d : date) : option float :=
  option_map snd (find (fun row => fst row =? d) ser).

(** The invariant of a normalized series: strictly increasing labels. *)
Definition normalized (ser : Series) : Prop :=
  StronglySorted Z.lt (index ser).

(** ** The history gate of [generate_chart] *)

(** [st.session_state], for the integer settings read here. *)
Definition session_state : Type := list (string * Z).

(** [st.session_state.get(key, default)] *)
Fixpoint get (st : session_state) (key : string) (default : Z) : Z :=
  match st with
  | [] => default
  | (k, v) :: st' => if String.eqb k key then v else get st' key default
  end.

(** The calculator [generate_chart] builds from the session. *)
Definition session_calculator (st : session_state) : RRGCalculator :=
  {| window := get st "window" 14;
     period := get st "roc_period" 20;
     ema_span := 14;
     roc_shift := get st "roc_shift" 10;
     ema_roc_span := get st "ema_roc_span" 14 |}.

(** [Index.intersection]: the labels of the first index found in the
    second, in the order of the first. *)
Definition intersection (i1 i2 : list date) : list date :=
  filter (fun d => existsb (Z.eqb d) i2) i1.

(** [ser.loc[labels]]: the rows of each label, in the order of the labels.
    (A label that is not in the index raises KeyError in pandas; the labels
    here come from [intersection].) *)
Definition loc (ser : Series) (labels : list date) : Series :=
  flat_map (fun d => filter (fun row => fst row =? d) ser) labels.

(** What one round of the loop over the selected items does with the close
    prices of an item. *)
Inductive item_outcome : Type :=
| InsufficientHistory                      (* [continue] at the length check *)
| CalculationFailed                        (* [except Exception: continue] *)
| Calculated (rs_series momentum_series : Series) (stored : bool).

(** The body of the loop of [generate_chart], from [process_series] to the
    entry in [items_data]. *)
Definition process_item (st : session_state) (item_close benchmark_closes : Series)
  : item_outcome :=
  let calculator := session_calculator st in
  let item_closes := process_series item_close in
  let benchmark_processed := process_series benchmark_closes in
  let common_dates := intersection (index item_closes) (index benchmark_processed) in
  let window := get st "window" 14 in
  let roc_period := get st "roc_period" 20 in
  if Z.of_nat (length common_dates) <? window + roc_period then InsufficientHistory
  else
    let item_aligned := loc item_closes common_dates in
    let benchmark_aligned := loc benchmark_processed common_dates in
    match calculate_rs calculator item_aligned benchmark_aligned with
    | Ok rs_series =>
        match calculate_momentum calculator rs_series with
        | Ok momentum_series =>
            Calculated rs_series momentum_series
              ((0 <? length rs_series)%nat && (0 <? length momentum_series)%nat)
        | _ => CalculationFailed
        end
    | _ => CalculationFailed
    end.

(** Whether the engine is called for an item with [n] common dates. *)
Definition engine_invoked (o : item_outcome) : bool :=
  match o with InsufficientHistory => false | _ => true end.

(** ** Strings

    Python strings, as Rocq strings.  The methods that depend on the
    Unicode tables ([upper], [lower], [title], [strip]) are taken as given;
    [ascii_str] further down gives them for ASCII text.  Containment,
    [endswith], slices and [replace] are written out. *)

Class PyStr : Type := {
  upper : string -> string;
  lower : string -> string;
  title : string -> string;
  strip : string -> string
}.

(** [needle in hay] *)
Fixpoint contains (needle hay : string) : bool :=
  String.prefix needle hay ||
  match hay with
  | EmptyString => false
  | String _ hay' => contains needle hay'
  end.

(** [s.startswith(pre)] *)
Definition startswith (pre s : string) : bool := String.prefix pre s.

(** [s.endswith(suffix)] *)
Definition endswith (suffix s : string) : bool :=
  (String.length suffix <=? String.length s)%nat &&
  String.eqb
    (substring (String.length s - String.length suffix) (String.length suffix) s)
    suffix.

(** [s[:-n]] for [n > 0] *)
Definition drop_last (n : nat) (s : string) : string :=
  substring 0 (String.length s - n) s.

(** [s.replace(old, new)]: the occurrences of [old] from the left, without
    overlap; [skip] counts the characters of an occurrence still to pass. *)
Fixpoint replace_from (old new : string) (skip : nat) (s : string) : string :=
  match s with
  | EmptyString => EmptyString
  | String ch s' =>
      match skip with
      | S skip' => replace_from old new skip' s'
      | O =>
          if String.prefix old s
          then new ++ replace_from old new (String.length old - 1) s'
          else String ch (replace_from old new 0 s')
      end
  end.

Fixpoint intersperse (new s : string) : string :=
  match s with
  | EmptyString => EmptyString
  | String ch s' => String ch (new ++ intersperse new s')
  end.

Definition str_replace (old new s : string) : string :=
  match old with
  | EmptyString => new ++ intersperse new s
  | _ => replace_from old new 0 s
  end.

(** The truth value of a string: empty is false. *)
Definition truthy (s : string) : bool := negb (String.eqb s "").

(** ** Tokens *)

(** A dict with string keys and values, in insertion order. *)
Definition dict : Type := list (string * string).

(** [d.get(key)] *)
Fixpoint dict_get (d : dict) (key : string) : option string :=
  match d with
  | [] => None
  | (k, v) :: d' => if String.eqb k key then Some v else dict_get d' key
  end.

(** [d[key] = value] *)
Fixpoint dict_set (d : dict) (key value : string) : dict :=
  match d with
  | [] => [(key, value)]
  | (k, v) :: d' =>
      if String.eqb k key then (k, value) :: d'
      else (k, v) :: dict_set d' key value
  end.

(** [sectors.BENCHMARKS] *)
Definition BENCHMARKS : dict :=
  [ ("NIFTY 50", "Nifty 50"); ("NIFTY BANK", "Nifty Bank");
    ("NIFTY IT", "Nifty IT"); ("NIFTY PHARMA", "Nifty Pharma");
    ("NIFTY AUTO", "Nifty Auto"); ("NIFTY FMCG", "Nifty FMCG");
    ("NIFTY ENERGY", "Nifty Energy"); ("NIFTY METAL", "Nifty Metal") ]%string.

(** [token_fetcher.BENCHMARK_TOKENS] *)
Definition BENCHMARK_TOKENS : dict :=
  [ ("Nifty 50", "99926000"); ("Nifty Bank", "99926009");
    ("Nifty IT", "99926008"); ("Nifty Pharma", "99926023");
    ("Nifty Auto", "99926029"); ("Nifty FMCG", "99926021");
    ("Nifty Energy", "99926020"); ("Nifty Metal", "99926030");
    ("NIFTY50-EQ", "99926000"); ("NIFTYBANK-EQ", "99926009");
    ("NIFTYIT-EQ", "99926008"); ("NIFTYPHARMA-EQ", "99926023");
    ("NIFTYAUTO-EQ", "99926029"); ("NIFTYFMCG-EQ", "99926021");
    ("NIFTYENERGY-EQ", "99926020"); ("NIFTYMETAL-EQ", "99926030");
    ("NIFTY50", "99926000"); ("NIFTYBANK", "99926009");
    ("NIFTYIT", "99926008"); ("NIFTYPHARMA", "99926023");
    ("NIFTYAUTO", "99926029"); ("NIFTYFMCG", "99926021");
    ("NIFTYENERGY", "99926020"); ("NIFTYMETAL", "99926030") ]%string.

(** An entry of the scrip master (OpenAPIScripMaster.json); every field the
    code reads is a string there. *)
Record scrip_item : Type := mk_item {
  item_token : string;
  item_symbol : string;
  item_name : string;
  item_instrumenttype : string;
  item_exch_seg : string
}.

(** A loop [for item in scrip_data: if test(item): return str(item.get("token"))]:
    the token of the first entry that passes. *)
Definition first_token (test : scrip_item -> bool) (scrip_data : list scrip_item)
  : option string :=
  option_map item_token (find test scrip_data).

Section TokenFetcher.

Context {py : PyStr}.

(** The test of the case-insensitive pass for benchmarks. *)
Definition nifty_exact (symbol exchange : string) (item : scrip_item) : bool :=
  let symbol_upper := upper symbol in
  let symbol_lower := lower symbol in
  let symbol_title := title symbol in
  let item_name := item_name item in
  let item_symbol := item_symbol item in
  (String.eqb symbol_upper (upper item_name) ||
   String.eqb symbol_upper (upper item_symbol) ||
   String.eqb symbol_lower (lower item_name) ||
   String.eqb symbol_lower (lower item_symbol) ||
   String.eqb symbol_title item_name ||
   String.eqb symbol_title item_symbol ||
   String.eqb symbol item_name ||
   String.eqb symbol item_symbol) &&
  String.eqb (item_exch_seg item) exchange.

(** The test of the substring pass for benchmarks. *)
Definition nifty_substring (symbol exchange : string) (item : scrip_item) : bool :=
  let symbol_upper_clean :=
    str_replace " " "" (str_replace "-EQ" "" (upper symbol)) in
  let item_name := str_replace " " "" (upper (item_name item)) in
  let item_symbol := str_replace " " "" (upper (item_symbol item)) in
  (contains symbol_upper_clean item_name ||
   contains symbol_upper_clean item_symbol ||
   contains item_name symbol_upper_clean ||
   contains item_symbol symbol_upper_clean) &&
  String.eqb (item_exch_seg item) exchange.

(** [token_fetcher.get_token_from_symbol]; [fetched] is what
    [fetch_scrip_master()] returns at the call, [None] when the download
    failed. *)
Definition get_token_from_symbol
  (symbol exchange : string) (fetched : option (list scrip_item)) : option string :=
  match dict_get BENCHMARK_TOKENS symbol with
  | Some token => Some token
  | None =>
      match fetched with
      | None => dict_get BENCHMARK_TOKENS symbol
      | Some scrip_data =>
          match first_token
                  (fun item => String.eqb (item_symbol item) symbol &&
                               String.eqb (item_exch_seg item) exchange)
                  scrip_data with
          | Some token => Some token
          | None =>
              let by_base :=
                if endswith "-EQ" symbol then
                  let base_symbol := drop_last 3 symbol in
                  match first_token
                          (fun item => String.eqb (item_symbol item) base_symbol &&
                                       String.eqb (item_exch_seg item) exchange)
                          scrip_data with
                  | Some token => Some token
                  | None =>
                      first_token
                        (fun item => String.eqb (item_name item) base_symbol &&
                                     String.eqb (item_exch_seg item) exchange)
                        scrip_data
                  end
                else None in
              match by_base with
              | Some token => Some token
              | None =>
                  if contains "NIFTY" (upper symbol) || contains "NIFTY" symbol then
                    match first_token (nifty_exact symbol exchange) scrip_data with
                    | Some token => Some token
                    | None => first_token (nifty_substring symbol exchange) scrip_data
                    end
                  else None
              end
          end
      end
  end.

(** [app.get_token], on the token cache of the session: the token and the
    cache after the call. *)
Definition get_token
  (symbol : string) (fetched : option (list scrip_item)) (token_cache : dict)
  : option string * dict :=
  match dict_get token_cache symbol with
  | Some token => (Some token, token_cache)
  | None =>
      let token := get_token_from_symbol symbol "NSE" fetched in
      match token with
      | Some t =>
          if truthy t then (token, dict_set token_cache symbol t)
          else (token, token_cache)
      | None => (token, token_cache)
      end
  end.

(** The benchmark symbol [generate_chart] looks up:
    [BENCHMARKS.get(st.session_state.get('benchmark_name', 'NIFTY 50'), 'Nifty 50')]. *)
Definition benchmark_symbol (benchmark_name : option string) : string :=
  let name := match benchmark_name with Some n => n | None => "NIFTY 50"%string end in
  match dict_get BENCHMARKS name with
  | Some symbol => symbol
  | None => "Nifty 50"%string
  end.

(** [not token] *)
Definition token_missing (token : option string) : bool :=
  match token with
  | Some t => negb (truthy t)
  | None => true
  end.

End TokenFetcher.

(** The string methods on ASCII text. *)
Definition ascii_is_lower (ch : Ascii.ascii) : bool :=
  let n := Ascii.nat_of_ascii ch in ((97 <=? n) && (n <=? 122))%nat.
Definition ascii_is_upper (ch : Ascii.ascii) : bool :=
  let n := Ascii.nat_of_ascii ch in ((65 <=? n) && (n <=? 90))%nat.
Definition ascii_to_upper (ch : Ascii.ascii) : Ascii.ascii :=
  if ascii_is_lower ch then Ascii.ascii_of_nat (Ascii.nat_of_ascii ch - 32) else ch.
Definition ascii_to_lower (ch : Ascii.ascii) : Ascii.ascii :=
  if ascii_is_upper ch then Ascii.ascii_of_nat (Ascii.nat_of_ascii ch + 32) else ch.
Definition ascii_is_space (ch : Ascii.ascii) : bool :=
  let n := Ascii.nat_of_ascii ch in ((n =? 32) || ((9 <=? n) && (n <=? 13)))%nat.

Fixpoint string_map (f : Ascii.ascii -> Ascii.ascii) (s : string) : string :=
  match s with
  | EmptyString => EmptyString
  | String ch s' => String (f ch) (string_map f s')
  end.

Fixpoint ascii_title_from (in_word : bool) (s : string) : string :=
  match s with
  | EmptyString => EmptyString
  | String ch s' =>
      let cased := ascii_is_lower ch || ascii_is_upper ch in
      String (if in_word then ascii_to_lower ch else ascii_to_upper ch)
             (ascii_title_from cased s')
  end.

Fixpoint lstrip (s : string) : string :=
  match s with
  | EmptyString => EmptyString
  | String ch s' => if ascii_is_space ch then lstrip s' else s
  end.

Fixpoint string_rev_onto (acc s : string) : string :=
  match s with
  | EmptyString => acc
  | String ch s' => string_rev_onto (String ch acc) s'
  end.

Definition ascii_strip (s : string) : string :=
  string_rev_onto "" (lstrip (string_rev_onto "" (lstrip s))).

Definition ascii_str : PyStr := {|
  upper := string_map ascii_to_upper;
  lower := string_map ascii_to_lower;
  title := ascii_title_from false;
  strip := ascii_strip
|}.

(** ** Searching the scrip master *)

(** What the searches return for an entry:
    [{"symbol": ..., "name": ..., "token": ..., "exchange": ...}]. *)
Record instrument : Type := mk_instrument {
  inst_symbol : string;
  inst_name : string;
  inst_token : string;
  inst_exchange : string
}.

Definition as_instrument (item : scrip_item) : instrument :=
  {| inst_symbol := item_symbol item;
     inst_name := item_name item;
     inst_token := item_token item;
     inst_exchange := item_exch_seg item |}.

(** [l.sort(key=lambda x: x["name"])]: a stable sort on the names, strings
    compared as Python compares them. *)
Fixpoint insert_by_name (r : instrument) (l : list instrument) : list instrument :=
  match l with
  | [] => [r]
  | r' :: l' =>
      if String.leb (inst_name r) (inst_name r') then r :: l
      else r' :: insert_by_name r l'
  end.

Fixpoint sort_by_name (l : list instrument) : list instrument :=
  match l with
  | [] => []
  | r :: l' => insert_by_name r (sort_by_name l')
  end.

(** A loop that appends what [pick] takes of each entry to [results] and
    breaks once [len(results) >= limit]. *)
Fixpoint collect {A : Type} (pick : A -> option instrument) (limit : Z)
  (results : list instrument) (items : list A) : list instrument :=
  match items with
  | [] => results
  | item :: rest =>
      match pick item with
      | None => collect pick limit results rest
      | Some r =>
          let results' := results ++ [r] in
          if Z.of_nat (length results') >=? limit then results'
          else collect pick limit results' rest
      end
  end.

Section ScripMasterSearch.

Context {py : PyStr}.

(** "ETF" or "BEES" in the name or the symbol *)
Definition is_etf (name symbol : string) : bool :=
  let name_upper := upper name in
  let symbol_upper := upper symbol in
  contains "ETF" name_upper || contains "BEES" name_upper ||
  contains "ETF" symbol_upper || contains "BEES" symbol_upper.

Definition is_index_item (exchange : string) (item : scrip_item) : bool :=
  String.eqb (item_exch_seg item) exchange &&
  String.eqb (item_instrumenttype item) "AMXIDX".

Definition is_equity_item (exchange : string) (item : scrip_item) : bool :=
  String.eqb (item_exch_seg item) exchange &&
  endswith "-EQ" (item_symbol item) &&
  (String.eqb (item_instrumenttype item) "" ||
   String.eqb (item_instrumenttype item) "EQ").

(** [scrip_master_search.get_indices] *)
Definition get_indices (exchange : string) (fetched : option (list scrip_item))
  : list instrument :=
  match fetched with
  | None => []
  | Some scrip_data =>
      sort_by_name (map as_instrument (filter (is_index_item exchange) scrip_data))
  end.

(** [scrip_master_search.get_stocks] *)
Definition get_stocks (exchange : string) (fetched : option (list scrip_item))
  : list instrument :=
  match fetched with
  | None => []
  | Some scrip_data =>
      sort_by_name
        (map as_instrument
           (filter (fun item =>
                      is_equity_item exchange item &&
                      negb (is_etf (item_name item) (item_symbol item)))
                   scrip_data))
  end.

(** [scrip_master_search.get_etfs] *)
Definition get_etfs (exchange : string) (fetched : option (list scrip_item))
  : list instrument :=
  match fetched with
  | None => []
  | Some scrip_data =>
      sort_by_name
        (map as_instrument
           (filter (fun item =>
                      String.eqb (item_exch_seg item) exchange &&
                      (String.eqb (item_instrumenttype item) "" ||
                       String.eqb (item_instrumenttype item) "EQ") &&
                      endswith "-EQ" (item_symbol item) &&
                      is_etf (item_name item) (item_symbol item))
                   scrip_data))
  end.

(** What the main loop of [search_indices] takes of an entry. *)
Definition pick_index (query_upper exchange : string) (item : scrip_item)
  : option instrument :=
  if negb (String.eqb (item_exch_seg item) exchange) then None
  else if negb (String.eqb (item_instrumenttype item) "AMXIDX") then None
  else
    let symbol_upper := upper (item_symbol item) in
    let name_upper := upper (item_name item) in
    if contains query_upper symbol_upper || contains query_upper name_upper ||
       startswith query_upper symbol_upper || startswith query_upper name_upper
    then Some (as_instrument item)
    else None.

(** What the fallback loops of [search_indices] and [search_etfs] take. *)
Definition pick_by_name_or_symbol (query_upper : string) (r : instrument)
  : option instrument :=
  if contains query_upper (upper (inst_name r)) ||
     contains query_upper (upper (inst_symbol r))
  then Some r else None.

(** [scrip_master_search.search_indices] *)
Definition search_indices (query exchange : string) (limit : Z)
  (fetched : option (list scrip_item)) : list instrument :=
  if String.eqb query "" then []
  else
    match fetched with
    | None => []
    | Some scrip_data =>
        let query_upper := strip (upper query) in
        if String.eqb query_upper "" then []
        else
          let results := collect (pick_index query_upper exchange) limit [] scrip_data in
          match results with
          | [] =>
              collect (pick_by_name_or_symbol query_upper) limit []
                      (get_indices exchange fetched)
          | _ => results
          end
    end.

(** What the main loop of [search_stocks] takes of an entry. *)
Definition pick_stock (query_upper query_base exchange : string) (item : scrip_item)
  : option instrument :=
  if negb (String.eqb (item_exch_seg item) exchange) then None
  else
    let inst_type := item_instrumenttype item in
    let symbol := item_symbol item in
    if negb (endswith "-EQ" symbol) ||
       (negb (String.eqb inst_type "") && negb (String.eqb inst_type "EQ"))
    then None
    else if is_etf (item_name item) symbol then None
    else
      let symbol_upper := upper symbol in
      let name_upper := upper (item_name item) in
      let symbol_base := str_replace "-EQ" "" symbol_upper in
      if String.eqb symbol_upper query_upper ||
         String.eqb symbol_base query_base ||
         contains query_upper symbol_upper ||
         contains query_base symbol_base ||
         startswith query_base symbol_base ||
         contains query_upper name_upper ||
         startswith query_upper name_upper
      then Some (as_instrument item)
      else None.

(** What the fallback loop of [search_stocks] takes. *)
Definition pick_stock_fallback (query_upper query_base : string) (r : instrument)
  : option instrument :=
  let symbol_upper := upper (inst_symbol r) in
  let name_upper := upper (inst_name r) in
  let symbol_base := str_replace "-EQ" "" symbol_upper in
  if contains query_upper symbol_upper ||
     contains query_base symbol_base ||
     startswith query_base symbol_base ||
     contains query_upper name_upper ||
     startswith query_upper name_upper
  then Some r else None.

(** [scrip_master_search.search_stocks] *)
Definition search_stocks (query exchange : string) (limit : Z)
  (fetched : option (list scrip_item)) : list instrument :=
  if String.eqb query "" then []
  else
    match fetched with
    | None => []
    | Some scrip_data =>
        let query_upper := strip (upper query) in
        if String.eqb query_upper "" then []
        else
          let query_base := str_replace "-EQ" "" query_upper in
          let results :=
            collect (pick_stock query_upper query_base exchange) limit [] scrip_data in
          match results with
          | [] =>
              collect (pick_stock_fallback query_upper query_base) limit []
                      (get_stocks exchange fetched)
          | _ => results
          end
    end.

(** What the main loop of [search_etfs] takes of an entry. *)
Definition pick_etf (query_upper exchange : string) (item : scrip_item)
  : option instrument :=
  if negb (String.eqb (item_exch_seg item) exchange) then None
  else
    let inst_type := item_instrumenttype item in
    let symbol := item_symbol item in
    let name_upper := upper (item_name item) in
    let symbol_upper := upper symbol in
    let is_etf :=
      (String.eqb inst_type "" || String.eqb inst_type "EQ") &&
      endswith "-EQ" symbol &&
      (contains "ETF" name_upper || contains "BEES" name_upper ||
       contains "ETF" symbol_upper || contains "BEES" symbol_upper) in
    if negb is_etf then None
    else if contains query_upper symbol_upper || contains query_upper name_upper ||
            startswith query_upper symbol_upper || startswith query_upper name_upper
    then Some (as_instrument item)
    else None.

(** [scrip_master_search.search_etfs] *)
Definition search_etfs (query exchange : string) (limit : Z)
  (fetched : option (list scrip_item)) : list instrument :=
  if String.eqb query "" then []
  else
    match fetched with
    | None => []
    | Some scrip_data =>
        let query_upper := strip (upper query) in
        if String.eqb query_upper "" then []
        else
          let results := collect (pick_etf query_upper exchange) limit [] scrip_data in
          match results with
          | [] =>
              collect (pick_by_name_or_symbol query_upper) limit []
                      (get_etfs exchange fetched)
          | _ => results
          end
    end.

End ScripMasterSearch.

(** The entries a loop takes when it never breaks, in the order of the
    entries; and the order of the names. *)
Definition picked {A : Type} (pick : A -> option instrument) (items : list A)
  : list instrument :=
  flat_map (fun item => match pick item with Some r => [r] | None => [] end) items.

Definition name_le (a b : instrument) : Prop :=
  String.leb (inst_name a) (inst_name b) = true.

(** ** Connecting to the broker *)

(** What a call of the [AngelOneLoader] constructor does: it returns a
    loader or raises, and [str(e)] is what is kept of the exception. *)
Inductive attempt (L : Type) : Type :=
| Connected (loader : L)
| Raised (error : string).

Arguments Connected {L} loader.
Arguments Raised {L} error.

Definition max_retries : Z := 3.
Definition retry_delay : Z := 2.

(** [range(n)] *)
Definition range (n : Z) : list Z := map Z.of_nat (seq 0 (Z.to_nat n)).

Section Loader.

Context {py : PyStr} {L : Type}.

Definition is_timeout (e : string) : bool :=
  let error_str := lower e in
  contains "timeout" error_str || contains "connection" error_str ||
  contains "max retries" error_str || contains "connecttimeouterror" error_str.

(** The loop of [initialize_api_loader] over the attempts still to make,
    [connect] giving what the constructor does at each of them: the loader
    returned, if any, and the seconds slept, in order. *)
Fixpoint attempts (connect : Z -> attempt L) (todo : list Z) : option L * list Z :=
  match todo with
  | [] => (None, [])
  | attempt :: rest =>
      match connect attempt with
      | Connected loader => (Some loader, [])
      | Raised e =>
          if is_timeout e && (attempt <? max_retries - 1)
          then
            let (loader, slept) := attempts connect rest in
            (loader, retry_delay * (attempt + 1) :: slept)
          else (None, [])
      end
  end.

(** [app.initialize_api_loader] *)
Definition initialize_api_loader (connect : Z -> attempt L) : option L * list Z :=
  attempts connect (range max_retries).

End Loader.

(** ** The frames of the animation *)

(** [l[::step]] for [step >= 1]; [skip] counts the entries to pass before
    the next one is taken. *)
Fixpoint slice_from {A : Type} (step skip : nat) (l : list A) : list A :=
  match l with
  | [] => []
  | x :: rest =>
      match skip with
      | O => x :: slice_from step (step - 1) rest
      | S skip' => slice_from step skip' rest
      end
  end.

Definition slice_step {A : Type} (step : nat) (l : list A) : list A :=
  slice_from step 0 l.

Inductive frames_outcome : Type :=
| EmptyChart
| ZeroDivisionError
| Frames (frame_dates : list date).

(** The dates [create_rrg_chart_with_animation] makes frames for;
    [no_items] is [not items_data].  Without dates or items the function
    returns an empty chart before it computes them; [50 * tail_count = 0]
    raises in the floor division. *)
Definition frame_dates (no_items : bool) (tail_count : Z) (filtered_dates : list date)
  : frames_outcome :=
  match filtered_dates with
  | [] => EmptyChart
  | first :: _ =>
      if no_items then EmptyChart
      else if 50 * tail_count =? 0 then ZeroDivisionError
      else
        let step := Z.max 1 (Z.of_nat (length filtered_dates) / (50 * tail_count)) in
        let frame_dates := slice_step (Z.to_nat step) filtered_dates in
        if negb (last frame_dates first =? last filtered_dates first)
        then Frames (frame_dates ++ [last filtered_dates first])
        else Frames frame_dates
  end.

(** ** The chart *)

(** [x < y], [x >= y], [abs(x)], and the builtins [min(a, b)] and
    [max(a, b)], which keep [a] unless [b] is strictly better. *)
Definition fltb (x y : float) : bool := fgtb y x.
Definition fgeb (x y : float) : bool := fleb y x.

Definition py_abs (x : float) : float :=
  match x with
  | Fin a => Fin (if Qc_neg a then - a else a)%Qc
  | Inf _ => Inf false
  | NaN => NaN
  end.

Definition py_min (a b : float) : float := if fltb b a then b else a.
Definition py_max (a b : float) : float := if fgtb b a then b else a.

(** [Series.min()] and [Series.max()]: over the values that are not NaN,
    and NaN when there is none. *)
Definition nan_reduce (better : float -> float -> bool) (vals : list float) : float :=
  fold_left (fun acc v =>
               if is_nan v then acc
               else if is_nan acc then v
               else if better v acc then v else acc)
            vals NaN.

Definition series_min (vals : list float) : float := nan_reduce fltb vals.
Definition series_max (vals : list float) : float := nan_reduce fgtb vals.

(** [l[start:]], the slice behind [iloc[start:]] *)
Definition iloc_from {A : Type} (start : Z) (l : list A) : list A :=
  skipn (Z.to_nat (if start <? 0 then Z.max (Z.of_nat (length l) + start) 0
                   else start)) l.

(** A [go.Scatter] trace, as far as its data goes, and of a figure its
    traces and the ranges of its axes. *)
Record Scatter : Type := mk_scatter {
  scatter_name : string;
  scatter_x : list float;
  scatter_y : list float
}.

Record Figure : Type := mk_figure {
  fig_data : list Scatter;
  xaxis_range : float * float;
  yaxis_range : float * float
}.

(** The running minima and maxima of the two coordinates. *)
Record bounds : Type := mk_bounds {
  x_min : float;
  x_max : float;
  y_min : float;
  y_max : float
}.

Definition initial_bounds : bounds :=
  mk_bounds (of_Z 200) (of_Z 0) (of_Z 200) (of_Z 0).

Definition center_x : float := of_Z 100.
Definition center_y : float := of_Z 100.

(** The half widths [x_range] and [y_range] of the axes, from the minima
    and maxima; the same lines in both chart builders.  The literals 0.05
    and 1.5 are the rationals 5/100 and 15/10. *)
Definition axis_ranges (b : bounds) : float * float :=
  if fgeb (x_min b) (of_Z 200) || fleb (x_max b) (of_Z 0)
  then (of_Z 7, of_Z 7)
  else
    let x_data_range := (x_max b - x_min b)%float in
    let y_data_range := (y_max b - y_min b)%float in
    let x_padding := py_max (x_data_range * of_Q (5 # 100))%float (of_Q (15 # 10)) in
    let y_padding := py_max (y_data_range * of_Q (5 # 100))%float (of_Q (15 # 10)) in
    let x_dist_from_center :=
      (py_max (py_abs (x_min b - center_x)) (py_abs (x_max b - center_x))
       + x_padding)%float in
    let y_dist_from_center :=
      (py_max (py_abs (y_min b - center_y)) (py_abs (y_max b - center_y))
       + y_padding)%float in
    (py_max x_dist_from_center (of_Z 7), py_max y_dist_from_center (of_Z 7)).

(** The same lines on doubles, every operation rounded; the literals 0.05
    and 1.5 are the doubles nearest to 5/100 and 15/10. *)
Definition py_max64 (a b : spec_float) : spec_float := if SFltb a b then b else a.

Definition axis_ranges64 (x_min x_max y_min y_max : spec_float)
  : spec_float * spec_float :=
  if SFleb (Any.of_int 200) x_min || SFleb x_max (Any.of_int 0)
  then (Any.of_int 7, Any.of_int 7)
  else
    let x_data_range := Any.sub x_max x_min in
    let y_data_range := Any.sub y_max y_min in
    let x_padding :=
      py_max64 (Any.mul x_data_range (Any.div (Any.of_int 5) (Any.of_int 100)))
               (Any.div (Any.of_int 15) (Any.of_int 10)) in
    let y_padding :=
      py_max64 (Any.mul y_data_range (Any.div (Any.of_int 5) (Any.of_int 100)))
               (Any.div (Any.of_int 15) (Any.of_int 10)) in
    let x_dist_from_center :=
      Any.add (py_max64 (SFabs (Any.sub x_min (Any.of_int 100)))
                        (SFabs (Any.sub x_max (Any.of_int 100))))
              x_padding in
    let y_dist_from_center :=
      Any.add (py_max64 (SFabs (Any.sub y_min (Any.of_int 100)))
                        (SFabs (Any.sub y_max (Any.of_int 100))))
              y_padding in
    (py_max64 x_dist_from_center (Any.of_int 7),
     py_max64 y_dist_from_center (Any.of_int 7)).

Section Chart.

(** [pd.Timestamp(d).normalize()], the timestamp at midnight *)
Variable normalize : date -> date.

(** The rows up to the cutoff date, if one is given. *)
Definition upto_cutoff (cutoff_date : option date) (ser : Series) : Series :=
  match cutoff_date with
  | None => ser
  | Some cutoff =>
      let cutoff_ts := normalize cutoff in
      filter (fun row => normalize (fst row) <=? cutoff_ts) ser
  end.

(** The body of the loop of [create_rrg_chart] over
    [items_data.items()], on the traces added so far and the bounds. *)
Definition plot_item (tail_count : Z) (cutoff_date : option date)
  (acc : list Scatter * bounds) (item : string * (Series * Series))
  : list Scatter * bounds :=
  let symbol := fst item in
  let rs_series := upto_cutoff cutoff_date (fst (snd item)) in
  let momentum_series := upto_cutoff cutoff_date (snd (snd item)) in
  if (length rs_series =? 0)%nat || (length momentum_series =? 0)%nat then acc
  else if (Z.of_nat (length rs_series) <? tail_count) ||
          (Z.of_nat (length momentum_series) <? tail_count) then acc
  else
    let rs_tail := iloc_from (- tail_count) (values rs_series) in
    let momentum_tail := iloc_from (- tail_count) (values momentum_series) in
    let current_rs := last (values rs_series) NaN in
    let current_momentum := last (values momentum_series) NaN in
    let b := snd acc in
    (fst acc ++ [mk_scatter symbol rs_tail momentum_tail;
                 mk_scatter (symbol ++ " (Current)") [current_rs] [current_momentum]],
     mk_bounds (py_min (x_min b) (series_min rs_tail))
               (py_max (x_max b) (series_max rs_tail))
               (py_min (y_min b) (series_min momentum_tail))
               (py_max (y_max b) (series_max momentum_tail))).

(** [app.create_rrg_chart].  [items_data] is the dict as the list of its
    items, in insertion order, each a symbol with its ratio and momentum
    series (the data frame that comes with them is not read); colours,
    shapes and labels are left out of the figure. *)
Definition create_rrg_chart (items_data : list (string * (Series * Series)))
  (tail_count : Z) (cutoff_date : option date) : Figure :=
  let plotted := fold_left (plot_item tail_count cutoff_date) items_data
                           ([], initial_bounds) in
  let x_range := fst (axis_ranges (snd plotted)) in
  let y_range := snd (axis_ranges (snd plotted)) in
  {| fig_data := fst plotted;
     xaxis_range := ((center_x - x_range)%float, (center_x + x_range)%float);
     yaxis_range := ((center_y - y_range)%float, (center_y + y_range)%float) |}.

End Chart.

(** ** The animated chart *)

(** A figure with animation frames, each under the date it is made for. *)
Record AnimatedFigure : Type := mk_animated {
  base : Figure;
  fig_frames : list (date * list Scatter)
}.

Inductive animation_outcome : Type :=
| AnimationError
| Animation (fig : AnimatedFigure).

(** The body of the loop over [items_data.items()] that takes the minima
    and maxima of the whole series. *)
Definition series_bounds (b : bounds) (item : string * (Series * Series)) : bounds :=
  let rs_series := fst (snd item) in
  let momentum_series := snd (snd item) in
  if (0 <? length rs_series)%nat && (0 <? length momentum_series)%nat
  then mk_bounds (py_min (x_min b) (series_min (values rs_series)))
                 (py_max (x_max b) (series_max (values rs_series)))
                 (py_min (y_min b) (series_min (values momentum_series)))
                 (py_max (y_max b) (series_max (values momentum_series)))
  else b.

(** The traces of an item in the frame of [cutoff_ts]: none, or the tail
    and the current point. *)
Definition frame_traces (tail_count : Z) (cutoff_ts : date)
  (item : string * (Series * Series)) : list Scatter :=
  let symbol := fst item in
  let rs_filtered := filter (fun row => fst row <=? cutoff_ts) (fst (snd item)) in
  let momentum_filtered := filter (fun row => fst row <=? cutoff_ts) (snd (snd item)) in
  if (length rs_filtered =? 0)%nat || (length momentum_filtered =? 0)%nat then []
  else if (Z.of_nat (length rs_filtered) <? tail_count) ||
          (Z.of_nat (length momentum_filtered) <? tail_count) then []
  else
    [mk_scatter symbol
                (iloc_from (- tail_count) (values rs_filtered))
                (iloc_from (- tail_count) (values momentum_filtered));
     mk_scatter (symbol ++ " (Current)")
                [last (values rs_filtered) NaN]
                [last (values momentum_filtered) NaN]].

(** [app.create_rrg_chart_with_animation]: the empty chart without dates
    or items, a [ZeroDivisionError] for a tail count of 0, else the figure
    with its empty initial traces, its axes and a frame for each frame
    date. *)
Definition create_rrg_chart_with_animation
  (items_data : list (string * (Series * Series))) (tail_count : Z)
  (filtered_dates : list date) : animation_outcome :=
  match frame_dates (match items_data with [] => true | _ => false end)
                    tail_count filtered_dates with
  | EmptyChart =>
      Animation {| base := {| fig_data := [];
                              xaxis_range := (of_Z 93, of_Z 107);
                              yaxis_range := (of_Z 93, of_Z 107) |};
                   fig_frames := [] |}
  | ZeroDivisionError => AnimationError
  | Frames dates =>
      let b := fold_left series_bounds items_data initial_bounds in
      let x_range := fst (axis_ranges b) in
      let y_range := snd (axis_ranges b) in
      let frames :=
        map (fun frame_date =>
               (frame_date, flat_map (frame_traces tail_count frame_date) items_data))
            dates in
      Animation
        {| base :=
             {| fig_data :=
                  flat_map (fun item =>
                              [mk_scatter (fst item) [] [];
                               mk_scatter (fst item ++ " (Current)") [] []])
                           items_data;
                xaxis_range := ((center_x - x_range)%float, (center_x + x_range)%float);
                yaxis_range := ((center_y - y_range)%float, (center_y + y_range)%float) |};
           fig_frames := frames |}
  end.

(** ** The default selection *)

(** [app.MAJOR_INDICES], [app.DEFAULT_STOCKS], [app.DEFAULT_ETFS] *)
Definition MAJOR_INDICES : list string :=
  ["NIFTY Bank"; "NIFTY Financial Services"; "NIFTY IT"; "NIFTY FMCG";
   "NIFTY Pharma"; "NIFTY Healthcare"; "NIFTY Auto"; "NIFTY Metal";
   "NIFTY Energy"; "NIFTY Realty"; "NIFTY PSU Bank"; "NIFTY Infrastructure"]%string.

Definition DEFAULT_STOCKS : list string :=
  ["RELIANCE-EQ"; "TCS-EQ"; "HDFCBANK-EQ"; "INFY-EQ"; "ICICIBANK-EQ";
   "HINDUNILVR-EQ"]%string.

Definition DEFAULT_ETFS : list string :=
  ["BANKBEES-EQ"; "GOLDBEES-EQ"; "JUNIORBEES-EQ"; "ITBEES-EQ"]%string.

(** [major_indices_dict]: a dict from symbols to entries, in insertion
    order. *)
Definition index_dict : Type := list (string * instrument).

Fixpoint index_dict_get (d : index_dict) (key : string) : option instrument :=
  match d with
  | [] => None
  | (k, v) :: d' => if String.eqb k key then Some v else index_dict_get d' key
  end.

Fixpoint index_dict_set (d : index_dict) (key : string) (value : instrument)
  : index_dict :=
  match d with
  | [] => [(key, value)]
  | (k, v) :: d' =>
      if String.eqb k key then (k, value) :: d'
      else (k, v) :: index_dict_set d' key value
  end.

(** [if not any(x['symbol'] == item['symbol'] for x in selected):
    selected.append(item)] *)
Definition add_selected (selected : list instrument) (item : instrument)
  : list instrument :=
  if existsb (fun x => String.eqb (inst_symbol x) (inst_symbol item)) selected
  then selected
  else selected ++ [item].

(** The loop over the default symbols of the Stock and ETF tabs:
    [next((s for s in listing if s['symbol'] == default_symbol), None)],
    added when found. *)
Definition select_defaults (defaults : list string) (listing selected : list instrument)
  : list instrument :=
  fold_left (fun selected default_symbol =>
               match find (fun s => String.eqb (inst_symbol s) default_symbol) listing with
               | Some item => add_selected selected item
               | None => selected
               end)
            defaults selected.

(** The three selections of the session. *)
Record selections : Type := mk_selections {
  selected_indices : list instrument;
  selected_stocks : list instrument;
  selected_etfs : list instrument
}.

Section Defaults.

Context {py : PyStr}.

(** [s.upper() in ['NIFTY 50', 'NIFTY', 'NIFTY50']] *)
Definition is_nifty_50 (s : string) : bool :=
  existsb (String.eqb (upper s)) ["NIFTY 50"; "NIFTY"; "NIFTY50"]%string.

(** The two tests of the loop over [MAJOR_INDICES], on the symbol and on
    the name. *)
Definition major_matches (idx : instrument) (major : string) : bool :=
  let idx_name_upper := upper (inst_name idx) in
  let idx_symbol_upper := upper (inst_symbol idx) in
  let major_upper := upper major in
  String.eqb idx_symbol_upper major_upper ||
  (String.eqb idx_name_upper major_upper ||
   String.eqb (str_replace " " "" idx_name_upper) (str_replace " " "" major_upper) ||
   (contains major_upper idx_name_upper &&
    (startswith (major_upper ++ " ") idx_name_upper ||
     endswith (" " ++ major_upper) idx_name_upper ||
     contains (" " ++ major_upper ++ " ") idx_name_upper))).

(** The loop over [MAJOR_INDICES] for one entry: it breaks at the first
    major index that matches and is not yet in the dict. *)
Fixpoint match_major (idx : instrument) (majors : list string) (d : index_dict)
  : index_dict :=
  match majors with
  | [] => d
  | major :: rest =>
      if major_matches idx major &&
         match index_dict_get d major with Some _ => false | None => true end
      then index_dict_set d major idx
      else match_major idx rest d
  end.

(** The body of the loop over [all_indices]. *)
Definition note_index (d : index_dict) (idx : instrument) : index_dict :=
  if is_nifty_50 (inst_symbol idx) || is_nifty_50 (inst_name idx) then d
  else if existsb (String.eqb (inst_symbol idx)) MAJOR_INDICES
       then index_dict_set d (inst_symbol idx) idx
       else match_major idx MAJOR_INDICES d.

Definition select_major_indices (all_indices selected : list instrument)
  : list instrument :=
  let major_indices_dict := fold_left note_index all_indices [] in
  fold_left (fun selected major_symbol =>
               match index_dict_get major_indices_dict major_symbol with
               | Some idx_item => add_selected selected idx_item
               | None => selected
               end)
            MAJOR_INDICES selected.

(** [app.initialize_default_items], on the selections of the session;
    [active_tab] is the entry of the session, if set.  (The function also
    sets the timeframe of a new session to weekly, which the selections do
    not depend on.) *)
Definition initialize_default_items (active_tab : option string)
  (fetched : option (list scrip_item)) (s : selections) : selections :=
  let active_tab := match active_tab with Some t => t | None => "Index"%string end in
  if String.eqb active_tab "Index" &&
     match selected_indices s with [] => true | _ => false end
  then mk_selections
         (select_major_indices (get_indices "NSE" fetched) (selected_indices s))
         (selected_stocks s) (selected_etfs s)
  else if String.eqb active_tab "Stock" &&
          match selected_stocks s with [] => true | _ => false end
  then mk_selections
         (selected_indices s)
         (select_defaults DEFAULT_STOCKS (get_stocks "NSE" fetched) (selected_stocks s))
         (selected_etfs s)
  else if String.eqb active_tab "ETF" &&
          match selected_etfs s with [] => true | _ => false end
  then mk_selections
         (selected_indices s) (selected_stocks s)
         (select_defaults DEFAULT_ETFS (get_etfs "NSE" fetched) (selected_etfs s))
  else s.

End Defaults.

(** * Properties *)

(** ** Comparisons *)

Lemma Qc_eqb_eq (x y : Qc) : Qc_eqb x y = true <-> x = y.
Proof.
  unfold Qc_eqb. rewrite Qeq_bool_iff. split.
  - apply Qc_is_canon.
  - intros ->. reflexivity.
Qed.

Lemma Qc_eqb_refl (x : Qc) : Qc_eqb x x = true.
Proof. apply Qc_eqb_eq. reflexivity. Qed.

Lemma Qc_eqb_neq (x y : Qc) : Qc_eqb x y = false <-> x <> y.
Proof.
  rewrite <- Qc_eqb_eq. destruct (Qc_eqb x y); split; congruence.
Qed.

Lemma Qc_leb_ltb (x y : Qc) : Qc_leb x y = negb (Qc_ltb y x).
Proof.
  unfold Qc_leb, Qc_ltb, Qccompare.
  rewrite <- (Qcompare_antisym x y).
  destruct (this x ?= this y)%Q; reflexivity.
Qed.

Lemma feqb_eq (x y : float) : (x ==? y)%float = true -> x = y.
Proof.
  destruct x as [a|s|], y as [b|s'|]; simpl; try discriminate.
  - intros H. apply Qc_eqb_eq in H. now subst.
  - intros H. apply Bool.eqb_prop in H. now subst.
Qed.

Lemma is_nan_true (x : float) : is_nan x = true <-> x = NaN.
Proof.
  unfold is_nan. destruct x as [a|s|]; simpl.
  - rewrite Qc_eqb_refl. split; discriminate.
  - rewrite Bool.eqb_reflx. split; discriminate.
  - split; reflexivity.
Qed.

Lemma is_nan_false (x : float) : is_nan x = false <-> x <> NaN.
Proof.
  rewrite <- is_nan_true. destruct (is_nan x); split; congruence.
Qed.

(** An ordered comparison and its converse never hold together. *)
Lemma fleb_fgtb_excl (x y : float) : (x <=? y)%float = true -> (x >? y)%float = false.
Proof.
  destruct x as [a|s|], y as [b|s'|]; simpl; try discriminate; try reflexivity.
  - rewrite Qc_leb_ltb. now destruct (Qc_ltb b a).
  - now destruct s'.
  - now destruct s.
  - now destruct s, s'.
Qed.

(** On numbers (NaN apart) they are complementary. *)
Lemma fleb_negb_fgtb (x y : float) :
  is_nan x = false -> is_nan y = false -> (x <=? y)%float = negb (x >? y)%float.
Proof.
  destruct x as [a|s|], y as [b|s'|]; simpl; try discriminate; try reflexivity.
  - intros _ _. apply Qc_leb_ltb.
  - intros _ _. now destruct s.
  - intros _ _. now destruct s, s'.
Qed.

(** ** The quadrant classification *)

(** C1. [get_quadrant] returns Leading iff ratio > 100 and momentum > 100,
    Weakening iff ratio > 100 and momentum <= 100, Improving iff
    ratio <= 100 and momentum > 100, and Lagging in every other case; the
    centre (100, 100) is Lagging and the three points 0.0001 away from it are
    Leading, Weakening and Improving.  The statement covers every float,
    the infinities and NaN included. *)
Theorem get_quadrant_boundaries :
  (forall ratio momentum : float,
      (get_quadrant ratio momentum = Leading <->
         (ratio >? of_Z 100)%float = true /\ (momentum >? of_Z 100)%float = true) /\
      (get_quadrant ratio momentum = Weakening <->
         (ratio >? of_Z 100)%float = true /\ (momentum <=? of_Z 100)%float = true) /\
      (get_quadrant ratio momentum = Improving <->
         (ratio <=? of_Z 100)%float = true /\ (momentum >? of_Z 100)%float = true) /\
      (get_quadrant ratio momentum = Lagging <->
         ~ ((ratio >? of_Z 100)%float = true /\ (momentum >? of_Z 100)%float = true) /\
         ~ ((ratio >? of_Z 100)%float = true /\ (momentum <=? of_Z 100)%float = true) /\
         ~ ((ratio <=? of_Z 100)%float = true /\ (momentum >? of_Z 100)%float = true))) /\
  get_quadrant (of_Z 100) (of_Z 100) = Lagging /\
  get_quadrant (of_Q (1000001 # 10000)) (of_Q (1000001 # 10000)) = Leading /\
  get_quadrant (of_Q (1000001 # 10000)) (of_Q (999999 # 10000)) = Weakening /\
  get_quadrant (of_Q (999999 # 10000)) (of_Q (1000001 # 10000)) = Improving.
Proof.
  split; [| repeat split; vm_compute; reflexivity].
  intros ratio momentum. unfold get_quadrant.
  pose proof (fleb_fgtb_excl ratio (of_Z 100)) as Hr.
  pose proof (fleb_fgtb_excl momentum (of_Z 100)) as Hm.
  destruct (ratio >? of_Z 100)%float, (ratio <=? of_Z 100)%float,
    (momentum >? of_Z 100)%float, (momentum <=? of_Z 100)%float;
    simpl; try (specialize (Hr eq_refl)); try (specialize (Hm eq_refl));
    try discriminate;
    repeat split; try discriminate; try tauto; try congruence;
    intros; intuition congruence.
Qed.

(** C10. On numbers (every float but NaN) the colour of [get_color] is the
    colour of the quadrant of [get_quadrant]: green for Leading, yellow for
    Weakening, blue for Improving, red for Lagging. *)
Theorem get_color_agrees_with_get_quadrant (ratio momentum : float) :
  is_nan ratio = false -> is_nan momentum = false ->
  (get_color ratio momentum = "#008217"%string <-> get_quadrant ratio momentum = Leading) /\
  (get_color ratio momentum = "#918000"%string <-> get_quadrant ratio momentum = Weakening) /\
  (get_color ratio momentum = "#00749D"%string <-> get_quadrant ratio momentum = Improving) /\
  (get_color ratio momentum = "#E0002B"%string <-> get_quadrant ratio momentum = Lagging).
Proof.
  intros Hr Hm. unfold get_color, get_quadrant.
  rewrite (fleb_negb_fgtb ratio (of_Z 100) Hr eq_refl).
  rewrite (fleb_negb_fgtb momentum (of_Z 100) Hm eq_refl).
  destruct (ratio >? of_Z 100)%float, (momentum >? of_Z 100)%float; simpl;
    repeat split; intros H; try reflexivity; discriminate H.
Qed.

Lemma get_color_agrees_with_get_quadrant_witness :
  is_nan (of_Z 101) = false /\ is_nan (of_Z 99) = false /\
  (get_color (of_Z 101) (of_Z 99) = "#918000"%string <->
   get_quadrant (of_Z 101) (of_Z 99) = Weakening).
Proof.
  split; [reflexivity | split; [reflexivity |]].
  exact (proj1 (proj2 (get_color_agrees_with_get_quadrant
                         (of_Z 101) (of_Z 99) eq_refl eq_refl))).
Defined.

(** NaN is where the two part: a ratio above 100 with a missing momentum is
    Lagging for [get_quadrant] and has the colour of Weakening. *)
Example quadrant_and_colour_at_nan :
  get_quadrant (of_Z 101) NaN = Lagging /\
  get_color (of_Z 101) NaN = "#918000"%string.
Proof. split; reflexivity. Qed.

(** ** The normalizer *)

Section Normalizer.

Lemma keep_first_cons (seen : list date) (d : date) (v : float) (ser : Series) :
  keep_first seen ((d, v) :: ser) =
  if existsb (Z.eqb d) seen then keep_first (d :: seen) ser
  else (d, v) :: keep_first (d :: seen) ser.
Proof.
  unfold keep_first. simpl. now destruct (existsb (Z.eqb d) seen).
Qed.

Lemma existsb_eqb_In (d : date) (l : list date) :
  existsb (Z.eqb d) l = true <-> In d l.
Proof.
  rewrite existsb_exists. split.
  - intros [x [Hin Heq]]. apply Z.eqb_eq in Heq. now subst.
  - intros Hin. exists d. split; [assumption | apply Z.eqb_refl].
Qed.

Lemma existsb_eqb_not_In (d : date) (l : list date) :
  existsb (Z.eqb d) l = false <-> ~ In d l.
Proof.
  rewrite <- existsb_eqb_In. destruct (existsb (Z.eqb d) l); split; congruence.
Qed.

Lemma keep_first_unchanged (ser : Series) : forall seen,
  existsb (fun b => b) (duplicated_from seen (index ser)) = false ->
  keep_first seen ser = ser.
Proof.
  induction ser as [| [d v] ser IH]; intros seen H.
  - reflexivity.
  - simpl in H. apply orb_false_iff in H. destruct H as [Hd Hrest].
    rewrite keep_first_cons, Hd. f_equal. now apply IH.
Qed.

Lemma keep_first_index (ser : Series) : forall seen d,
  In d (index (keep_first seen ser)) <-> In d (index ser) /\ ~ In d seen.
Proof.
  induction ser as [| [d0 v] ser IH]; intros seen d.
  - simpl. tauto.
  - rewrite keep_first_cons.
    destruct (existsb (Z.eqb d0) seen) eqn:E; simpl; rewrite IH; simpl.
    + apply existsb_eqb_In in E.
      split; [intros [H1 H2] | intros [[H1 | H1] H2]]; subst; try tauto.
      split; [assumption |]. intros [-> | ?]; tauto.
    + apply existsb_eqb_not_In in E.
      destruct (Z.eq_dec d0 d) as [-> | Hne]; tauto.
Qed.

Lemma keep_first_NoDup (ser : Series) : forall seen,
  NoDup (index (keep_first seen ser)).
Proof.
  induction ser as [| [d0 v] ser IH]; intros seen.
  - constructor.
  - rewrite keep_first_cons.
    destruct (existsb (Z.eqb d0) seen) eqn:E; simpl.
    + apply IH.
    + constructor; [| apply IH].
      rewrite keep_first_index. simpl. tauto.
Qed.

Lemma keep_first_find (ser : Series) : forall seen d,
  find (fun row => fst row =? d) (keep_first seen ser) =
  if existsb (Z.eqb d) seen then None
  else find (fun row => fst row =? d) ser.
Proof.
  induction ser as [| [d0 v] ser IH]; intros seen d.
  - simpl. now destruct (existsb (Z.eqb d) seen).
  - rewrite keep_first_cons.
    destruct (existsb (Z.eqb d0) seen) eqn:E0; simpl; rewrite IH; simpl;
      rewrite (Z.eqb_sym d d0);
      destruct (d0 =? d) eqn:Ed; simpl; try reflexivity.
    + apply Z.eqb_eq in Ed. subst d0. now rewrite E0.
    + apply Z.eqb_eq in Ed. subst d0. now rewrite E0.
Qed.

Lemma has_duplicates_false_NoDup (ser : Series) :
  has_duplicates (index ser) = false -> NoDup (index ser).
Proof.
  intros H. unfold has_duplicates, duplicated in H.
  rewrite <- (keep_first_unchanged ser [] H). apply keep_first_NoDup.
Qed.

Lemma NoDup_no_duplicates (idx : list date) : forall seen,
  NoDup idx -> (forall d, In d idx -> ~ In d seen) ->
  existsb (fun b => b) (duplicated_from seen idx) = false.
Proof.
  induction idx as [| d idx IH]; intros seen Hnd Hdisj; simpl.
  - reflexivity.
  - inversion Hnd as [| ? ? Hnotin Hnd']; subst.
    apply orb_false_iff. split.
    + apply existsb_eqb_not_In. apply Hdisj. now left.
    + apply IH; [assumption |].
      intros d' Hin [Heq | Hseen].
      * subst. contradiction.
      * apply (Hdisj d'); [now right | assumption].
Qed.

Lemma StronglySorted_lt_NoDup (idx : list date) :
  StronglySorted Z.lt idx -> NoDup idx.
Proof.
  induction 1 as [| d idx Hs IH Hall]; constructor; [| assumption].
  intros Hin. rewrite Forall_forall in Hall. specialize (Hall d Hin). lia.
Qed.

Lemma monotonic_NoDup_sorted (idx : list date) :
  is_monotonic_increasing idx = true -> NoDup idx -> StronglySorted Z.lt idx.
Proof.
  induction idx as [| d rest IH]; intros Hm Hnd.
  - constructor.
  - inversion Hnd as [| ? ? Hnotin Hnd']; subst.
    destruct rest as [| d' r].
    + constructor; constructor.
    + simpl in Hm. apply andb_true_iff in Hm. destruct Hm as [Hle Hm].
      apply Z.leb_le in Hle.
      specialize (IH Hm Hnd').
      constructor; [assumption |].
      assert (Hlt : d < d') by (assert (d <> d') by (intros ->; apply Hnotin; now left); lia).
      constructor; [assumption |].
      inversion IH as [| ? ? _ Hall]; subst.
      eapply Forall_impl; [| exact Hall]. simpl. intros; lia.
Qed.

Lemma sorted_monotonic (idx : list date) :
  StronglySorted Z.lt idx -> is_monotonic_increasing idx = true.
Proof.
  induction 1 as [| d idx Hs IH Hall].
  - reflexivity.
  - destruct idx as [| d' r]; [reflexivity |].
    simpl in *. rewrite IH. inversion Hall; subst.
    rewrite andb_true_r. apply Z.leb_le. lia.
Qed.

Lemma insert_row_index (row : date * float) (ser : Series) (d : date) :
  In d (index (insert_row row ser)) <-> d = fst row \/ In d (index ser).
Proof.
  induction ser as [| row' ser IH]; simpl.
  - intuition.
  - destruct (fst row <=? fst row'); simpl; [| rewrite IH]; intuition.
Qed.

Lemma sort_index_index (ser : Series) (d : date) :
  In d (index (sort_index ser)) <-> In d (index ser).
Proof.
  induction ser as [| row ser IH]; simpl; [tauto |].
  rewrite insert_row_index, IH. intuition.
Qed.

Lemma insert_row_sorted (row : date * float) (ser : Series) :
  StronglySorted Z.lt (index ser) -> ~ In (fst row) (index ser) ->
  StronglySorted Z.lt (index (insert_row row ser)).
Proof.
  induction ser as [| row' ser IH]; intros Hs Hnotin; simpl.
  - constructor; constructor.
  - simpl in Hs, Hnotin. inversion Hs as [| ? ? Hs' Hall]; subst.
    destruct (fst row <=? fst row') eqn:E; simpl.
    + apply Z.leb_le in E.
      assert (fst row < fst row') by (assert (fst row' <> fst row) by tauto; lia).
      constructor; [assumption |].
      constructor; [assumption |].
      eapply Forall_impl; [| exact Hall]. simpl. intros; lia.
    + apply Z.leb_gt in E.
      constructor; [apply IH; tauto |].
      apply Forall_forall. intros d Hd. apply insert_row_index in Hd.
      destruct Hd as [-> | Hd]; [assumption |].
      rewrite Forall_forall in Hall. now apply Hall.
Qed.

Lemma sort_index_sorted (ser : Series) :
  NoDup (index ser) -> StronglySorted Z.lt (index (sort_index ser)).
Proof.
  induction ser as [| row ser IH]; intros Hnd; simpl.
  - constructor.
  - simpl in Hnd. inversion Hnd; subst.
    apply insert_row_sorted; [now apply IH |].
    now rewrite sort_index_index.
Qed.

Lemma insert_row_find (row : date * float) (ser : Series) (d : date) :
  ~ In (fst row) (index ser) ->
  find (fun r => fst r =? d) (insert_row row ser) =
  if fst row =? d then Some row else find (fun r => fst r =? d) ser.
Proof.
  induction ser as [| row' ser IH]; intros Hnotin; simpl.
  - reflexivity.
  - simpl in Hnotin.
    destruct (fst row <=? fst row'); simpl; [reflexivity |].
    rewrite IH by tauto. unfold date in *.
    destruct (fst row =? d) eqn:E1, (fst row' =? d) eqn:E2; try reflexivity.
    apply Z.eqb_eq in E1, E2. exfalso. apply Hnotin. left. congruence.
Qed.

Lemma sort_index_find (ser : Series) (d : date) :
  NoDup (index ser) ->
  find (fun r => fst r =? d) (sort_index ser) = find (fun r => fst r =? d) ser.
Proof.
  induction ser as [| row ser IH]; intros Hnd; simpl.
  - reflexivity.
  - simpl in Hnd. inversion Hnd; subst.
    rewrite insert_row_find by now rewrite sort_index_index.
    now rewrite IH.
Qed.

(** [process_series] is: drop the later rows of every label, then sort
    unless the labels already increase. *)
Lemma process_series_unfold (ser : Series) :
  process_series ser =
  if negb (is_monotonic_increasing (index (keep_first [] ser)))
  then sort_index (keep_first [] ser)
  else keep_first [] ser.
Proof.
  unfold process_series.
  destruct (has_duplicates (index ser)) eqn:E; [reflexivity |].
  unfold has_duplicates, duplicated in E.
  now rewrite (keep_first_unchanged ser [] E).
Qed.

Lemma process_series_normalized (ser : Series) : normalized (process_series ser).
Proof.
  unfold normalized. rewrite process_series_unfold.
  pose proof (keep_first_NoDup ser []) as Hnd.
  destruct (is_monotonic_increasing (index (keep_first [] ser))) eqn:E; simpl.
  - now apply monotonic_NoDup_sorted.
  - now apply sort_index_sorted.
Qed.

Lemma process_series_first_occurrence (ser : Series) (d : date) :
  first_occurrence (process_series ser) d = first_occurrence ser d.
Proof.
  unfold first_occurrence. rewrite process_series_unfold.
  pose proof (keep_first_NoDup ser []) as Hnd.
  destruct (is_monotonic_increasing (index (keep_first [] ser))); simpl.
  - now rewrite keep_first_find.
  - rewrite sort_index_find by assumption. now rewrite keep_first_find.
Qed.

Lemma process_series_fixes_normalized (ser : Series) :
  normalized ser -> process_series ser = ser.
Proof.
  unfold normalized. intros Hs. unfold process_series.
  assert (Hd : has_duplicates (index ser) = false).
  { apply NoDup_no_duplicates; [now apply StronglySorted_lt_NoDup | tauto]. }
  rewrite Hd. now rewrite (sorted_monotonic _ Hs).
Qed.

(** In a series without repeated labels the rows are the first
    occurrences. *)
Lemma NoDup_first_occurrence (ser : Series) (d : date) (v : float) :
  NoDup (index ser) -> (In (d, v) ser <-> first_occurrence ser d = Some v).
Proof.
  unfold first_occurrence.
  induction ser as [| [d0 v0] ser IH]; intros Hnd; simpl.
  - split; [contradiction | discriminate].
  - simpl in Hnd. inversion Hnd as [| ? ? Hnotin Hnd']; subst.
    destruct (d0 =? d) eqn:E; simpl.
    + apply Z.eqb_eq in E. subst d0. split.
      * intros [H | H]; [congruence |].
        exfalso. apply Hnotin. apply (in_map fst) in H. exact H.
      * intros H. left. congruence.
    + apply Z.eqb_neq in E. rewrite <- (IH Hnd'). split.
      * intros [H | H]; [congruence | exact H].
      * intros H. now right.
Qed.

End Normalizer.

(** C5. For every raw series the normalizer returns a series whose labels
    strictly increase (so no label is repeated) and whose rows are exactly
    the first occurrences of the input: a date with the value of the first
    row that carries it; the empty series is returned as it is. *)
Theorem process_series_sorted_keeps_first :
  (forall ser : Series,
      normalized (process_series ser) /\
      NoDup (index (process_series ser)) /\
      (forall d v, In (d, v) (process_series ser) <-> first_occurrence ser d = Some v)) /\
  process_series [] = [].
Proof.
  split; [| reflexivity].
  intros ser.
  assert (Hnd : NoDup (index (process_series ser)))
    by apply StronglySorted_lt_NoDup, process_series_normalized.
  split; [apply process_series_normalized |].
  split; [exact Hnd |].
  intros d v. rewrite (NoDup_first_occurrence _ d v Hnd).
  now rewrite process_series_first_occurrence.
Qed.

(** C6. The normalizer is idempotent: a series that is already normalized
    is returned unchanged, and normalizing twice is normalizing once. *)
Theorem process_series_idempotent :
  (forall s : Series, normalized s -> process_series s = s) /\
  (forall s : Series, process_series (process_series s) = process_series s).
Proof.
  split.
  - apply process_series_fixes_normalized.
  - intros s. apply process_series_fixes_normalized, process_series_normalized.
Qed.

Lemma process_series_idempotent_witness :
  normalized (with_values [1; 2; 5] [of_Z 10; of_Z 11; of_Z 12]) /\
  process_series (with_values [1; 2; 5] [of_Z 10; of_Z 11; of_Z 12])
  = with_values [1; 2; 5] [of_Z 10; of_Z 11; of_Z 12].
Proof.
  assert (H : normalized (with_values [1; 2; 5] [of_Z 10; of_Z 11; of_Z 12])).
  { unfold normalized. simpl.
    repeat (constructor; [| repeat (constructor; [lia |]); constructor]).
    constructor. }
  split; [exact H |].
  exact (proj1 process_series_idempotent _ H).
Defined.

(** ** Series and positions *)

Section Positions.

Lemma index_eqb_refl (idx : list date) : index_eqb idx idx = true.
Proof.
  unfold index_eqb. rewrite Nat.eqb_refl. simpl.
  induction idx as [| d idx IH]; simpl; [reflexivity |].
  now rewrite Z.eqb_refl.
Qed.

Lemma index_with_values (idx : list date) (vals : list float) :
  length idx = length vals -> index (with_values idx vals) = idx.
Proof.
  unfold index, with_values. revert vals.
  induction idx as [| d idx IH]; intros [| v vals] H; simpl in *;
    try discriminate; [reflexivity |].
  f_equal. apply IH. lia.
Qed.

Lemma values_with_values (idx : list date) (vals : list float) :
  length idx = length vals -> values (with_values idx vals) = vals.
Proof.
  unfold values, with_values. revert vals.
  induction idx as [| d idx IH]; intros [| v vals] H; simpl in *;
    try discriminate; [reflexivity |].
  f_equal. apply IH. lia.
Qed.

Lemma length_index (s : Series) : length (index s) = length s.
Proof. apply length_map. Qed.

Lemma length_values (s : Series) : length (values s) = length s.
Proof. apply length_map. Qed.

Lemma length_map2 {A B C} (f : A -> B -> C) (l1 : list A) (l2 : list B) :
  length (map2 f l1 l2) = Nat.min (length l1) (length l2).
Proof. unfold map2. now rewrite length_map, length_combine. Qed.

Lemma nth_error_combine {A B} (l1 : list A) (l2 : list B) : forall t,
  nth_error (combine l1 l2) t =
  match nth_error l1 t, nth_error l2 t with
  | Some a, Some b => Some (a, b)
  | _, _ => None
  end.
Proof.
  revert l2. induction l1 as [| a l1 IH]; intros [| b l2] [| t]; simpl;
    try reflexivity.
  - now destruct (nth_error l1 t).
  - apply IH.
Qed.

Lemma nth_error_map2 {A B C} (f : A -> B -> C) (l1 : list A) (l2 : list B) (t : nat) :
  nth_error (map2 f l1 l2) t =
  match nth_error l1 t, nth_error l2 t with
  | Some a, Some b => Some (f a b)
  | _, _ => None
  end.
Proof.
  unfold map2. rewrite nth_error_map, nth_error_combine.
  now destruct (nth_error l1 t), (nth_error l2 t).
Qed.

Lemma length_prep_values (l : list float) : length (prep_values l) = length l.
Proof. apply length_map. Qed.

Lemma length_ewm_loop (alpha : float) (l : list float) : forall st,
  length (ewm_loop alpha st l) = length l.
Proof. induction l as [| x l IH]; intros st; simpl; [reflexivity | now rewrite IH]. Qed.

Lemma length_ewm (alpha : float) (l : list float) : length (ewm alpha l) = length l.
Proof. destruct l; simpl; [reflexivity | now rewrite length_ewm_loop]. Qed.

Lemma length_rolling_mean (w : nat) (l : list float) :
  length (rolling_mean w l) = length l.
Proof. unfold rolling_mean. now rewrite length_map, length_seq. Qed.

Lemma length_shift (k : Z) (l : list float) : length (shift k l) = length l.
Proof.
  unfold shift. destruct (0 <=? k);
    rewrite length_app, repeat_length, ?length_firstn, ?length_skipn; lia.
Qed.

Lemma length_replace (a b : float) (l : list float) :
  length (replace a b l) = length l.
Proof. apply length_map. Qed.

Lemma length_ratio_values (m : Z) (stock bench : list float) :
  length stock = length bench -> length (ratio_values m stock bench) = length stock.
Proof.
  intros H. unfold ratio_values, rs_ratio_values, ema_rs_mean_values, ema_rs_values, rs_values.
  rewrite length_map2, length_map, length_replace, length_rolling_mean,
    length_ewm, length_prep_values, length_map2. lia.
Qed.

Lemma length_roc_of (k : Z) (ratio : list float) : length (roc_of k ratio) = length ratio.
Proof.
  unfold roc_of, roc_values.
  rewrite !length_map2, length_replace, length_shift. lia.
Qed.

Lemma length_momentum_values (m k : Z) (ratio : list float) :
  length (momentum_values m k ratio) = length ratio.
Proof.
  unfold momentum_values, rs_momentum_values, ema_roc_values.
  now rewrite length_map, length_ewm, length_prep_values, length_roc_of.
Qed.

(** For a span of at least 1 and operands on one index [calculate_rs]
    returns, on that index. *)
Lemma calculate_rs_returns (c : RRGCalculator) (stock bench : Series) :
  1 <= ema_roc_span c -> index stock = index bench ->
  calculate_rs c stock bench =
  Ok (with_values (index stock)
        (ratio_values (ema_roc_span c) (values stock) (values bench))).
Proof.
  intros Hm Hidx. unfold calculate_rs, ewm_mean.
  rewrite <- Hidx, index_eqb_refl. simpl.
  destruct (ema_roc_span c <? 1) eqn:E; [apply Z.ltb_lt in E; lia |].
  reflexivity.
Qed.

Lemma calculate_momentum_returns (c : RRGCalculator) (rs_ratio : Series) :
  1 <= ema_roc_span c ->
  calculate_momentum c rs_ratio =
  Ok (with_values (index rs_ratio)
        (momentum_values (ema_roc_span c) (roc_shift c) (values rs_ratio))).
Proof.
  intros Hm. unfold calculate_momentum, ewm_mean.
  destruct (ema_roc_span c <? 1) eqn:E; [apply Z.ltb_lt in E; lia |].
  reflexivity.
Qed.

End Positions.

(** ** The constant-price scenario *)

Section Scenario.

Let tens : list float := repeat (of_Z 10) 50.
Let fives : list float := repeat (of_Z 5) 50.

(** Every position of [l] from [lo], [len] of them, holds exactly [v]. *)
Lemma all_equal_from (l : list float) (v : float) (lo len : nat) :
  forallb (fun t => (nth t l NaN ==? v)%float) (seq lo len) = true ->
  (lo + len <= length l)%nat ->
  forall t, (lo <= t < lo + len)%nat -> nth_error l t = Some v.
Proof.
  intros Hall Hlen t Ht.
  rewrite forallb_forall in Hall.
  specialize (Hall t). rewrite in_seq in Hall. specialize (Hall Ht).
  apply feqb_eq in Hall. rewrite <- Hall.
  apply nth_error_nth'. lia.
Qed.

Lemma scenario_ratio_from_13 :
  forallb (fun t => (nth t (ratio_values 14 tens fives) NaN ==? of_Z 100)%float)
          (seq 13 37) = true.
Proof. vm_compute. reflexivity. Qed.

Lemma scenario_momentum_from_23 :
  forallb (fun t => (nth t (momentum_values 14 10 (ratio_values 14 tens fives)) NaN
                       ==? of_Z 100)%float)
          (seq 23 27) = true.
Proof. vm_compute. reflexivity. Qed.

Lemma scenario_returns (idx : list date) :
  length idx = 50%nat ->
  calculate_rs default_calculator (with_values idx tens) (with_values idx fives)
  = Ok (with_values idx (ratio_values 14 tens fives)) /\
  calculate_momentum default_calculator (with_values idx (ratio_values 14 tens fives))
  = Ok (with_values idx (momentum_values 14 10 (ratio_values 14 tens fives))).
Proof.
  intros Hlen.
  assert (Ht : length idx = length tens) by (subst tens; now rewrite repeat_length).
  assert (Hf : length idx = length fives) by (subst fives; now rewrite repeat_length).
  assert (Hr : length idx = length (ratio_values 14 tens fives)).
  { rewrite length_ratio_values; [assumption | congruence]. }
  split.
  - rewrite calculate_rs_returns.
    + rewrite !values_with_values, index_with_values by assumption. reflexivity.
    + simpl. lia.
    + now rewrite !index_with_values.
  - rewrite calculate_momentum_returns by (simpl; lia).
    rewrite values_with_values, index_with_values by assumption. reflexivity.
Qed.

Lemma dates_from_sorted (n a : nat) :
  StronglySorted Z.lt (map Z.of_nat (seq a n)).
Proof.
  revert a. induction n as [| n IH]; intros a; simpl; constructor.
  - apply IH.
  - apply Forall_forall. intros d Hd.
    apply in_map_iff in Hd. destruct Hd as [x [<- Hx]].
    apply in_seq in Hx. lia.
Qed.

End Scenario.

(** C2. Instrument prices 10 and benchmark prices 5 at 50 common, strictly
    increasing dates, with m = 14 and k = 10: [calculate_rs] returns a ratio
    series that is exactly 100 at every position from 2m-2 = 26 on, and
    [calculate_momentum] of that series returns a momentum series that is
    exactly 100 at every position from 2m-2+k = 36 on. *)
Theorem constant_prices_scenario (idx : list date) :
  length idx = 50%nat -> StronglySorted Z.lt idx ->
  exists ratio momentum : Series,
    calculate_rs default_calculator
      (with_values idx (repeat (of_Z 10) 50)) (with_values idx (repeat (of_Z 5) 50))
    = Ok ratio /\
    calculate_momentum default_calculator ratio = Ok momentum /\
    index ratio = idx /\ index momentum = idx /\
    (forall t, (26 <= t < 50)%nat -> nth_error (values ratio) t = Some (of_Z 100)) /\
    (forall t, (36 <= t < 50)%nat -> nth_error (values momentum) t = Some (of_Z 100)).
Proof.
  intros Hlen _.
  destruct (scenario_returns idx Hlen) as [Hrs Hmom].
  set (r := ratio_values 14 (repeat (of_Z 10) 50) (repeat (of_Z 5) 50)) in *.
  assert (Hr : length r = 50%nat).
  { subst r. rewrite length_ratio_values; now rewrite !repeat_length. }
  assert (Hm : length (momentum_values 14 10 r) = 50%nat)
    by now rewrite length_momentum_values.
  exists (with_values idx r), (with_values idx (momentum_values 14 10 r)).
  split; [exact Hrs |]. split; [exact Hmom |].
  rewrite !index_with_values, !values_with_values by congruence.
  split; [reflexivity |]. split; [reflexivity |].
  split; intros t Ht.
  - apply (all_equal_from r (of_Z 100) 13 37 scenario_ratio_from_13); lia.
  - apply (all_equal_from (momentum_values 14 10 r) (of_Z 100) 23 27
             scenario_momentum_from_23); lia.
Qed.

Lemma constant_prices_scenario_witness :
  exists ratio momentum : Series,
    calculate_rs default_calculator
      (with_values (map Z.of_nat (seq 0 50)) (repeat (of_Z 10) 50))
      (with_values (map Z.of_nat (seq 0 50)) (repeat (of_Z 5) 50))
    = Ok ratio /\
    calculate_momentum default_calculator ratio = Ok momentum /\
    index ratio = map Z.of_nat (seq 0 50) /\
    index momentum = map Z.of_nat (seq 0 50) /\
    (forall t, (26 <= t < 50)%nat -> nth_error (values ratio) t = Some (of_Z 100)) /\
    (forall t, (36 <= t < 50)%nat -> nth_error (values momentum) t = Some (of_Z 100)).
Proof.
  apply (constant_prices_scenario (map Z.of_nat (seq 0 50))).
  - reflexivity.
  - apply dates_from_sorted.
Defined.

(** ** Exact arithmetic *)

Section Arithmetic.

Local Open Scope Qc_scope.

Lemma this_Q2Qc (q : Q) : (this (Q2Qc q) == q)%Q.
Proof. unfold Q2Qc; cbn [this]; apply Qred_correct. Qed.

Lemma this_plus (x y : Qc) : (this (x + y) == this x + this y)%Q.
Proof. unfold Qcplus. apply this_Q2Qc. Qed.

Lemma this_mult (x y : Qc) : (this (x * y) == this x * this y)%Q.
Proof. unfold Qcmult. apply this_Q2Qc. Qed.

Lemma this_opp (x : Qc) : (this (- x) == - this x)%Q.
Proof. unfold Qcopp. apply this_Q2Qc. Qed.

Lemma this_minus (x y : Qc) : (this (x - y) == this x - this y)%Q.
Proof. unfold Qcminus. rewrite this_plus, this_opp. reflexivity. Qed.

Lemma Qc_of_Z_plus (a b : Z) :
  Q2Qc (inject_Z (a + b)) = Q2Qc (inject_Z a) + Q2Qc (inject_Z b).
Proof.
  apply Qc_is_canon. rewrite this_plus, !this_Q2Qc, inject_Z_plus. reflexivity.
Qed.

Lemma Qc_of_Z_neq_0 (a : Z) : a <> 0%Z -> Q2Qc (inject_Z a) <> 0.
Proof.
  intros Ha H. apply (f_equal this) in H.
  assert (Hq : (inject_Z a == 0)%Q) by (rewrite <- (this_Q2Qc (inject_Z a)), H; reflexivity).
  apply Ha. unfold Qeq in Hq. simpl in Hq. lia.
Qed.

Lemma Qc_of_Z_pos (a : Z) : (0 < a)%Z -> 0 < Q2Qc (inject_Z a).
Proof.
  intros Ha. unfold Qclt. rewrite !this_Q2Qc.
  change 0%Q with (inject_Z 0). rewrite <- Zlt_Qlt. exact Ha.
Qed.

Lemma fdiv_Fin (a b : Qc) : b <> 0 -> fdiv (Fin a) (Fin b) = Fin (a / b).
Proof.
  intros Hb. apply Qc_eqb_neq in Hb. unfold fdiv. now rewrite Hb.
Qed.

Lemma fadd_Fin (a b : Qc) : fadd (Fin a) (Fin b) = Fin (a + b).
Proof. reflexivity. Qed.

Lemma fmul_Fin (a b : Qc) : fmul (Fin a) (Fin b) = Fin (a * b).
Proof. reflexivity. Qed.

Lemma fsub_Fin (a b : Qc) : fsub (Fin a) (Fin b) = Fin (a - b).
Proof. reflexivity. Qed.

Lemma of_Z_1 : of_Z 1 = Fin 1.
Proof. reflexivity. Qed.

Lemma of_Z_0 : of_Z 0 = Fin 0.
Proof. reflexivity. Qed.

(** The smoothing factor [ewm] computes from the span, [1 / (1 + (m-1)/2)],
    is [2 / (m + 1)]. *)
Lemma ewm_alpha_spec (m : Z) : (1 <= m)%Z -> ewm_alpha m = Fin (alpha_of m).
Proof.
  intros Hm. unfold ewm_alpha, alpha_of.
  assert (H2 : Q2Qc (inject_Z 2) <> 0) by (apply Qc_of_Z_neq_0; lia).
  assert (Hm1 : Q2Qc (inject_Z (m + 1)) <> 0) by (apply Qc_of_Z_neq_0; lia).
  rewrite of_Z_1. unfold of_Z.
  rewrite (fdiv_Fin _ _ H2), fadd_Fin.
  replace (m - 1)%Z with ((m + 1) + (-2))%Z by lia.
  rewrite Qc_of_Z_plus.
  set (M := Q2Qc (inject_Z (m + 1))) in *.
  replace (Q2Qc (inject_Z (-2))) with (- Q2Qc (inject_Z 2))
    by (apply Qc_is_canon; reflexivity).
  set (two := Q2Qc (inject_Z 2)) in *.
  assert (Hd : 1 + (M + - two) / two = M / two) by (field; assumption).
  rewrite Hd.
  assert (Hnz : M / two <> 0).
  { intros H. apply Hm1. rewrite <- (Qcmult_div_r M two H2), H. ring. }
  rewrite (fdiv_Fin _ _ Hnz). f_equal. field. split; assumption.
Qed.


(** The weights of one step: the old weight stays in range and the divisor
    is positive. *)
Lemma step_weights (o a : Qc) :
  0 <= o -> 0 < a -> a <= 1 -> 0 <= o * (1 - a) /\ o * (1 - a) + a <> 0.
Proof.
  intros Ho Ha Ha1.
  assert (H : 0 <= o * (1 - a) /\ 0 < o * (1 - a) + a).
  { revert Ho Ha Ha1. unfold Qcle, Qclt.
    rewrite this_plus, !this_mult, this_minus. simpl. intros. split; nra. }
  destruct H as [H1 H2]. split; [assumption |].
  intros H. rewrite H in H2. exact (Qclt_not_le _ _ H2 (Qcle_refl 0)).
Qed.

End Arithmetic.

(** ** The exponential moving average *)

Section Ewm.

Local Open Scope Qc_scope.

Lemma is_nan_Fin (q : Qc) : is_nan (Fin q) = false.
Proof. unfold is_nan, feqb. now rewrite Qc_eqb_refl. Qed.

Lemma is_nan_NaN : is_nan NaN = true.
Proof. reflexivity. Qed.

Lemma not_inf_cases (x : float) :
  is_inf x = false -> (exists q, x = Fin q) \/ x = NaN.
Proof. destruct x; simpl; intros H; try discriminate; eauto. Qed.

Lemma prep_values_not_inf (l : list float) :
  Forall (fun x => is_inf x = false) (prep_values l).
Proof.
  unfold prep_values. apply Forall_forall. intros x Hx.
  apply in_map_iff in Hx. destruct Hx as [y [<- _]]. now destruct y.
Qed.

Lemma prep_values_nth (l : list float) (t : nat) :
  nth_error (prep_values l) t =
  option_map (fun x => if is_inf x then NaN else x) (nth_error l t).
Proof. unfold prep_values. apply nth_error_map. Qed.

(** *** One step *)

Lemma step_num_num (a w o v : Qc) (n : nat) :
  ewm_step (Fin a) (mk_ewm (Fin w) (Fin o) n) (Fin v) =
  mk_ewm (if negb (Qc_eqb w v)
          then fdiv (Fin (o * (1 - a) * w + a * v)) (Fin (o * (1 - a) + a))
          else Fin w)
         (of_Z 1) (S n).
Proof.
  unfold ewm_step. cbn [weighted old_wt nobs]. now rewrite !is_nan_Fin.
Qed.

Lemma step_num_nan (alpha w o : float) (q : Qc) (n : nat) :
  w = Fin q ->
  ewm_step alpha (mk_ewm w o n) NaN = mk_ewm w (fmul o (fsub (of_Z 1) alpha)) n.
Proof.
  intros ->. unfold ewm_step. cbn [weighted old_wt nobs]. now rewrite is_nan_Fin.
Qed.

Lemma step_nan_num (alpha o : float) (v : Qc) (n : nat) :
  ewm_step alpha (mk_ewm NaN o n) (Fin v) = mk_ewm (Fin v) o (S n).
Proof.
  unfold ewm_step. cbn [weighted old_wt nobs]. now rewrite is_nan_Fin.
Qed.

Lemma step_nan_nan (alpha o : float) (n : nat) :
  ewm_step alpha (mk_ewm NaN o n) NaN = mk_ewm NaN o n.
Proof. reflexivity. Qed.

(** A missing value leaves the emitted mean as it was. *)
Lemma step_nan_emit (alpha : float) (st : ewm_state) :
  ewm_emit (ewm_step alpha st NaN) = ewm_emit st.
Proof.
  unfold ewm_step, ewm_emit. rewrite is_nan_NaN. simpl.
  now destruct (negb (is_nan (weighted st))).
Qed.

(** *** Positions *)

Lemma fold_left_firstn_S {A B} (f : A -> B -> A) (l : list B) : forall (t : nat) (x : B) (s : A),
  nth_error l t = Some x ->
  fold_left f (firstn (S t) l) s = f (fold_left f (firstn t l) s) x.
Proof.
  induction l as [| y l IH]; intros [| t] x s H; simpl in *; try discriminate.
  - now injection H as ->.
  - now apply IH.
Qed.

Lemma ewm_loop_nth (alpha : float) (l : list float) : forall st t x,
  nth_error l t = Some x ->
  nth_error (ewm_loop alpha st l) t =
  Some (ewm_emit (ewm_step alpha (fold_left (ewm_step alpha) (firstn t l) st) x)).
Proof.
  induction l as [| y l IH]; intros st [| t] x H; simpl in *; try discriminate.
  - now injection H as ->.
  - now apply IH.
Qed.

Lemma ewm_state_after_0 (alpha v0 : float) (rest : list float) :
  ewm_state_after alpha (v0 :: rest) 0 = ewm_init v0.
Proof. reflexivity. Qed.

Lemma ewm_state_after_S (alpha : float) (vals : list float) (t : nat) (x : float) :
  nth_error vals (S t) = Some x ->
  ewm_state_after alpha vals (S t) = ewm_step alpha (ewm_state_after alpha vals t) x.
Proof.
  destruct vals as [| v0 rest]; [discriminate |]. simpl nth_error.
  intros H. unfold ewm_state_after. now apply fold_left_firstn_S.
Qed.

Lemma ewm_nth (alpha : float) (vals : list float) (t : nat) :
  (t < length vals)%nat ->
  nth_error (ewm alpha vals) t = Some (ewm_emit (ewm_state_after alpha vals t)).
Proof.
  destruct vals as [| v0 rest]; simpl length; [lia |]. intros Ht.
  destruct t as [| t]; [reflexivity |].
  destruct (nth_error rest t) as [x |] eqn:E.
  - rewrite (ewm_state_after_S alpha (v0 :: rest) t x E).
    simpl. now apply ewm_loop_nth.
  - apply nth_error_None in E. lia.
Qed.

(** The mean at a position with a missing value repeats the mean before it
    (and is missing at the first position). *)
Lemma ewm_carries_forward (alpha : float) (vals : list float) (t : nat) :
  nth_error vals t = Some NaN ->
  nth_error (ewm alpha vals) t =
  match t with
  | O => Some NaN
  | S t' => nth_error (ewm alpha vals) t'
  end.
Proof.
  intros H.
  assert (Ht : (t < length vals)%nat) by (apply nth_error_Some; congruence).
  rewrite ewm_nth by assumption.
  destruct t as [| t].
  - destruct vals as [| v0 rest]; [discriminate |]. simpl in H.
    injection H as ->. reflexivity.
  - rewrite ewm_nth by lia.
    rewrite (ewm_state_after_S alpha vals t NaN H). now rewrite step_nan_emit.
Qed.

(** While every value so far is missing, so is the mean. *)
Lemma ewm_state_all_nan (alpha : float) (vals : list float) (t : nat) :
  (forall i, (i <= t)%nat -> nth_error vals i = Some NaN) ->
  ewm_state_after alpha vals t = mk_ewm NaN (of_Z 1) 0.
Proof.
  induction t as [| t IH]; intros H.
  - destruct vals as [| v0 rest]; [reflexivity |].
    specialize (H 0%nat (le_n 0)). simpl in H. injection H as ->. reflexivity.
  - rewrite (ewm_state_after_S alpha vals t NaN) by (apply H; lia).
    rewrite IH by (intros i Hi; apply H; lia). reflexivity.
Qed.

Lemma ewm_leading_nan (alpha : float) (vals : list float) (t : nat) :
  (t < length vals)%nat ->
  (forall i, (i <= t)%nat -> nth_error vals i = Some NaN) ->
  nth_error (ewm alpha vals) t = Some NaN.
Proof.
  intros Ht H. rewrite ewm_nth by assumption.
  now rewrite ewm_state_all_nan.
Qed.

End Ewm.

Section EwmInvariant.

Local Open Scope Qc_scope.

Variable a : Qc.
Hypothesis a_pos : 0 < a.
Hypothesis a_le_1 : a <= 1.

Lemma Qc_0_le_1 : 0 <= 1.
Proof. unfold Qcle, Qle. simpl. lia. Qed.

Lemma ewm_inv_init (v0 : float) : is_inf v0 = false -> ewm_inv (ewm_init v0).
Proof.
  intros Hv. exists 1. unfold ewm_init. cbn [weighted old_wt nobs].
  split; [reflexivity |]. split; [apply Qc_0_le_1 |]. split; [assumption |].
  split; [reflexivity |]. intros ->. lia.
Qed.

Lemma ewm_inv_step (st : ewm_state) (x : float) :
  ewm_inv st -> is_inf x = false -> ewm_inv (ewm_step (Fin a) st x).
Proof.
  destruct st as [w ow n]. intros [o [Ho [Hpos [Hw [Hnan Hobs]]]]] Hx.
  cbn [weighted old_wt nobs] in *. subst ow.
  destruct (step_weights o a Hpos a_pos a_le_1) as [Hpos' Hden].
  destruct (not_inf_cases w Hw) as [[wq ->] | ->];
    destruct (not_inf_cases x Hx) as [[v ->] | ->].
  - rewrite step_num_num. exists 1. cbn [weighted old_wt nobs].
    split; [reflexivity |]. split; [apply Qc_0_le_1 |].
    rewrite (fdiv_Fin _ _ Hden).
    destruct (negb (Qc_eqb wq v)); rewrite is_nan_Fin;
      (split; [reflexivity |]); (split; [discriminate | intros _; lia]).
  - rewrite (step_num_nan (Fin a) (Fin wq) (Fin o) wq n eq_refl).
    exists (o * (1 - a)). cbn [weighted old_wt nobs].
    split; [reflexivity |]. split; [assumption |]. split; [reflexivity |].
    rewrite is_nan_Fin in *. split; [discriminate | assumption].
  - rewrite step_nan_num. exists o. cbn [weighted old_wt nobs].
    split; [reflexivity |]. split; [assumption |]. split; [reflexivity |].
    rewrite is_nan_Fin. split; [discriminate | intros _; lia].
  - rewrite step_nan_nan. exists o. cbn [weighted old_wt nobs].
    repeat split; assumption.
Qed.

Lemma ewm_inv_after (vals : list float) (t : nat) :
  Forall (fun x => is_inf x = false) vals -> (t < length vals)%nat ->
  ewm_inv (ewm_state_after (Fin a) vals t).
Proof.
  intros Hall. induction t as [| t IH]; intros Ht.
  - destruct vals as [| v0 rest]; [simpl in Ht; lia |].
    rewrite ewm_state_after_0. apply ewm_inv_init. now inversion Hall.
  - destruct (nth_error vals (S t)) as [x |] eqn:E.
    + rewrite (ewm_state_after_S (Fin a) vals t x E).
      apply ewm_inv_step; [apply IH; lia |].
      rewrite Forall_forall in Hall. apply Hall. eapply nth_error_In; eauto.
    + apply nth_error_None in E. lia.
Qed.

Lemma ewm_emit_inv (st : ewm_state) : ewm_inv st -> ewm_emit st = weighted st.
Proof.
  intros [o [_ [_ [_ [_ Hobs]]]]]. unfold ewm_emit.
  destruct (is_nan (weighted st)) eqn:E.
  - apply is_nan_true in E. rewrite E. now destruct (1 <=? nobs st)%nat.
  - specialize (Hobs eq_refl). apply Nat.leb_le in Hobs. now rewrite Hobs.
Qed.

(** The mean [ewm] emits is never infinite. *)
Lemma ewm_not_inf (vals : list float) :
  Forall (fun x => is_inf x = false) (ewm (Fin a) (prep_values vals)).
Proof.
  apply Forall_forall. intros x Hx.
  apply In_nth_error in Hx. destruct Hx as [t Ht].
  assert (Hlt : (t < length (prep_values vals))%nat).
  { rewrite <- (length_ewm (Fin a)). apply nth_error_Some. congruence. }
  rewrite ewm_nth in Ht by assumption. injection Ht as <-.
  pose proof (ewm_inv_after _ t (prep_values_not_inf vals) Hlt) as Hinv.
  rewrite (ewm_emit_inv _ Hinv).
  destruct Hinv as [o [_ [_ [H _]]]]. exact H.
Qed.





End EwmInvariant.







(** With a missing value in the series the average goes on differently: it
    repeats its last value at the gap, and the next number is weighted
    against an older mean.  For 1, NaN, 3 and m = 3 the output is 1, 1, 7/3
    where alpha * 3 + (1 - alpha) * 1 is 2. *)
Example ewm_over_a_gap :
  option_map (map (fun x => (x ==? of_Z 1, x ==? of_Q (7 # 3))%float))
             (ewm_mean 3 [of_Z 1; NaN; of_Z 3])
  = Some [(true, false); (true, false); (false, true)].
Proof. vm_compute. reflexivity. Qed.

(** ** Rolling mean, shift and the two quotients *)

Section Windows.

Local Open Scope nat_scope.

Lemma fdiv_NaN_r (x : float) : fdiv x NaN = NaN.
Proof. now destruct x. Qed.

Lemma length_filter_le {A} (f : A -> bool) (l : list A) :
  length (filter f l) <= length l.
Proof.
  induction l as [| x l IH]; simpl; [lia |]. destruct (f x); simpl; lia.
Qed.

Lemma length_window_slice (w t : nat) (l : list float) :
  length (window_slice w t l) <= S t.
Proof.
  unfold window_slice. rewrite length_firstn. lia.
Qed.

(** A window shorter than [min_periods] has no mean. *)
Lemma calc_mean_short (minp : nat) (win : list float) :
  length win < minp -> calc_mean minp win = NaN.
Proof.
  intros H. unfold calc_mean.
  pose proof (length_filter_le (fun x => negb (is_nan x)) win) as Hle.
  destruct (minp <=? _) eqn:E; [| reflexivity].
  apply Nat.leb_le in E. lia.
Qed.

Lemma rolling_mean_nth (w : nat) (l : list float) (t : nat) :
  t < length l ->
  nth_error (rolling_mean w l) t =
  Some (calc_mean w (window_slice w t (prep_values l))).
Proof.
  intros Ht. unfold rolling_mean.
  rewrite nth_error_map, nth_error_seq.
  apply Nat.ltb_lt in Ht. now rewrite Ht.
Qed.

(** The first [w - 1] positions of a rolling mean are missing. *)
Lemma rolling_mean_warmup (w : nat) (l : list float) (t : nat) :
  t < length l -> S t < w -> nth_error (rolling_mean w l) t = Some NaN.
Proof.
  intros Ht Hw. rewrite rolling_mean_nth by assumption.
  rewrite calc_mean_short; [reflexivity |].
  pose proof (length_window_slice w t (prep_values l)). lia.
Qed.

Lemma sum_numbers (l : list float) : forall acc : Qc,
  Forall (fun x => is_inf x = false /\ is_nan x = false) l ->
  exists s : Qc, fold_left fadd l (Fin acc) = Fin s.
Proof.
  induction l as [| x l IH]; intros acc Hall; cbn [fold_left].
  - eauto.
  - inversion Hall as [| ? ? [Hinf Hnan] Hall']; subst.
    destruct x as [q | s |]; try discriminate.
    rewrite fadd_Fin. now apply IH.
Qed.

(** A rolling mean is a number or missing, never infinite. *)
Lemma calc_mean_not_inf (minp : nat) (win : list float) :
  Forall (fun x => is_inf x = false) win -> is_inf (calc_mean minp win) = false.
Proof.
  intros Hall. unfold calc_mean.
  set (obs := filter (fun x => negb (is_nan x)) win).
  destruct ((minp <=? length obs) && (0 <? length obs)) eqn:E; [| reflexivity].
  apply andb_true_iff in E. destruct E as [_ Hpos]. apply Nat.ltb_lt in Hpos.
  assert (Hobs : Forall (fun x => is_inf x = false /\ is_nan x = false) obs).
  { apply Forall_forall. intros x Hx. subst obs. apply filter_In in Hx.
    destruct Hx as [Hin Hn]. rewrite Forall_forall in Hall.
    split; [now apply Hall | now destruct (is_nan x)]. }
  unfold sum_floats. rewrite of_Z_0.
  destruct (sum_numbers obs 0%Qc Hobs) as [s Hs]. rewrite Hs.
  unfold of_Z. rewrite fdiv_Fin; [reflexivity |].
  apply Qc_of_Z_neq_0. lia.
Qed.

Lemma rolling_mean_not_inf (w : nat) (l : list float) :
  Forall (fun x => is_inf x = false) (rolling_mean w l).
Proof.
  apply Forall_forall. intros x Hx.
  apply In_nth_error in Hx. destruct Hx as [t Ht].
  assert (Hlt : t < length l).
  { rewrite <- (length_rolling_mean w). apply nth_error_Some. congruence. }
  rewrite rolling_mean_nth in Ht by assumption. injection Ht as <-.
  apply calc_mean_not_inf.
  unfold window_slice. apply Forall_forall. intros y Hy.
  pose proof (prep_values_not_inf l) as Hp. rewrite Forall_forall in Hp.
  apply Hp. apply In_nth_error in Hy. destruct Hy as [i Hi].
  rewrite nth_error_firstn in Hi.
  destruct (i <? _); [| discriminate].
  rewrite nth_error_skipn in Hi. eapply nth_error_In. exact Hi.
Qed.

Lemma replace_nth (a b : float) (l : list float) (t : nat) :
  nth_error (replace a b l) t =
  option_map (fun x => if feqb x a then b else x) (nth_error l t).
Proof. unfold replace. apply nth_error_map. Qed.

Lemma rs_ratio_values_nth (ema mean : list float) (t : nat) :
  nth_error (rs_ratio_values ema mean) t =
  match nth_error ema t, nth_error mean t with
  | Some e, Some mu =>
      Some (fdiv (fmul (of_Z 100) e) (if feqb mu (of_Z 0) then NaN else mu))
  | _, _ => None
  end.
Proof.
  unfold rs_ratio_values.
  rewrite nth_error_map2, nth_error_map, replace_nth.
  now destruct (nth_error ema t), (nth_error mean t).
Qed.

Lemma roc_values_nth (r s : list float) (t : nat) :
  nth_error (roc_values r s) t =
  match nth_error r t, nth_error s t with
  | Some x, Some y =>
      Some (fdiv (fsub x y) (if feqb y (of_Z 0) then NaN else y))
  | _, _ => None
  end.
Proof.
  unfold roc_values.
  rewrite !nth_error_map2, replace_nth.
  now destruct (nth_error r t), (nth_error s t).
Qed.

(** [shift k] for [0 <= k]: missing at the first [k] positions, then the
    value [k] positions earlier. *)
Lemma shift_nth (k : Z) (l : list float) (t : nat) :
  (0 <= k)%Z -> t < length l ->
  nth_error (shift k l) t =
  if (Z.of_nat t <? k)%Z then Some NaN else nth_error l (t - Z.to_nat k).
Proof.
  intros Hk Ht. unfold shift.
  destruct (0 <=? k)%Z eqn:E; [| apply Z.leb_gt in E; lia].
  set (k' := Nat.min (Z.to_nat k) (length l)).
  destruct (Z.of_nat t <? k)%Z eqn:Etk.
  - apply Z.ltb_lt in Etk.
    rewrite nth_error_app1 by (rewrite repeat_length; subst k'; lia).
    apply nth_error_repeat. subst k'. lia.
  - apply Z.ltb_ge in Etk.
    assert (Hk' : k' = Z.to_nat k) by (subst k'; lia).
    rewrite nth_error_app2 by (rewrite repeat_length; lia).
    rewrite repeat_length, nth_error_firstn, Hk'.
    destruct (t - Z.to_nat k <? length l - Z.to_nat k) eqn:E2; [reflexivity |].
    apply Nat.ltb_ge in E2. lia.
Qed.

End Windows.

(** ** The transform engine *)

Section Engine.

Local Open Scope nat_scope.

Lemma calculate_rs_values (c : RRGCalculator) (stock bench : Series) :
  (1 <= ema_roc_span c)%Z -> index stock = index bench ->
  exists ratio : Series,
    calculate_rs c stock bench = Ok ratio /\
    index ratio = index stock /\
    values ratio = ratio_values (ema_roc_span c) (values stock) (values bench).
Proof.
  intros Hm Hidx.
  assert (Hlen : length (values stock) = length (values bench)).
  { rewrite !length_values, <- !length_index. now rewrite Hidx. }
  assert (Hr : length (index stock) =
               length (ratio_values (ema_roc_span c) (values stock) (values bench))).
  { rewrite length_ratio_values by assumption.
    now rewrite length_index, length_values. }
  eexists. split; [now apply calculate_rs_returns |].
  split; [now apply index_with_values | now apply values_with_values].
Qed.

Lemma calculate_momentum_values (c : RRGCalculator) (rs_ratio : Series) :
  (1 <= ema_roc_span c)%Z ->
  exists momentum : Series,
    calculate_momentum c rs_ratio = Ok momentum /\
    index momentum = index rs_ratio /\
    values momentum =
    momentum_values (ema_roc_span c) (roc_shift c) (values rs_ratio).
Proof.
  intros Hm.
  assert (Hr : length (index rs_ratio) =
               length (momentum_values (ema_roc_span c) (roc_shift c) (values rs_ratio))).
  { now rewrite length_momentum_values, length_index, length_values. }
  eexists. split; [now apply calculate_momentum_returns |].
  split; [now apply index_with_values | now apply values_with_values].
Qed.

Lemma ratio_at_zero_mean (m : Z) (stock bench : list float) (t : nat) :
  nth_error (ema_rs_mean_values m stock bench) t = Some (of_Z 0) ->
  nth_error (ratio_values m stock bench) t = Some NaN.
Proof.
  intros H. unfold ratio_values. rewrite rs_ratio_values_nth, H.
  assert (Ht : t < length (ema_rs_values m stock bench)).
  { unfold ema_rs_mean_values in H. rewrite <- (length_rolling_mean (Z.to_nat m)).
    apply nth_error_Some. congruence. }
  destruct (nth_error (ema_rs_values m stock bench) t) as [e |] eqn:E.
  - change (feqb (of_Z 0) (of_Z 0)) with true. cbv iota. now rewrite fdiv_NaN_r.
  - apply nth_error_None in E. lia.
Qed.

Lemma ratio_at_nonzero_mean (m : Z) (stock bench : list float) (t : nat) (e : float) (q : Qc) :
  nth_error (ema_rs_values m stock bench) t = Some e ->
  nth_error (ema_rs_mean_values m stock bench) t = Some (Fin q) ->
  q <> 0%Qc ->
  nth_error (ratio_values m stock bench) t = Some (fdiv (fmul (of_Z 100) e) (Fin q)).
Proof.
  intros He Hmu Hq. unfold ratio_values. rewrite rs_ratio_values_nth, He, Hmu.
  apply Qc_eqb_neq in Hq. unfold of_Z at 2. unfold feqb.
  change (Q2Qc (inject_Z 0)) with 0%Qc. now rewrite Hq.
Qed.

Lemma roc_at_missing_shift (k : Z) (rs_ratio : list float) (t : nat) (s : float) :
  nth_error (shift k rs_ratio) t = Some s ->
  s = of_Z 0 \/ s = NaN ->
  nth_error (roc_of k rs_ratio) t = Some NaN.
Proof.
  intros H Hs. unfold roc_of. rewrite roc_values_nth, H.
  assert (Ht : t < length rs_ratio).
  { rewrite <- (length_shift k). apply nth_error_Some. congruence. }
  destruct (nth_error rs_ratio t) as [x |] eqn:E.
  - destruct Hs as [-> | ->].
    + change (feqb (of_Z 0) (of_Z 0)) with true. cbv iota. now rewrite fdiv_NaN_r.
    + simpl. now rewrite fdiv_NaN_r.
  - apply nth_error_None in E. lia.
Qed.

(** Where [roc] is missing the momentum repeats the momentum before it. *)
Lemma momentum_at_missing_roc (m k : Z) (rs_ratio : list float) (t : nat) :
  nth_error (roc_of k rs_ratio) t = Some NaN ->
  nth_error (momentum_values m k rs_ratio) t =
  match t with
  | O => Some NaN
  | S t' => nth_error (momentum_values m k rs_ratio) t'
  end.
Proof.
  intros H. unfold momentum_values, rs_momentum_values, ema_roc_values.
  assert (Hp : nth_error (prep_values (roc_of k rs_ratio)) t = Some NaN)
    by now rewrite prep_values_nth, H.
  rewrite !nth_error_map, (ewm_carries_forward _ _ _ Hp).
  destruct t as [| t]; [reflexivity |]. now rewrite nth_error_map.
Qed.

End Engine.

(** ** Zero divisors, in any float arithmetic *)

Section AnyArithmetic.

Local Open Scope nat_scope.

Context {F : Type} {A : Any.Arithmetic F}.

Hypothesis laws : Any.propagates_nan A.













End AnyArithmetic.

(** The two arithmetics propagate NaN. *)
Lemma exact_propagates_nan : Any.propagates_nan exact.
Proof.
  repeat split; try (intros [q | s |]; reflexivity).
Qed.


(** On the exact numbers the calculator of this section is the calculator
    of the sections above. *)
Lemma exact_ewm_loop (alpha : float) (vals : list float) : forall w o n,
  Any.ewm_loop (A := exact) alpha (Any.mk_ewm w o n) vals =
  ewm_loop alpha (mk_ewm w o n) vals.
Proof.
  induction vals as [| cur rest IH]; intros w o n; [reflexivity |].
  cbn [Any.ewm_loop ewm_loop].
  assert (H : exists w' o' n',
             Any.ewm_step (A := exact) alpha (Any.mk_ewm w o n) cur = Any.mk_ewm w' o' n' /\
             ewm_step alpha (mk_ewm w o n) cur = mk_ewm w' o' n').
  { unfold Any.ewm_step, ewm_step, Any.is_nan.
    cbn [Any.weighted Any.old_wt Any.nobs weighted old_wt nobs
         Any.eqb Any.mul Any.add Any.sub Any.div Any.of_int exact].
    fold (is_nan w) (is_nan cur).
    destruct (negb (is_nan w)), (negb (is_nan cur)); eauto. }
  destruct H as (w' & o' & n' & -> & ->).
  rewrite IH. reflexivity.
Qed.

Lemma exact_ewm_mean (span : Z) (vals : list float) :
  Any.ewm_mean (A := exact) span vals = ewm_mean span vals.
Proof.
  unfold Any.ewm_mean, ewm_mean. destruct (span <? 1); [reflexivity |].
  f_equal. change (Any.prep_values (A := exact) vals) with (prep_values vals).
  change (Any.ewm_alpha (A := exact) span) with (ewm_alpha span).
  destruct (prep_values vals) as [| v0 rest]; [reflexivity |].
  cbn [Any.ewm ewm]. unfold Any.ewm_init, ewm_init.
  change (Any.is_nan (A := exact) v0) with (is_nan v0).
  change (Any.of_int (Arithmetic := exact) 1) with (of_Z 1).
  rewrite exact_ewm_loop. reflexivity.
Qed.

Lemma exact_calculate_rs (c : RRGCalculator) (stock bench : Series) :
  Any.calculate_rs (A := exact) rolling_mean c stock bench = calculate_rs c stock bench.
Proof.
  unfold Any.calculate_rs, calculate_rs.
  change (Any.index (F := float) stock) with (index stock).
  change (Any.index (F := float) bench) with (index bench).
  destruct (negb (index_eqb (index stock) (index bench))); [reflexivity |].
  change (Any.rs_values (A := exact) (Any.values stock) (Any.values bench))
    with (rs_values (values stock) (values bench)).
  rewrite exact_ewm_mean.
  destruct (ewm_mean (ema_roc_span c) (rs_values (values stock) (values bench)));
    reflexivity.
Qed.

Lemma exact_calculate_momentum (c : RRGCalculator) (rs_ratio : Series) :
  Any.calculate_momentum (A := exact) c rs_ratio = calculate_momentum c rs_ratio.
Proof.
  unfold Any.calculate_momentum, calculate_momentum.
  change (Any.roc_values (A := exact) (Any.values rs_ratio)
            (Any.shift (A := exact) (roc_shift c) (Any.values rs_ratio)))
    with (roc_values (values rs_ratio) (shift (roc_shift c) (values rs_ratio))).
  rewrite exact_ewm_mean.
  destruct (ewm_mean (ema_roc_span c)
              (roc_values (values rs_ratio) (shift (roc_shift c) (values rs_ratio))));
    reflexivity.
Qed.




(** In doubles the run of the counterexample reads the same: with k = 1
    and m = 2 the ratio series 1, 2, 0, 5 has the lagged ratio 0 at
    position 3, and the momentum there is the number carried over from
    position 2, not a missing value. *)
Example momentum_present_in_doubles :
  match Any.calculate_momentum (A := binary64) (mk_calculator 14 52 14 1 2)
          [(0, Any.of_int 1); (1, Any.of_int 2); (2, Any.of_int 0); (3, Any.of_int 5)]
  with
  | Ok momentum =>
      nth_error (Any.shift 1
                   [Any.of_int 1; Any.of_int 2; Any.of_int 0; Any.of_int 5]) 3
      = Some (Any.of_int 0) /\
      map Any.is_nan (Any.values momentum) = [true; false; false; false] /\
      nth_error (Any.values momentum) 3 = nth_error (Any.values momentum) 2
  | _ => False
  end.
Proof. vm_compute. repeat split. Qed.

(** An infinite value can still come from an overflow, which no zero
    divisor is part of: in doubles a ratio that rises from 2^-1000 to 2^20
    has the rate of change 2^1020, and 100 times that is infinite. *)
Example momentum_overflows_in_doubles :
  Any.calculate_momentum (A := binary64) (mk_calculator 14 52 14 1 2)
    [(0, S754_finite false 4503599627370496 (-1052)); (1, Any.of_int 1048576)]
  = Ok [(0, S754_nan); (1, S754_infinity false)].
Proof. vm_compute. reflexivity. Qed.

(** So can the ratio: with prices of 2^1020 against a benchmark of 1 the
    smoothed ratio is 2^1020, and with a rolling mean of 2^1020 the product
    100 * 2^1020 overflows before the division. *)
Example ratio_overflows_in_doubles (rolling_mean : nat -> list spec_float -> list spec_float) :
  let huge := S754_finite false 4503599627370496 968 in
  rolling_mean 2%nat [huge; huge; huge] = [S754_nan; huge; huge] ->
  Any.calculate_rs (A := binary64) rolling_mean (mk_calculator 14 52 14 1 2)
    [(0, huge); (1, huge); (2, huge)]
    [(0, Any.of_int 1); (1, Any.of_int 1); (2, Any.of_int 1)]
  = Ok [(0, S754_nan); (1, S754_infinity false); (2, S754_infinity false)].
Proof.
  intros huge H. unfold Any.calculate_rs.
  change (negb (index_eqb _ _)) with false. cbv iota.
  assert (E : Any.ewm_mean (A := binary64) (ema_roc_span (mk_calculator 14 52 14 1 2))
                (Any.rs_values
                   (Any.values [(0, huge); (1, huge); (2, huge)])
                   (Any.values (F := spec_float)
                      [(0, Any.of_int 1); (1, Any.of_int 1); (2, Any.of_int 1)]))
              = Some [huge; huge; huge]) by (vm_compute; reflexivity).
  rewrite E. cbv zeta. cbn [ema_roc_span Z.to_nat].
  change (Pos.to_nat 2) with 2%nat. rewrite H. vm_compute. reflexivity.
Qed.

(** A rolling mean that is 0: an instrument priced 0 throughout.  The
    ratio is missing there. *)
Example ratio_missing_at_zero_mean :
  nth_error (ema_rs_mean_values 2 [of_Z 0; of_Z 0] [of_Z 1; of_Z 1]) 1
  = Some (of_Z 0) /\
  nth_error (ratio_values 2 [of_Z 0; of_Z 0] [of_Z 1; of_Z 1]) 1 = Some NaN.
Proof.
  split; [| vm_compute; reflexivity].
  rewrite (nth_error_nth' _ NaN) by (vm_compute; lia).
  f_equal. apply feqb_eq. vm_compute. reflexivity.
Qed.

(** The values of that run: missing, 200, 200/3 and 200/3 again. *)
Example momentum_carried_values :
  map (fun x => (x ==? of_Q (200 # 3))%float)
      (momentum_values 2 1 [of_Z 1; of_Z 2; of_Z 0; of_Z 5])
  = [false; false; true; true] /\
  shift 1 [of_Z 1; of_Z 2; of_Z 0; of_Z 5] = [NaN; of_Z 1; of_Z 2; of_Z 0].
Proof. split; vm_compute; reflexivity. Qed.

(** ** Warm-up and constant runs *)

Section Warmup.

Local Open Scope nat_scope.

(** After missing values only, a run of one number [c] is averaged to [c]. *)
Lemma ewm_state_constant_run (a c : Qc) (l : list float) (p : nat) :
  (forall i, i < p -> nth_error l i = Some NaN) ->
  forall d,
    (forall i, p <= i <= p + d -> nth_error l i = Some (Fin c)) ->
    ewm_state_after (Fin a) l (p + d) = mk_ewm (Fin c) (of_Z 1) (S d).
Proof.
  intros Hnan. induction d as [| d IH]; intros Hrun.
  - rewrite Nat.add_0_r. specialize (Hrun p). rewrite Nat.add_0_r in Hrun.
    specialize (Hrun (conj (le_n p) (le_n p))).
    destruct p as [| p].
    + destruct l as [| v0 rest]; [discriminate |]. simpl in Hrun.
      injection Hrun as ->. rewrite ewm_state_after_0.
      unfold ewm_init. now rewrite is_nan_Fin.
    + rewrite (ewm_state_after_S (Fin a) l p (Fin c) Hrun).
      rewrite ewm_state_all_nan by (intros i Hi; apply Hnan; lia).
      apply step_nan_num.
  - replace (p + S d) with (S (p + d)) by lia.
    rewrite (ewm_state_after_S (Fin a) l (p + d) (Fin c)) by (apply Hrun; lia).
    rewrite IH by (intros i Hi; apply Hrun; lia).
    rewrite of_Z_1, step_num_num, Qc_eqb_refl. reflexivity.
Qed.

Lemma ewm_constant_run (a c : Qc) (l : list float) (p b : nat) :
  b < length l ->
  (forall i, i < p -> nth_error l i = Some NaN) ->
  (forall i, p <= i <= b -> nth_error l i = Some (Fin c)) ->
  forall t, p <= t <= b -> nth_error (ewm (Fin a) l) t = Some (Fin c).
Proof.
  intros Hb Hnan Hrun t Ht.
  rewrite ewm_nth by lia.
  replace t with (p + (t - p)) by lia.
  rewrite (ewm_state_constant_run a c l p Hnan)
    by (intros i Hi; apply Hrun; lia).
  reflexivity.
Qed.

(** The rate of change is missing as long as the ratio [k] positions
    earlier is missing or out of the series. *)
Lemma roc_leading_nan (k : Z) (r : list float) (p : nat) :
  (0 <= k)%Z ->
  (forall i, i < p -> i < length r -> nth_error r i = Some NaN) ->
  forall t, t < length r -> t < p + Z.to_nat k ->
            nth_error (roc_of k r) t = Some NaN.
Proof.
  intros Hk Hnan t Ht Htp.
  apply (roc_at_missing_shift k r t NaN); [| now right].
  rewrite shift_nth by assumption.
  destruct (Z.of_nat t <? k)%Z eqn:E; [reflexivity |].
  apply Z.ltb_ge in E. apply Hnan; lia.
Qed.

Lemma momentum_leading_nan (m k : Z) (r : list float) (p : nat) :
  (0 <= k)%Z ->
  (forall i, i < p -> i < length r -> nth_error r i = Some NaN) ->
  forall t, t < length r -> t < p + Z.to_nat k ->
            nth_error (momentum_values m k r) t = Some NaN.
Proof.
  intros Hk Hnan t Ht Htp.
  unfold momentum_values, rs_momentum_values, ema_roc_values.
  rewrite nth_error_map, ewm_leading_nan; [reflexivity | |].
  - now rewrite length_prep_values, length_roc_of.
  - intros i Hi. rewrite prep_values_nth.
    rewrite (roc_leading_nan k r p Hk Hnan) by lia. reflexivity.
Qed.

(** The first [m - 1] positions of the ratio series are missing. *)
Lemma ratio_leading_nan (m : Z) (stock bench : list float) (t : nat) :
  length stock = length bench ->
  t < length stock -> (Z.of_nat t < m - 1)%Z ->
  nth_error (ratio_values m stock bench) t = Some NaN.
Proof.
  intros Hlen Ht Hm.
  assert (He : length (ema_rs_values m stock bench) = length stock).
  { unfold ema_rs_values, rs_values.
    rewrite length_ewm, length_prep_values, length_map2. lia. }
  unfold ratio_values. rewrite rs_ratio_values_nth.
  unfold ema_rs_mean_values. rewrite rolling_mean_warmup by lia.
  destruct (nth_error (ema_rs_values m stock bench) t) as [e |] eqn:E.
  - simpl. now rewrite fdiv_NaN_r.
  - apply nth_error_None in E. lia.
Qed.

(** Where the ratio and the ratio [k] positions earlier are one number
    other than 0, the rate of change is 0. *)
Lemma roc_of_constant (k : Z) (r : list float) (v : Qc) (t : nat) :
  (0 <= k)%Z -> v <> 0%Qc -> (Z.to_nat k <= t) ->
  nth_error r t = Some (Fin v) ->
  nth_error r (t - Z.to_nat k) = Some (Fin v) ->
  nth_error (roc_of k r) t = Some (Fin 0%Qc).
Proof.
  intros Hk Hv Hkt Ht Hs.
  assert (Hlt : t < length r) by (apply nth_error_Some; congruence).
  unfold roc_of. rewrite roc_values_nth, Ht, shift_nth by assumption.
  destruct (Z.of_nat t <? k)%Z eqn:E; [apply Z.ltb_lt in E; lia |].
  rewrite Hs. unfold of_Z, feqb. change (Q2Qc (inject_Z 0)) with 0%Qc.
  pose proof Hv as Hv'. apply Qc_eqb_neq in Hv'. rewrite Hv'.
  rewrite fsub_Fin, (fdiv_Fin _ _ Hv). apply f_equal, f_equal. field. exact Hv.
Qed.

Lemma momentum_of_constant_run (m k : Z) (r : list float) (v : Qc) (a b : nat) :
  (1 <= m)%Z -> (0 <= k)%Z -> v <> 0%Qc -> b < length r ->
  (forall i, i < a -> nth_error r i = Some NaN) ->
  (forall i, a <= i <= b -> nth_error r i = Some (Fin v)) ->
  forall t, a + Z.to_nat k <= t <= b ->
            nth_error (momentum_values m k r) t = Some (of_Z 100).
Proof.
  intros Hm Hk Hv Hb Hnan Hrun t Ht.
  unfold momentum_values, rs_momentum_values, ema_roc_values.
  rewrite (ewm_alpha_spec m Hm), nth_error_map.
  rewrite (ewm_constant_run (alpha_of m) 0%Qc _ (a + Z.to_nat k) b).
  - cbn [option_map]. unfold of_Z. rewrite fmul_Fin, fadd_Fin.
    apply f_equal, f_equal. ring.
  - now rewrite length_prep_values, length_roc_of.
  - intros i Hi. rewrite prep_values_nth.
    rewrite (roc_leading_nan k r a Hk) by (intros; try apply Hnan; lia).
    reflexivity.
  - intros i Hi. rewrite prep_values_nth.
    rewrite (roc_of_constant k r v i Hk Hv) by (try apply Hrun; lia).
    reflexivity.
  - exact Ht.
Qed.

End Warmup.

(** C8 (as amended).  For a span of at least 1 and a shift k >= 0: if the
    ratio series is one number other than 0 at the positions a..b, the rate
    of change is 0 at the positions a+k..b; if moreover the ratio series is
    missing before position a, the momentum series is missing before a + k
    and exactly 100 at the positions a+k..b. *)
Theorem momentum_100_after_constant_ratio
  (c : RRGCalculator) (rs_ratio : Series) (v : Qc) (a b : nat) :
  1 <= ema_roc_span c -> 0 <= roc_shift c -> v <> 0%Qc ->
  (b < length rs_ratio)%nat ->
  (forall i, (a <= i <= b)%nat -> nth_error (values rs_ratio) i = Some (Fin v)) ->
  exists momentum : Series,
    calculate_momentum c rs_ratio = Ok momentum /\
    (forall t, (a + Z.to_nat (roc_shift c) <= t <= b)%nat ->
               nth_error (roc_of (roc_shift c) (values rs_ratio)) t = Some (of_Z 0)) /\
    ((forall i, (i < a)%nat -> nth_error (values rs_ratio) i = Some NaN) ->
     (forall t, (t < length rs_ratio)%nat -> (t < a + Z.to_nat (roc_shift c))%nat ->
                nth_error (values momentum) t = Some NaN) /\
     (forall t, (a + Z.to_nat (roc_shift c) <= t <= b)%nat ->
                nth_error (values momentum) t = Some (of_Z 100))).
Proof.
  intros Hm Hk Hv Hb Hrun.
  destruct (calculate_momentum_values c rs_ratio Hm) as [momentum [Hmom [_ Hvals]]].
  exists momentum. rewrite Hvals. split; [exact Hmom |].
  rewrite <- (length_values rs_ratio) in *.
  split.
  - intros t Ht. apply (roc_of_constant _ _ v); try assumption;
      try (apply Hrun); lia.
  - intros Hnan. split.
    + intros t Ht Hta.
      apply (momentum_leading_nan _ _ _ a); try assumption.
      intros i Hi _. now apply Hnan.
    + now apply (momentum_of_constant_run _ _ _ v a b).
Qed.

Lemma momentum_100_after_constant_ratio_witness :
  exists momentum : Series,
    calculate_momentum (mk_calculator 14 52 14 1 2)
      (with_values [0; 1; 2; 3] [NaN; of_Z 100; of_Z 100; of_Z 100]) = Ok momentum /\
    (forall t, (1 + 1 <= t <= 3)%nat ->
               nth_error (roc_of 1 [NaN; of_Z 100; of_Z 100; of_Z 100]) t
               = Some (of_Z 0)) /\
    ((forall i, (i < 1)%nat ->
                nth_error [NaN; of_Z 100; of_Z 100; of_Z 100] i = Some NaN) ->
     (forall t, (t < 4)%nat -> (t < 1 + 1)%nat ->
                nth_error (values momentum) t = Some NaN) /\
     (forall t, (1 + 1 <= t <= 3)%nat ->
                nth_error (values momentum) t = Some (of_Z 100))).
Proof.
  apply (momentum_100_after_constant_ratio (mk_calculator 14 52 14 1 2)
           (with_values [0; 1; 2; 3] [NaN; of_Z 100; of_Z 100; of_Z 100])
           (Q2Qc (inject_Z 100)) 1 3).
  - simpl. lia.
  - simpl. lia.
  - apply Qc_of_Z_neq_0. lia.
  - simpl. lia.
  - intros i Hi.
    do 4 (destruct i as [| i]; [first [reflexivity | lia] |]). lia.
Defined.

(** C8 as it is stated fails: with k = 1 and m = 2 the ratio series 1, 2, 2
    is constant over the window of the positions 1 and 2, of length 2 >= k,
    and the momentum at position 2 is 400/3: the average still carries the
    rate of change 1 of position 1. *)
Lemma momentum_not_100_on_constant_window :
  ~ (forall (c : RRGCalculator) (rs_ratio momentum : Series) (v : float) (a b : nat),
        calculate_momentum c rs_ratio = Ok momentum ->
        (a <= b < length rs_ratio)%nat ->
        roc_shift c <= Z.of_nat (b + 1 - a) ->
        (forall i, (a <= i <= b)%nat -> nth_error (values rs_ratio) i = Some v) ->
        forall t, (a <= t <= b)%nat ->
                  nth_error (values momentum) t = Some (of_Z 100)).
Proof.
  intros H.
  specialize (H (mk_calculator 14 52 14 1 2)
                (with_values [0; 1; 2] [of_Z 1; of_Z 2; of_Z 2])
                (with_values [0; 1; 2] (momentum_values 2 1 [of_Z 1; of_Z 2; of_Z 2]))
                (of_Z 2) 1%nat 2%nat eq_refl).
  assert (Hwin : forall i, (1 <= i <= 2)%nat ->
                 nth_error (values (with_values [0; 1; 2] [of_Z 1; of_Z 2; of_Z 2])) i
                 = Some (of_Z 2)).
  { intros i Hi. do 3 (destruct i as [| i]; [first [reflexivity | lia] |]). lia. }
  specialize (H ltac:(simpl; lia) ltac:(simpl; lia) Hwin 2%nat ltac:(lia)).
  vm_compute in H. discriminate H.
Qed.

(** The values of that run: missing, 200 and 400/3. *)
Example momentum_on_constant_window_values :
  map (fun x => ((x ==? of_Z 200)%float, (x ==? of_Q (400 # 3))%float))
      (momentum_values 2 1 [of_Z 1; of_Z 2; of_Z 2])
  = [(false, false); (true, false); (false, true)].
Proof. vm_compute. reflexivity. Qed.

(** C9 (as amended).  For a span of at least 1 and a shift k >= 0 the two
    series keep the index of the input, every date of it, and the warm-up
    positions are present and hold the missing value NaN: the first m - 1
    positions of the ratio series and the first m - 1 + k positions of the
    momentum series. *)
Theorem warmup_positions_hold_nan (c : RRGCalculator) (stock bench : Series) :
  1 <= ema_roc_span c -> 0 <= roc_shift c -> index stock = index bench ->
  exists ratio momentum : Series,
    calculate_rs c stock bench = Ok ratio /\
    calculate_momentum c ratio = Ok momentum /\
    index ratio = index stock /\ index momentum = index stock /\
    (forall t, (t < length stock)%nat -> Z.of_nat t < ema_roc_span c - 1 ->
               nth_error (values ratio) t = Some NaN) /\
    (forall t, (t < length stock)%nat ->
               Z.of_nat t < ema_roc_span c - 1 + roc_shift c ->
               nth_error (values momentum) t = Some NaN).
Proof.
  intros Hm Hk Hidx.
  destruct (calculate_rs_values c stock bench Hm Hidx) as [ratio [Hrs [Hri Hrv]]].
  destruct (calculate_momentum_values c ratio Hm) as [momentum [Hmom [Hmi Hmv]]].
  exists ratio, momentum.
  split; [exact Hrs |]. split; [exact Hmom |].
  split; [exact Hri |]. split; [congruence |].
  assert (Hlen : length (values stock) = length (values bench)).
  { rewrite !length_values, <- !length_index. now rewrite Hidx. }
  assert (Hwarm : forall t, (t < length stock)%nat -> Z.of_nat t < ema_roc_span c - 1 ->
                            nth_error (values ratio) t = Some NaN).
  { intros t Ht Htm. rewrite Hrv. apply ratio_leading_nan; try assumption.
    now rewrite length_values. }
  split; [exact Hwarm |].
  intros t Ht Htm. rewrite Hmv.
  assert (Hrl : length (values ratio) = length stock).
  { rewrite Hrv, length_ratio_values by assumption. apply length_values. }
  apply (momentum_leading_nan _ _ _ (Z.to_nat (ema_roc_span c - 1))); try lia.
  intros i Hi Hil. apply Hwarm; lia.
Qed.

Lemma warmup_positions_hold_nan_witness :
  exists ratio momentum : Series,
    calculate_rs (mk_calculator 14 52 14 1 2)
      (with_values [0; 1; 2] [of_Z 1; of_Z 2; of_Z 3])
      (with_values [0; 1; 2] [of_Z 1; of_Z 1; of_Z 1]) = Ok ratio /\
    calculate_momentum (mk_calculator 14 52 14 1 2) ratio = Ok momentum /\
    index ratio = [0; 1; 2] /\ index momentum = [0; 1; 2] /\
    (forall t, (t < 3)%nat -> Z.of_nat t < 2 - 1 ->
               nth_error (values ratio) t = Some NaN) /\
    (forall t, (t < 3)%nat -> Z.of_nat t < 2 - 1 + 1 ->
               nth_error (values momentum) t = Some NaN).
Proof.
  apply (warmup_positions_hold_nan (mk_calculator 14 52 14 1 2)
           (with_values [0; 1; 2] [of_Z 1; of_Z 2; of_Z 3])
           (with_values [0; 1; 2] [of_Z 1; of_Z 1; of_Z 1])).
  - simpl. lia.
  - simpl. lia.
  - reflexivity.
Defined.

(** C9 as it is stated fails: with m = 2 the ratio series of three dates has
    all three dates in its index, the first one holding NaN; the warm-up
    position is not dropped. *)
Lemma warmup_positions_not_dropped :
  ~ (forall (c : RRGCalculator) (stock bench ratio : Series),
        calculate_rs c stock bench = Ok ratio ->
        index ratio = skipn (Z.to_nat (ema_roc_span c - 1)) (index stock)).
Proof.
  intros H.
  specialize (H (mk_calculator 14 52 14 1 2)
                (with_values [0; 1; 2] [of_Z 1; of_Z 2; of_Z 3])
                (with_values [0; 1; 2] [of_Z 1; of_Z 1; of_Z 1])
                (with_values [0; 1; 2]
                   (ratio_values 2 [of_Z 1; of_Z 2; of_Z 3] [of_Z 1; of_Z 1; of_Z 1]))
                eq_refl).
  vm_compute in H. discriminate H.
Qed.

(** The ratio series of that run keeps the three dates, and its entry at the
    first date is NaN. *)
Example warmup_position_present :
  index (with_values [0; 1; 2]
           (ratio_values 2 [of_Z 1; of_Z 2; of_Z 3] [of_Z 1; of_Z 1; of_Z 1]))
  = [0; 1; 2] /\
  nth_error (ratio_values 2 [of_Z 1; of_Z 2; of_Z 3] [of_Z 1; of_Z 1; of_Z 1]) 0
  = Some NaN.
Proof. split; vm_compute; reflexivity. Qed.

(** ** The history gate *)

(** The engine is called exactly when the number of common dates reaches
    [window + roc_period], two settings of the session that the calculation
    itself no longer uses. *)
Lemma process_item_gate (st : session_state) (item_close benchmark_closes : Series) :
  engine_invoked (process_item st item_close benchmark_closes) =
  negb (Z.of_nat (length (intersection (index (process_series item_close))
                                       (index (process_series benchmark_closes))))
        <? get st "window" 14 + get st "roc_period" 20).
Proof.
  unfold process_item.
  destruct (_ <? _); [reflexivity |].
  destruct (calculate_rs _ _ _) as [rs | |]; try reflexivity.
  destruct (calculate_momentum _ _); reflexivity.
Qed.

(** C4 on the code.  With the default session (m = 14, k = 10) an item with
    30 common dates, more than m + k, is skipped: the gate compares with
    window + roc_period = 14 + 20.  With m = 52 and k = 52 an item with 40
    common dates, not more than m + k, is passed to the engine, which
    returns series of missing values only, and they are stored. *)
Theorem history_gate_ignores_span_and_shift :
  let dates (n : nat) := map Z.of_nat (seq 0 n) in
  let item (n : nat) := with_values (dates n) (repeat (of_Z 10) n) in
  let bench (n : nat) := with_values (dates n) (repeat (of_Z 5) n) in
  let wide : session_state := [("ema_roc_span", 52); ("roc_shift", 52)]%string in
  (ema_roc_span (session_calculator []) + roc_shift (session_calculator []) + 1
   <= Z.of_nat (length (intersection (index (process_series (item 30%nat)))
                                     (index (process_series (bench 30%nat))))) /\
   process_item [] (item 30%nat) (bench 30%nat) = InsufficientHistory) /\
  (Z.of_nat (length (intersection (index (process_series (item 40%nat)))
                                  (index (process_series (bench 40%nat)))))
   <= ema_roc_span (session_calculator wide) + roc_shift (session_calculator wide) /\
   engine_invoked (process_item wide (item 40%nat) (bench 40%nat)) = true /\
   match process_item wide (item 40%nat) (bench 40%nat) with
   | Calculated rs_series momentum_series stored =>
       stored = true /\
       forallb is_nan (values rs_series) = true /\
       forallb is_nan (values momentum_series) = true
   | _ => False
   end).
Proof.
  cbv zeta. split; split.
  - vm_compute. discriminate.
  - vm_compute. reflexivity.
  - vm_compute. discriminate.
  - split; [vm_compute; reflexivity |].
    vm_compute. repeat split.
Qed.

(** * Further properties of the calculator *)

(** ** What a returned series tells about the call *)

Section Inversion.

Lemma index_eqb_eq (i1 i2 : list date) : index_eqb i1 i2 = true -> i1 = i2.
Proof.
  unfold index_eqb. rewrite andb_true_iff, Nat.eqb_eq. intros [Hlen Hall].
  revert i2 Hlen Hall.
  induction i1 as [| d i1 IH]; intros [| d' i2] Hlen Hall; simpl in *;
    try discriminate; [reflexivity |].
  apply andb_true_iff in Hall. destruct Hall as [Hd Hall].
  apply Z.eqb_eq in Hd. subst d'. f_equal. apply IH; [lia | assumption].
Qed.

Lemma calculate_rs_inv (c : RRGCalculator) (stock bench ratio : Series) :
  calculate_rs c stock bench = Ok ratio ->
  index stock = index bench /\ 1 <= ema_roc_span c /\
  ratio = with_values (index stock)
            (ratio_values (ema_roc_span c) (values stock) (values bench)).
Proof.
  unfold calculate_rs, ewm_mean.
  destruct (index_eqb (index stock) (index bench)) eqn:E; simpl; [| discriminate].
  destruct (ema_roc_span c <? 1) eqn:Em; [discriminate |].
  intros H. injection H as <-.
  apply index_eqb_eq in E. apply Z.ltb_ge in Em. repeat split; assumption.
Qed.

Lemma calculate_momentum_inv (c : RRGCalculator) (rs_ratio momentum : Series) :
  calculate_momentum c rs_ratio = Ok momentum ->
  1 <= ema_roc_span c /\
  momentum = with_values (index rs_ratio)
               (momentum_values (ema_roc_span c) (roc_shift c) (values rs_ratio)).
Proof.
  unfold calculate_momentum, ewm_mean.
  destruct (ema_roc_span c <? 1) eqn:Em; [discriminate |].
  intros H. injection H as <-.
  apply Z.ltb_ge in Em. split; [assumption | reflexivity].
Qed.

End Inversion.

(** ** No look-ahead *)

Section Causality.

Local Open Scope nat_scope.

Lemma firstn_map2 {A B C} (f : A -> B -> C) (l1 : list A) (l2 : list B) (n : nat) :
  firstn n (map2 f l1 l2) = map2 f (firstn n l1) (firstn n l2).
Proof. unfold map2. now rewrite firstn_map, combine_firstn. Qed.

Lemma firstn_prep_values (l : list float) (n : nat) :
  firstn n (prep_values l) = prep_values (firstn n l).
Proof. unfold prep_values. apply firstn_map. Qed.

Lemma firstn_ewm_loop (alpha : float) (l : list float) : forall st n,
  firstn n (ewm_loop alpha st l) = ewm_loop alpha st (firstn n l).
Proof.
  induction l as [| x l IH]; intros st [| n]; simpl; try reflexivity.
  now rewrite IH.
Qed.

Lemma firstn_ewm (alpha : float) (l : list float) (n : nat) :
  firstn n (ewm alpha l) = ewm alpha (firstn n l).
Proof.
  destruct l as [| v0 rest], n as [| n]; simpl; try reflexivity.
  now rewrite firstn_ewm_loop.
Qed.

Lemma window_slice_firstn (w t n : nat) (l : list float) :
  t < n -> window_slice w t (firstn n l) = window_slice w t l.
Proof.
  intros Ht. unfold window_slice.
  rewrite skipn_firstn_comm, firstn_firstn. f_equal. lia.
Qed.

Lemma firstn_rolling_mean (w : nat) (l : list float) (n : nat) :
  firstn n (rolling_mean w l) = rolling_mean w (firstn n l).
Proof.
  apply nth_error_ext. intros t. rewrite nth_error_firstn.
  destruct (t <? n) eqn:Etn.
  - apply Nat.ltb_lt in Etn.
    destruct (Nat.lt_ge_cases t (length l)) as [Hlt | Hge].
    + rewrite !rolling_mean_nth by (rewrite ?length_firstn; lia).
      now rewrite <- firstn_prep_values, window_slice_firstn.
    + transitivity (@None float); [| symmetry];
        apply nth_error_None;
        rewrite length_rolling_mean, ?length_firstn; lia.
  - apply Nat.ltb_ge in Etn. symmetry. apply nth_error_None.
    rewrite length_rolling_mean, length_firstn. lia.
Qed.

Lemma firstn_replace (a b : float) (l : list float) (n : nat) :
  firstn n (replace a b l) = replace a b (firstn n l).
Proof. unfold replace. apply firstn_map. Qed.

(** A shift to later positions reads earlier values only. *)
Lemma firstn_shift (k : Z) (l : list float) (n : nat) :
  (0 <= k)%Z -> firstn n (shift k l) = shift k (firstn n l).
Proof.
  intros Hk. apply nth_error_ext. intros t. rewrite nth_error_firstn.
  destruct (t <? n) eqn:Etn.
  - apply Nat.ltb_lt in Etn.
    destruct (Nat.lt_ge_cases t (length l)) as [Hlt | Hge].
    + rewrite !shift_nth by (rewrite ?length_firstn; lia).
      destruct (Z.of_nat t <? k)%Z; [reflexivity |].
      rewrite nth_error_firstn.
      destruct (t - Z.to_nat k <? n) eqn:E; [reflexivity |].
      apply Nat.ltb_ge in E. lia.
    + transitivity (@None float); [| symmetry];
        apply nth_error_None; rewrite length_shift, ?length_firstn; lia.
  - apply Nat.ltb_ge in Etn. symmetry. apply nth_error_None.
    rewrite length_shift, length_firstn. lia.
Qed.

Lemma firstn_ratio_values (m : Z) (stock bench : list float) (n : nat) :
  firstn n (ratio_values m stock bench) =
  ratio_values m (firstn n stock) (firstn n bench).
Proof.
  unfold ratio_values, rs_ratio_values, ema_rs_mean_values, ema_rs_values, rs_values.
  now rewrite firstn_map2, firstn_map, firstn_replace, firstn_rolling_mean,
    firstn_ewm, firstn_prep_values, firstn_map2.
Qed.

Lemma firstn_momentum_values (m k : Z) (r : list float) (n : nat) :
  (0 <= k)%Z ->
  firstn n (momentum_values m k r) = momentum_values m k (firstn n r).
Proof.
  intros Hk.
  unfold momentum_values, rs_momentum_values, ema_roc_values, roc_of, roc_values.
  now rewrite firstn_map, firstn_ewm, firstn_prep_values, !firstn_map2,
    firstn_replace, firstn_shift.
Qed.

Lemma firstn_with_values (idx : list date) (vals : list float) (n : nat) :
  firstn n (with_values idx vals) = with_values (firstn n idx) (firstn n vals).
Proof. unfold with_values. apply combine_firstn. Qed.

Lemma index_firstn (s : Series) (n : nat) : index (firstn n s) = firstn n (index s).
Proof. unfold index. symmetry. apply firstn_map. Qed.

Lemma values_firstn (s : Series) (n : nat) : values (firstn n s) = firstn n (values s).
Proof. unfold values. symmetry. apply firstn_map. Qed.

End Causality.

(** X1. The engine never looks ahead: what [calculate_rs] and, for a shift
    k >= 0, [calculate_momentum] return for the first n rows of their input
    is the first n rows of what they return for the whole input. *)
Theorem engine_never_looks_ahead
  (c : RRGCalculator) (stock bench ratio momentum : Series) (n : nat) :
  0 <= roc_shift c ->
  calculate_rs c stock bench = Ok ratio ->
  calculate_momentum c ratio = Ok momentum ->
  calculate_rs c (firstn n stock) (firstn n bench) = Ok (firstn n ratio) /\
  calculate_momentum c (firstn n ratio) = Ok (firstn n momentum).
Proof.
  intros Hk Hrs Hmom.
  destruct (calculate_rs_inv _ _ _ _ Hrs) as [Hidx [Hm ->]].
  destruct (calculate_momentum_inv _ _ _ Hmom) as [_ ->].
  split.
  - rewrite calculate_rs_returns by (rewrite ?index_firstn; congruence).
    now rewrite firstn_with_values, firstn_ratio_values, index_firstn, !values_firstn.
  - generalize (with_values (index stock)
                  (ratio_values (ema_roc_span c) (values stock) (values bench))).
    intros r. rewrite calculate_momentum_returns by assumption.
    now rewrite firstn_with_values, firstn_momentum_values,
      index_firstn, values_firstn by assumption.
Qed.

Lemma engine_never_looks_ahead_witness :
  calculate_rs (mk_calculator 14 52 14 1 2)
    (firstn 2 (with_values [0; 1; 2] [of_Z 1; of_Z 2; of_Z 3]))
    (firstn 2 (with_values [0; 1; 2] [of_Z 1; of_Z 1; of_Z 1]))
  = Ok (firstn 2 (with_values [0; 1; 2]
                    (ratio_values 2 [of_Z 1; of_Z 2; of_Z 3]
                                    [of_Z 1; of_Z 1; of_Z 1]))) /\
  calculate_momentum (mk_calculator 14 52 14 1 2)
    (firstn 2 (with_values [0; 1; 2]
                 (ratio_values 2 [of_Z 1; of_Z 2; of_Z 3]
                                 [of_Z 1; of_Z 1; of_Z 1])))
  = Ok (firstn 2 (with_values [0; 1; 2]
                    (momentum_values 2 1
                       (ratio_values 2 [of_Z 1; of_Z 2; of_Z 3]
                                       [of_Z 1; of_Z 1; of_Z 1])))).
Proof.
  apply (engine_never_looks_ahead (mk_calculator 14 52 14 1 2)
           (with_values [0; 1; 2] [of_Z 1; of_Z 2; of_Z 3])
           (with_values [0; 1; 2] [of_Z 1; of_Z 1; of_Z 1])).
  - simpl. lia.
  - vm_compute. reflexivity.
  - vm_compute. reflexivity.
Defined.

(** ** An instrument against its own prices *)

Section OwnBenchmark.

Local Open Scope nat_scope.

Lemma firstn_repeat_min {A} (x : A) (j n : nat) :
  firstn j (repeat x n) = repeat x (Nat.min j n).
Proof.
  revert n. induction j as [| j IH]; intros [| n]; simpl; try reflexivity.
  now rewrite IH.
Qed.

Lemma skipn_repeat_sub {A} (x : A) (s n : nat) :
  skipn s (repeat x n) = repeat x (n - s).
Proof.
  revert n. induction s as [| s IH]; intros [| n]; simpl; try reflexivity.
  apply IH.
Qed.

Lemma all_equal_repeat {A} (l : list A) (x : A) :
  (forall t, t < length l -> nth_error l t = Some x) -> l = repeat x (length l).
Proof.
  intros H. apply nth_error_ext. intros t.
  destruct (Nat.lt_ge_cases t (length l)) as [Hlt | Hge].
  - rewrite H by assumption. symmetry. now apply nth_error_repeat.
  - transitivity (@None A); [| symmetry]; apply nth_error_None;
      rewrite ?repeat_length; lia.
Qed.

Lemma sum_repeat (q : Qc) (j : nat) : forall acc : Qc,
  fold_left fadd (repeat (Fin q) j) (Fin acc) =
  Fin (acc + Q2Qc (inject_Z (Z.of_nat j)) * q)%Qc.
Proof.
  induction j as [| j IH]; intros acc.
  - simpl. f_equal. change (Q2Qc (inject_Z 0)) with 0%Qc. ring.
  - cbn [repeat fold_left]. rewrite fadd_Fin, IH. f_equal.
    replace (Z.of_nat (S j)) with (Z.of_nat j + 1)%Z by lia.
    rewrite Qc_of_Z_plus. change (Q2Qc (inject_Z 1)) with 1%Qc. ring.
Qed.

(** The mean of a full window of one number is that number. *)
Lemma calc_mean_repeat (q : Qc) (w : nat) :
  0 < w -> calc_mean w (repeat (Fin q) w) = Fin q.
Proof.
  intros Hw. unfold calc_mean.
  assert (Hf : filter (fun x => negb (is_nan x)) (repeat (Fin q) w) = repeat (Fin q) w).
  { apply forallb_filter_id. apply forallb_forall. intros x Hx.
    apply repeat_spec in Hx. subst. now rewrite is_nan_Fin. }
  rewrite Hf, repeat_length, Nat.leb_refl.
  apply Nat.ltb_lt in Hw. rewrite Hw. cbn [andb].
  unfold sum_floats. rewrite of_Z_0, sum_repeat.
  assert (Hn : Q2Qc (inject_Z (Z.of_nat w)) <> 0%Qc).
  { apply Qc_of_Z_neq_0. apply Nat.ltb_lt in Hw. lia. }
  unfold of_Z. rewrite (fdiv_Fin _ _ Hn). f_equal. field. exact Hn.
Qed.

Lemma prep_values_repeat (q : Qc) (n : nat) :
  prep_values (repeat (Fin q) n) = repeat (Fin q) n.
Proof. unfold prep_values. now rewrite map_repeat. Qed.

Lemma rolling_mean_repeat (q : Qc) (w n t : nat) :
  0 < w -> t < n -> w <= S t ->
  nth_error (rolling_mean w (repeat (Fin q) n)) t = Some (Fin q).
Proof.
  intros Hw Ht Hwt.
  rewrite rolling_mean_nth by now rewrite repeat_length.
  rewrite prep_values_repeat.
  unfold window_slice. rewrite skipn_repeat_sub, firstn_repeat_min.
  replace (Nat.min (S t - (S t - w)) (n - (S t - w))) with w by lia.
  now rewrite calc_mean_repeat.
Qed.

(** The average of a constant series is the constant. *)
Lemma ewm_repeat (a q : Qc) (n : nat) :
  ewm (Fin a) (repeat (Fin q) n) = repeat (Fin q) n.
Proof.
  rewrite <- (repeat_length (Fin q) n) at 2.
  rewrite <- (length_ewm (Fin a)).
  apply all_equal_repeat. intros t Ht. rewrite length_ewm, repeat_length in Ht.
  apply (ewm_constant_run a q (repeat (Fin q) n) 0 (n - 1)).
  - rewrite repeat_length. lia.
  - intros i Hi. lia.
  - intros i Hi. apply nth_error_repeat. lia.
  - lia.
Qed.

(** A price divided by itself is 1. *)
Lemma rs_values_own (bench : list float) :
  Forall (fun x => exists b : Qc, x = Fin b /\ b <> 0%Qc) bench ->
  rs_values bench bench = repeat (Fin 1) (length bench).
Proof.
  intros Hall. unfold rs_values.
  induction Hall as [| x bench [b [-> Hb]] _ IH]; [reflexivity |].
  cbn [length repeat]. unfold map2 in *. cbn [combine map fst snd].
  rewrite IH, (fdiv_Fin _ _ Hb). do 2 f_equal. now field.
Qed.

Lemma ratio_values_own (m : Z) (bench : list float) (t : nat) :
  (1 <= m)%Z ->
  Forall (fun x => exists b : Qc, x = Fin b /\ b <> 0%Qc) bench ->
  t < length bench -> (m - 1 <= Z.of_nat t)%Z ->
  nth_error (ratio_values m bench bench) t = Some (of_Z 100).
Proof.
  intros Hm Hall Ht Hmt.
  unfold ratio_values, ema_rs_mean_values, ema_rs_values.
  rewrite (rs_values_own bench Hall), (ewm_alpha_spec m Hm).
  rewrite prep_values_repeat, ewm_repeat.
  rewrite rs_ratio_values_nth, nth_error_repeat by assumption.
  rewrite rolling_mean_repeat by lia.
  unfold of_Z at 2. unfold feqb. change (Q2Qc (inject_Z 0)) with 0%Qc.
  assert (Hq : 1%Qc <> 0%Qc) by (intros H; discriminate H).
  pose proof Hq as Hq'. apply Qc_eqb_neq in Hq'. rewrite Hq'.
  unfold of_Z. rewrite fmul_Fin, (fdiv_Fin _ _ Hq). do 2 f_equal; now field.
Qed.

End OwnBenchmark.

(** X4. An instrument charted against its own prices stays at the centre:
    for prices that are numbers other than 0, a span m >= 1 and a shift
    k >= 0, [calculate_rs] of the series against itself is missing at the
    first m - 1 positions and exactly 100 from then on, and the momentum of
    that ratio series is missing at the first m - 1 + k positions and
    exactly 100 from then on. *)
Theorem own_benchmark_is_centred (c : RRGCalculator) (bench : Series) :
  1 <= ema_roc_span c -> 0 <= roc_shift c ->
  Forall (fun x => exists b : Qc, x = Fin b /\ b <> 0%Qc) (values bench) ->
  exists ratio momentum : Series,
    calculate_rs c bench bench = Ok ratio /\
    calculate_momentum c ratio = Ok momentum /\
    (forall t, (t < length bench)%nat ->
       nth_error (values ratio) t =
       Some (if Z.of_nat t <? ema_roc_span c - 1 then NaN else of_Z 100)) /\
    (forall t, (t < length bench)%nat ->
       nth_error (values momentum) t =
       Some (if Z.of_nat t <? ema_roc_span c - 1 + roc_shift c
             then NaN else of_Z 100)).
Proof.
  intros Hm Hk Hall.
  destruct (calculate_rs_values c bench bench Hm eq_refl) as [ratio [Hrs [_ Hrv]]].
  destruct (calculate_momentum_values c ratio Hm) as [momentum [Hmom [_ Hmv]]].
  exists ratio, momentum.
  split; [exact Hrs |]. split; [exact Hmom |].
  assert (Hrl : length (values ratio) = length bench).
  { rewrite Hrv, length_ratio_values by reflexivity.
    apply length_values. }
  assert (Hratio : forall t, (t < length bench)%nat ->
            nth_error (values ratio) t =
            Some (if Z.of_nat t <? ema_roc_span c - 1 then NaN else of_Z 100)).
  { intros t Ht. rewrite Hrv.
    destruct (Z.of_nat t <? ema_roc_span c - 1) eqn:E.
    - apply Z.ltb_lt in E.
      apply ratio_leading_nan; [reflexivity | now rewrite length_values | exact E].
    - apply Z.ltb_ge in E. apply ratio_values_own; try assumption.
      now rewrite length_values. }
  split; [exact Hratio |].
  intros t Ht. rewrite Hmv.
  assert (H100 : Q2Qc (inject_Z 100) <> 0%Qc) by (apply Qc_of_Z_neq_0; lia).
  destruct (Z.of_nat t <? ema_roc_span c - 1 + roc_shift c) eqn:E.
  - apply Z.ltb_lt in E.
    apply (momentum_leading_nan _ _ _ (Z.to_nat (ema_roc_span c - 1))); try lia.
    intros i Hi Hil. rewrite Hratio by lia.
    destruct (Z.of_nat i <? ema_roc_span c - 1) eqn:Ei; [reflexivity |].
    apply Z.ltb_ge in Ei. lia.
  - apply Z.ltb_ge in E.
    apply (momentum_of_constant_run _ _ _ (Q2Qc (inject_Z 100))
             (Z.to_nat (ema_roc_span c - 1)) (length bench - 1));
      try assumption; try lia.
    + intros i Hi. rewrite Hratio by lia.
      destruct (Z.of_nat i <? ema_roc_span c - 1) eqn:Ei; [reflexivity |].
      apply Z.ltb_ge in Ei. lia.
    + intros i Hi. rewrite Hratio by lia.
      destruct (Z.of_nat i <? ema_roc_span c - 1) eqn:Ei; [| reflexivity].
      apply Z.ltb_lt in Ei. lia.
Qed.

Lemma own_benchmark_is_centred_witness :
  exists ratio momentum : Series,
    calculate_rs (mk_calculator 14 52 14 1 2)
      (with_values [0; 1; 2; 3] [of_Z 5; of_Z 6; of_Z 4; of_Z 5])
      (with_values [0; 1; 2; 3] [of_Z 5; of_Z 6; of_Z 4; of_Z 5]) = Ok ratio /\
    calculate_momentum (mk_calculator 14 52 14 1 2) ratio = Ok momentum /\
    (forall t, (t < 4)%nat ->
       nth_error (values ratio) t =
       Some (if Z.of_nat t <? 2 - 1 then NaN else of_Z 100)) /\
    (forall t, (t < 4)%nat ->
       nth_error (values momentum) t =
       Some (if Z.of_nat t <? 2 - 1 + 1 then NaN else of_Z 100)).
Proof.
  apply (own_benchmark_is_centred (mk_calculator 14 52 14 1 2)
           (with_values [0; 1; 2; 3] [of_Z 5; of_Z 6; of_Z 4; of_Z 5])).
  - simpl. lia.
  - simpl. lia.
  - simpl. repeat constructor;
      (eexists; split; [reflexivity | apply Qc_of_Z_neq_0; lia]).
Defined.

(** The same run on doubles, with prices that are no dyadic numbers (1/3,
    98.19 and 1/10, each rounded to the nearest double): every step is
    exact, whatever the prices, and the series are the same. *)
Example own_benchmark_in_doubles
  (rolling_mean : nat -> list spec_float -> list spec_float) :
  let one : spec_float := Any.of_int 1 in
  let prices :=
    [(0, Any.div (Any.of_int 1) (Any.of_int 3));
     (1, Any.div (Any.of_int 9819) (Any.of_int 100));
     (2, Any.div (Any.of_int 1) (Any.of_int 10));
     (3, Any.div (Any.of_int 1) (Any.of_int 3))] in
  rolling_mean 2%nat [one; one; one; one] = [S754_nan; one; one; one] ->
  Any.calculate_rs (A := binary64) rolling_mean (mk_calculator 14 52 14 1 2)
    prices prices
  = Ok [(0, S754_nan); (1, Any.of_int 100); (2, Any.of_int 100); (3, Any.of_int 100)] /\
  Any.calculate_momentum (A := binary64) (mk_calculator 14 52 14 1 2)
    [(0, S754_nan); (1, Any.of_int 100); (2, Any.of_int 100); (3, Any.of_int 100)]
  = Ok [(0, S754_nan); (1, S754_nan); (2, Any.of_int 100); (3, Any.of_int 100)].
Proof.
  intros one prices H. split; [| vm_compute; reflexivity].
  unfold Any.calculate_rs.
  change (negb (index_eqb _ _)) with false. cbv iota.
  assert (E : Any.ewm_mean (A := binary64) (ema_roc_span (mk_calculator 14 52 14 1 2))
                (Any.rs_values (Any.values prices) (Any.values prices))
              = Some [one; one; one; one]) by (vm_compute; reflexivity).
  rewrite E. cbv zeta. cbn [ema_roc_span Z.to_nat].
  change (Pos.to_nat 2) with 2%nat. rewrite H. vm_compute. reflexivity.
Qed.

(** * Further properties of the normalizer and of the item loop *)

Section Rows.

Lemma insert_row_permutation (row : date * float) (ser : Series) :
  Permutation (row :: ser) (insert_row row ser).
Proof.
  induction ser as [| row' ser IH]; simpl; [reflexivity |].
  destruct (fst row <=? fst row'); [reflexivity |].
  rewrite perm_swap. now apply perm_skip.
Qed.

Lemma sort_index_permutation (ser : Series) : Permutation ser (sort_index ser).
Proof.
  induction ser as [| row ser IH]; simpl; [reflexivity |].
  rewrite <- insert_row_permutation. now apply perm_skip.
Qed.

Lemma keep_first_length (ser : Series) : forall seen,
  (length (keep_first seen ser) <= length ser)%nat.
Proof.
  induction ser as [| [d v] ser IH]; intros seen; [simpl; lia |].
  rewrite keep_first_cons. specialize (IH (d :: seen)).
  destruct (existsb (Z.eqb d) seen); simpl; lia.
Qed.

Lemma process_series_index_In (ser : Series) (d : date) :
  In d (index (process_series ser)) <-> In d (index ser).
Proof.
  rewrite process_series_unfold.
  destruct (negb (is_monotonic_increasing (index (keep_first [] ser)))).
  - rewrite sort_index_index, keep_first_index. simpl. tauto.
  - rewrite keep_first_index. simpl. tauto.
Qed.

End Rows.

(** X5. The normalizer never invents or duplicates a row: its output is no
    longer than its input, and a series without repeated dates is only
    reordered, every row kept with its value. *)
Theorem process_series_only_reorders (ser : Series) :
  (length (process_series ser) <= length ser)%nat /\
  (NoDup (index ser) -> Permutation ser (process_series ser)).
Proof.
  split.
  - rewrite process_series_unfold.
    pose proof (keep_first_length ser []) as H.
    destruct (negb (is_monotonic_increasing (index (keep_first [] ser))));
      [| exact H].
    now rewrite <- (Permutation_length (sort_index_permutation _)).
  - intros Hnd. rewrite process_series_unfold.
    assert (Hk : keep_first [] ser = ser).
    { apply keep_first_unchanged. apply NoDup_no_duplicates; [assumption | tauto]. }
    rewrite Hk.
    destruct (negb (is_monotonic_increasing (index ser))); [| reflexivity].
    apply sort_index_permutation.
Qed.

Lemma process_series_only_reorders_witness :
  NoDup (index (with_values [5; 1; 2] [of_Z 10; of_Z 11; of_Z 12])) /\
  Permutation (with_values [5; 1; 2] [of_Z 10; of_Z 11; of_Z 12])
              (process_series (with_values [5; 1; 2] [of_Z 10; of_Z 11; of_Z 12])).
Proof.
  assert (H : NoDup (index (with_values [5; 1; 2] [of_Z 10; of_Z 11; of_Z 12]))).
  { simpl. repeat constructor; simpl; lia. }
  split; [exact H |].
  exact (proj2 (process_series_only_reorders _) H).
Defined.

Section Alignment.

Lemma intersection_In (i1 i2 : list date) (d : date) :
  In d (intersection i1 i2) <-> In d i1 /\ In d i2.
Proof.
  unfold intersection. rewrite filter_In, existsb_eqb_In. reflexivity.
Qed.

Lemma filter_sorted (f : date -> bool) (l : list date) :
  StronglySorted Z.lt l -> StronglySorted Z.lt (filter f l).
Proof.
  induction 1 as [| d l Hs IH Hall]; simpl; [constructor |].
  destruct (f d); [| assumption].
  constructor; [assumption |].
  apply Forall_forall. intros x Hx. apply filter_In in Hx.
  rewrite Forall_forall in Hall. now apply Hall.
Qed.

(** In a series without repeated labels a label selects one row. *)
Lemma loc_one_row (ser : Series) (d : date) :
  NoDup (index ser) -> In d (index ser) ->
  exists v, filter (fun row => fst row =? d) ser = [(d, v)].
Proof.
  induction ser as [| [d0 v0] ser IH]; intros Hnd Hin; [contradiction |].
  simpl in Hnd, Hin. inversion Hnd as [| ? ? Hnotin Hnd']; subst.
  cbn [filter fst].
  destruct (d0 =? d) eqn:E.
  - apply Z.eqb_eq in E. subst d0. exists v0. f_equal.
    assert (Hnone : forall row, In row ser -> (fst row =? d) = false).
    { intros row Hrow. apply Z.eqb_neq. intros Heq. apply Hnotin.
      rewrite <- Heq. now apply (in_map fst). }
    clear -Hnone. unfold date in *.
    induction ser as [| row ser IH]; [reflexivity |].
    simpl. rewrite (Hnone row (or_introl eq_refl)).
    apply IH. intros r Hr. apply Hnone. now right.
  - apply Z.eqb_neq in E. apply IH; [assumption |].
    destruct Hin as [Hin | Hin]; [contradiction | assumption].
Qed.

Lemma loc_index (ser : Series) (labels : list date) :
  NoDup (index ser) -> (forall d, In d labels -> In d (index ser)) ->
  index (loc ser labels) = labels.
Proof.
  intros Hnd. induction labels as [| d labels IH]; intros Hin; [reflexivity |].
  unfold loc in *. cbn [flat_map].
  destruct (loc_one_row ser d Hnd (Hin d (or_introl eq_refl))) as [v Hv].
  rewrite Hv. unfold index in *. cbn [app map fst]. f_equal.
  apply IH. intros d' Hd'. apply Hin. now right.
Qed.

End Alignment.

(** X6. The item loop hands the engine aligned series only.  The common
    dates are exactly the dates the item and the benchmark both have, in
    strictly increasing order; an item is skipped for its history exactly
    by the length test, the calculation fails exactly when the span is
    below 1, and otherwise both returned series are indexed by the common
    dates, and are stored unless there is no common date. *)
Theorem process_item_aligns
  (st : session_state) (item_close benchmark_closes : Series) :
  let common := intersection (index (process_series item_close))
                             (index (process_series benchmark_closes)) in
  StronglySorted Z.lt common /\
  (forall d, In d common <->
             In d (index item_close) /\ In d (index benchmark_closes)) /\
  match process_item st item_close benchmark_closes with
  | InsufficientHistory =>
      Z.of_nat (length common) < get st "window" 14 + get st "roc_period" 20
  | CalculationFailed =>
      get st "window" 14 + get st "roc_period" 20 <= Z.of_nat (length common) /\
      get st "ema_roc_span" 14 < 1
  | Calculated rs_series momentum_series stored =>
      get st "window" 14 + get st "roc_period" 20 <= Z.of_nat (length common) /\
      1 <= get st "ema_roc_span" 14 /\
      index rs_series = common /\ index momentum_series = common /\
      stored = negb (length common =? 0)%nat
  end.
Proof.
  intros common.
  pose proof (process_series_normalized item_close) as Hsi.
  pose proof (process_series_normalized benchmark_closes) as Hsb.
  unfold normalized in Hsi, Hsb.
  assert (Hsorted : StronglySorted Z.lt common) by now apply filter_sorted.
  split; [exact Hsorted |]. split.
  { intros d. subst common. rewrite intersection_In, !process_series_index_In.
    reflexivity. }
  assert (Hia : index (loc (process_series item_close) common) = common).
  { apply loc_index; [now apply StronglySorted_lt_NoDup |].
    intros d Hd. now apply intersection_In in Hd. }
  assert (Hib : index (loc (process_series benchmark_closes) common) = common).
  { apply loc_index; [now apply StronglySorted_lt_NoDup |].
    intros d Hd. now apply intersection_In in Hd. }
  unfold process_item. fold common.
  destruct (Z.of_nat (length common) <? _) eqn:Egate.
  { now apply Z.ltb_lt in Egate. }
  apply Z.ltb_ge in Egate.
  destruct (Z_lt_le_dec (ema_roc_span (session_calculator st)) 1) as [Hlt | Hge].
  - unfold calculate_rs, ewm_mean. rewrite Hia, Hib, index_eqb_refl. simpl negb.
    cbv iota. apply Z.ltb_lt in Hlt. rewrite Hlt. apply Z.ltb_lt in Hlt.
    split; assumption.
  - destruct (calculate_rs_values (session_calculator st) _ _ Hge
                (eq_trans Hia (eq_sym Hib))) as [rs [Hrs [Hri _]]].
    destruct (calculate_momentum_values (session_calculator st) rs Hge)
      as [mom [Hmom [Hmi _]]].
    rewrite Hrs, Hmom.
    assert (Hr : index rs = common) by congruence.
    assert (Hm : index mom = common) by congruence.
    repeat split; try assumption.
    rewrite <- (length_index rs), <- (length_index mom), Hr, Hm.
    now destruct (length common).
Qed.

(** * Tokens *)

Section Tokens.

Context {py : PyStr}.

Lemma dict_get_set (d : dict) (key value key' : string) :
  dict_get (dict_set d key value) key' =
  if String.eqb key key' then Some value else dict_get d key'.
Proof.
  induction d as [| [k v] d IH]; simpl.
  - reflexivity.
  - destruct (String.eqb k key) eqn:Ek; simpl.
    + apply String.eqb_eq in Ek. subst k.
      now destruct (String.eqb key key').
    + destruct (String.eqb k key') eqn:Ek'; [| exact IH].
      apply String.eqb_eq in Ek'. subst k. now rewrite String.eqb_sym, Ek.
Qed.

Lemma first_token_found (test : scrip_item -> bool) (scrip_data : list scrip_item)
  (token : string) :
  first_token test scrip_data = Some token ->
  exists item, In item scrip_data /\ test item = true /\ item_token item = token.
Proof.
  unfold first_token. destruct (find test scrip_data) as [item |] eqn:E;
    [| discriminate].
  intros H. injection H as <-. apply find_some in E. exists item. tauto.
Qed.

(** The symbol [generate_chart] asks for is one of the eight of
    [BENCHMARKS]. *)
Lemma benchmark_symbol_known (benchmark_name : option string) :
  In (benchmark_symbol benchmark_name) (map snd BENCHMARKS).
Proof.
  unfold benchmark_symbol.
  generalize (match benchmark_name with Some n => n | None => "NIFTY 50"%string end).
  intros name. unfold BENCHMARKS. cbn [dict_get map snd].
  repeat match goal with
         | |- context [String.eqb ?k name] => destruct (String.eqb k name)
         end; cbn [In]; tauto.
Qed.

Lemma benchmark_symbols_have_tokens (symbol : string) :
  In symbol (map snd BENCHMARKS) ->
  exists token, dict_get BENCHMARK_TOKENS symbol = Some token /\ truthy token = true.
Proof.
  cbn [BENCHMARKS map snd In].
  intros H. repeat (destruct H as [<- | H]; [eexists; split; reflexivity |]).
  contradiction.
Qed.

End Tokens.

(** X7. The token cache of [get_token]: a call never changes an entry the
    cache already has; a token that is found (not None, not empty) is in
    the cache afterwards and every later call for the symbol returns it
    from there, whatever the scrip master does; a lookup that fails leaves
    the cache as it was; and a cache that holds no empty token never gets
    one. *)
Theorem get_token_caches_found_tokens
  {py : PyStr} (symbol : string) (fetched : option (list scrip_item)) (token_cache : dict) :
  let token := fst (get_token symbol fetched token_cache) in
  let cache' := snd (get_token symbol fetched token_cache) in
  (forall k v, dict_get token_cache k = Some v -> dict_get cache' k = Some v) /\
  (token_missing token = false ->
   dict_get cache' symbol = token /\
   forall fetched', get_token symbol fetched' cache' = (token, cache')) /\
  (token_missing token = true -> cache' = token_cache) /\
  ((forall k v, dict_get token_cache k = Some v -> truthy v = true) ->
   forall k v, dict_get cache' k = Some v -> truthy v = true).
Proof.
  cbv zeta. unfold get_token.
  destruct (dict_get token_cache symbol) as [t |] eqn:Ec.
  - cbn [fst snd].
    split; [tauto |]. split; [| split; [reflexivity | tauto]].
    intros _. split; [exact Ec |].
    intros fetched'. unfold get_token. now rewrite Ec.
  - destruct (get_token_from_symbol symbol "NSE" fetched) as [t |] eqn:Et;
      [destruct (truthy t) eqn:Etr |]; cbn [fst snd token_missing].
    + split; [| split; [| split]].
      * intros k v Hk. rewrite dict_get_set.
        destruct (String.eqb symbol k) eqn:Ek; [| exact Hk].
        apply String.eqb_eq in Ek. subst. congruence.
      * intros _. split; [now rewrite dict_get_set, String.eqb_refl |].
        intros fetched'. unfold get_token.
        now rewrite dict_get_set, String.eqb_refl.
      * rewrite Etr. discriminate.
      * intros Hinv k v. rewrite dict_get_set.
        destruct (String.eqb symbol k); [| apply Hinv].
        intros H. injection H as <-. exact Etr.
    + rewrite Etr.
      split; [tauto |]. split; [discriminate |]. split; [reflexivity | tauto].
    + split; [tauto |]. split; [discriminate |]. split; [reflexivity | tauto].
Qed.

Lemma get_token_caches_found_tokens_witness :
  token_missing (fst (@get_token ascii_str "Nifty Bank" None [])) = false /\
  dict_get (snd (@get_token ascii_str "Nifty Bank" None [])) "Nifty Bank"
  = fst (@get_token ascii_str "Nifty Bank" None []).
Proof.
  assert (H : token_missing (fst (@get_token ascii_str "Nifty Bank" None [])) = false)
    by reflexivity.
  split; [exact H |].
  exact (proj1 (proj1 (proj2 (@get_token_caches_found_tokens ascii_str
                                "Nifty Bank" None [])) H)).
Defined.

(** X8. The benchmark lookup of [generate_chart] cannot fail: whatever
    benchmark name the session holds, whether or not the scrip master could
    be downloaded, and for every token cache without empty tokens,
    [get_token] of the benchmark symbol returns a token; with no cache entry
    it is the token hard-coded in [BENCHMARK_TOKENS]. *)
Theorem benchmark_token_always_found
  {py : PyStr} (benchmark_name : option string)
  (fetched : option (list scrip_item)) (token_cache : dict) :
  (forall k v, dict_get token_cache k = Some v -> truthy v = true) ->
  token_missing (fst (get_token (benchmark_symbol benchmark_name) fetched token_cache))
  = false /\
  (dict_get token_cache (benchmark_symbol benchmark_name) = None ->
   fst (get_token (benchmark_symbol benchmark_name) fetched token_cache)
   = dict_get BENCHMARK_TOKENS (benchmark_symbol benchmark_name)).
Proof.
  intros Hinv.
  destruct (benchmark_symbols_have_tokens _ (benchmark_symbol_known benchmark_name))
    as [token [Htok Htruthy]].
  unfold get_token.
  destruct (dict_get token_cache (benchmark_symbol benchmark_name)) as [t |] eqn:Ec.
  - cbn [fst token_missing]. split; [| discriminate].
    now rewrite (Hinv _ _ Ec).
  - unfold get_token_from_symbol. rewrite Htok, Htruthy. cbn [fst token_missing].
    rewrite Htruthy. split; reflexivity.
Qed.

Lemma benchmark_token_always_found_witness :
  token_missing
    (fst (@get_token ascii_str
            (benchmark_symbol (Some "NIFTY Bank"%string)) None [])) = false /\
  (dict_get [] (benchmark_symbol (Some "NIFTY Bank"%string)) = None ->
   fst (@get_token ascii_str
          (benchmark_symbol (Some "NIFTY Bank"%string)) None [])
   = dict_get BENCHMARK_TOKENS (benchmark_symbol (Some "NIFTY Bank"%string))).
Proof.
  apply (@benchmark_token_always_found ascii_str (Some "NIFTY Bank"%string) None []).
  intros k v H. simpl in H. discriminate H.
Defined.

Lemma exchange_pass (test : scrip_item -> bool) (exchange : string)
  (scrip_data : list scrip_item) (token : string) :
  (forall item, test item = true -> item_exch_seg item = exchange) ->
  first_token test scrip_data = Some token ->
  exists scrip_data' item,
    Some scrip_data = Some scrip_data' /\ In item scrip_data' /\
    item_exch_seg item = exchange /\ item_token item = token.
Proof.
  intros Htest H. unfold first_token in H.
  destruct (find test scrip_data) as [item |] eqn:E; [| discriminate].
  injection H as <-. apply find_some in E. destruct E as [Hin Ht].
  exists scrip_data, item. repeat split; try assumption. now apply Htest.
Qed.

Ltac exchange_test :=
  let item := fresh "item" in
  let H := fresh "H" in
  intros item H; cbv beta in H;
  unfold nifty_exact, nifty_substring in H; cbv zeta in H;
  apply andb_true_iff in H; destruct H as [_ H];
  now apply String.eqb_eq in H.

Ltac by_pass E :=
  let H := fresh "H" in
  intros H; injection H as <-;
  refine (exchange_pass _ _ _ _ _ E); exchange_test.

(** X9. [get_token_from_symbol] never answers with a token of another
    exchange: for a symbol that is not in [BENCHMARK_TOKENS] nothing is
    returned when the scrip master could not be downloaded, and a returned
    token is the token of an entry of the scrip master listed on the
    exchange that was asked for. *)
Theorem token_is_of_the_exchange
  {py : PyStr} (symbol exchange : string) (fetched : option (list scrip_item)) :
  dict_get BENCHMARK_TOKENS symbol = None ->
  (fetched = None -> get_token_from_symbol symbol exchange fetched = None) /\
  (forall token,
      get_token_from_symbol symbol exchange fetched = Some token ->
      exists scrip_data item,
        fetched = Some scrip_data /\ In item scrip_data /\
        item_exch_seg item = exchange /\ item_token item = token).
Proof.
  intros Hb. unfold get_token_from_symbol. rewrite Hb. split.
  { intros ->. reflexivity. }
  intros token. destruct fetched as [scrip_data |]; [| discriminate].
  destruct (first_token _ scrip_data) as [t1 |] eqn:E1; [by_pass E1 |].
  cbv zeta.
  destruct (endswith "-EQ" symbol).
  - destruct (first_token _ scrip_data) as [t2 |] eqn:E2 in |- *; [by_pass E2 |].
    destruct (first_token _ scrip_data) as [t3 |] eqn:E3 in |- *; [by_pass E3 |].
    destruct (_ || _); [| discriminate].
    destruct (first_token (nifty_exact symbol exchange) scrip_data) as [t4 |] eqn:E4;
      [by_pass E4 |].
    intros E5. refine (exchange_pass _ _ _ _ _ E5); exchange_test.
  - destruct (_ || _); [| discriminate].
    destruct (first_token (nifty_exact symbol exchange) scrip_data) as [t4 |] eqn:E4;
      [by_pass E4 |].
    intros E5. refine (exchange_pass _ _ _ _ _ E5); exchange_test.
Qed.

Lemma token_is_of_the_exchange_witness :
  (Some [mk_item "1" "TCS-EQ" "TCS" "" "BSE"; mk_item "2" "TCS-EQ" "TCS" "" "NSE"]
   = None ->
   @get_token_from_symbol ascii_str "TCS-EQ" "NSE"
     (Some [mk_item "1" "TCS-EQ" "TCS" "" "BSE"; mk_item "2" "TCS-EQ" "TCS" "" "NSE"])
   = None) /\
  (forall token,
     @get_token_from_symbol ascii_str "TCS-EQ" "NSE"
       (Some [mk_item "1" "TCS-EQ" "TCS" "" "BSE"; mk_item "2" "TCS-EQ" "TCS" "" "NSE"])
     = Some token ->
     exists scrip_data item,
       Some [mk_item "1" "TCS-EQ" "TCS" "" "BSE"; mk_item "2" "TCS-EQ" "TCS" "" "NSE"]
       = Some scrip_data /\
       In item scrip_data /\ item_exch_seg item = "NSE"%string /\
       item_token item = token).
Proof.
  apply (@token_is_of_the_exchange ascii_str "TCS-EQ" "NSE"
           (Some [mk_item "1" "TCS-EQ" "TCS" "" "BSE";
                  mk_item "2" "TCS-EQ" "TCS" "" "NSE"])).
  reflexivity.
Defined.

(** * Searching the scrip master *)

Section Search.

Context {py : PyStr}.

Lemma insert_by_name_permutation (r : instrument) (l : list instrument) :
  Permutation (r :: l) (insert_by_name r l).
Proof.
  induction l as [|r' l IH]; cbn [insert_by_name].
  - apply Permutation_refl.
  - destruct (String.leb (inst_name r) (inst_name r')).
    + apply Permutation_refl.
    + eapply perm_trans; [apply perm_swap|]. apply perm_skip, IH.
Qed.

Lemma sort_by_name_permutation (l : list instrument) :
  Permutation l (sort_by_name l).
Proof.
  induction l as [|r l IH]; cbn [sort_by_name].
  - apply perm_nil.
  - eapply perm_trans; [apply perm_skip, IH|]. apply insert_by_name_permutation.
Qed.

Lemma insert_by_name_sorted (r : instrument) (l : list instrument) :
  Sorted name_le l -> Sorted name_le (insert_by_name r l).
Proof.
  induction l as [|r' l IH]; intros Hs; cbn [insert_by_name].
  - repeat constructor.
  - destruct (String.leb (inst_name r) (inst_name r')) eqn:E.
    + constructor; [assumption|]. constructor. exact E.
    + inversion Hs as [|? ? Hs' Hhd]; subst.
      constructor; [apply IH, Hs'|].
      assert (Hr : name_le r' r).
      { destruct (leb_total (inst_name r) (inst_name r')) as [H|H];
          [congruence | exact H]. }
      destruct l as [|r'' l]; cbn [insert_by_name].
      * constructor. exact Hr.
      * destruct (String.leb (inst_name r) (inst_name r'')).
        -- constructor. exact Hr.
        -- inversion Hhd; subst. constructor. assumption.
Qed.

Lemma sort_by_name_sorted (l : list instrument) : Sorted name_le (sort_by_name l).
Proof.
  induction l as [|r l IH]; cbn [sort_by_name].
  - constructor.
  - apply insert_by_name_sorted, IH.
Qed.

Lemma filter_split {A : Type} (f : A -> bool) (l : list A) :
  Permutation (filter f l ++ filter (fun x => negb (f x)) l) l.
Proof.
  induction l as [|x l IH]; cbn [filter].
  - apply perm_nil.
  - destruct (f x); cbn [negb app].
    + apply perm_skip, IH.
    + apply Permutation_sym, Permutation_cons_app, Permutation_sym, IH.
Qed.

Lemma filter_filter {A : Type} (f g : A -> bool) (l : list A) :
  filter f (filter g l) = filter (fun x => g x && f x) l.
Proof.
  induction l as [|x l IH]; cbn [filter]; [reflexivity|].
  destruct (g x); cbn [filter andb]; [destruct (f x)|]; rewrite IH; reflexivity.
Qed.

(** *** The loop with a break *)

Lemma collect_firstn {A : Type} (pick : A -> option instrument) (limit : Z)
  (items : list A) (results : list instrument) :
  Z.of_nat (length results) < Z.max limit 1 ->
  collect pick limit results items =
  results ++ firstn (Z.to_nat (Z.max limit 1) - length results) (picked pick items).
Proof.
  revert results. induction items as [|item rest IH]; intros results Hlen.
  - cbn [collect picked flat_map]. rewrite firstn_nil, app_nil_r. reflexivity.
  - cbn [collect picked flat_map]. fold (picked pick rest).
    destruct (pick item) as [r|]; cbn [app].
    + assert (Hl : length (results ++ [r]) = S (length results)).
      { rewrite length_app. cbn [length]. lia. }
      destruct (Z.to_nat (Z.max limit 1) - length results)%nat as [|k] eqn:Ek; [lia|].
      cbn [firstn]. rewrite Hl.
      destruct (Z.of_nat (S (length results)) >=? limit) eqn:E.
      * apply Z.geb_le in E. replace k with 0%nat by lia.
        cbn [firstn]. reflexivity.
      * rewrite Z.geb_leb in E. apply Z.leb_gt in E.
        rewrite IH by (rewrite Hl; lia).
        rewrite Hl, <- app_assoc. cbn [app].
        replace (Z.to_nat (Z.max limit 1) - S (length results))%nat with k by lia.
        reflexivity.
    + apply IH, Hlen.
Qed.

Lemma collect_from_empty {A : Type} (pick : A -> option instrument) (limit : Z)
  (items : list A) :
  collect pick limit [] items = firstn (Z.to_nat (Z.max limit 1)) (picked pick items).
Proof.
  rewrite collect_firstn by (cbn [length]; lia).
  cbn [app length]. rewrite Nat.sub_0_r. reflexivity.
Qed.

Lemma picked_In {A : Type} (pick : A -> option instrument) (items : list A)
  (r : instrument) :
  In r (picked pick items) <-> exists item, In item items /\ pick item = Some r.
Proof.
  unfold picked. rewrite in_flat_map. split.
  - intros (item & Hin & Hr). exists item. split; [assumption|].
    destruct (pick item); cbn [In] in Hr; [|tauto].
    destruct Hr as [->|[]]. reflexivity.
  - intros (item & Hin & Hr). exists item. split; [assumption|].
    rewrite Hr. left. reflexivity.
Qed.

Lemma picked_none {A : Type} (pick : A -> option instrument) (items : list A) :
  (forall item, In item items -> pick item = None) -> picked pick items = [].
Proof.
  intros H. destruct (picked pick items) as [|r l] eqn:E; [reflexivity|].
  assert (Hin : In r (picked pick items)) by (rewrite E; left; reflexivity).
  apply picked_In in Hin. destruct Hin as (item & Hin & Hr).
  rewrite (H item Hin) in Hr. discriminate.
Qed.

Lemma collect_empty {A : Type} (pick : A -> option instrument) (limit : Z)
  (items : list A) :
  collect pick limit [] items = [] -> forall item, In item items -> pick item = None.
Proof.
  rewrite collect_from_empty. intros H item Hin.
  destruct (pick item) as [r|] eqn:E; [|reflexivity].
  assert (Hr : In r (picked pick items)) by (apply picked_In; eauto).
  destruct (picked pick items) as [|r' l]; [destruct Hr|].
  destruct (Z.to_nat (Z.max limit 1)) eqn:Ek; [lia|]. discriminate.
Qed.

(** The fallback of a search goes through a listing whose entries the main
    loop has all refused: it finds nothing. *)
Lemma fallback_finds_nothing (pick : scrip_item -> option instrument)
  (pick' : instrument -> option instrument) (keep : scrip_item -> bool)
  (limit : Z) (scrip_data : list scrip_item) :
  (forall item, keep item = true -> pick item = None ->
                pick' (as_instrument item) = None) ->
  collect pick limit [] scrip_data = [] ->
  collect pick' limit [] (sort_by_name (map as_instrument (filter keep scrip_data))) = [].
Proof.
  intros Hsub Hnone. rewrite collect_from_empty, picked_none; [apply firstn_nil|].
  intros r Hr.
  apply (Permutation_in _ (Permutation_sym (sort_by_name_permutation _))) in Hr.
  apply in_map_iff in Hr. destruct Hr as (item & <- & Hin).
  apply filter_In in Hin. destruct Hin as [Hin Hkeep].
  apply Hsub; [assumption|]. apply (collect_empty _ _ _ Hnone), Hin.
Qed.

Lemma search_without_fallback (pick : scrip_item -> option instrument)
  (pick' : instrument -> option instrument) (keep : scrip_item -> bool)
  (limit : Z) (scrip_data : list scrip_item) :
  (forall item, keep item = true -> pick item = None ->
                pick' (as_instrument item) = None) ->
  match collect pick limit [] scrip_data with
  | [] => collect pick' limit []
            (sort_by_name (map as_instrument (filter keep scrip_data)))
  | _ :: _ => collect pick limit [] scrip_data
  end = firstn (Z.to_nat (Z.max limit 1)) (picked pick scrip_data).
Proof.
  intros Hsub. rewrite <- collect_from_empty.
  destruct (collect pick limit [] scrip_data) eqn:E; [|reflexivity].
  apply (fallback_finds_nothing pick); assumption.
Qed.

Lemma pick_index_fallback (query_upper exchange : string) (item : scrip_item) :
  is_index_item exchange item = true ->
  pick_index query_upper exchange item = None ->
  pick_by_name_or_symbol query_upper (as_instrument item) = None.
Proof.
  unfold is_index_item, pick_index, pick_by_name_or_symbol. cbn [as_instrument inst_name inst_symbol].
  intros Hk. apply andb_prop in Hk. destruct Hk as [-> ->]. cbn [negb].
  destruct (contains query_upper (upper (item_symbol item)));
    destruct (contains query_upper (upper (item_name item)));
    cbn [orb]; try discriminate. reflexivity.
Qed.

Lemma pick_stock_fallback_none (query_upper query_base exchange : string)
  (item : scrip_item) :
  is_equity_item exchange item &&
  negb (is_etf (item_name item) (item_symbol item)) = true ->
  pick_stock query_upper query_base exchange item = None ->
  pick_stock_fallback query_upper query_base (as_instrument item) = None.
Proof.
  unfold is_equity_item, pick_stock, pick_stock_fallback.
  cbn [as_instrument inst_name inst_symbol].
  intros Hk. apply andb_prop in Hk. destruct Hk as [Hk Hetf].
  apply andb_prop in Hk. destruct Hk as [Hk Hty].
  apply andb_prop in Hk. destruct Hk as [-> ->]. cbn [negb orb].
  apply negb_true_iff in Hetf. rewrite Hetf.
  replace (negb (String.eqb (item_instrumenttype item) "") &&
           negb (String.eqb (item_instrumenttype item) "EQ")) with false
    by (rewrite <- negb_orb, Hty; reflexivity).
  destruct (String.eqb (upper (item_symbol item)) query_upper);
    destruct (String.eqb (str_replace "-EQ" "" (upper (item_symbol item))) query_base);
    cbn [orb]; try (intros H; discriminate H).
  intros H. exact H.
Qed.

Lemma pick_etf_fallback (query_upper exchange : string) (item : scrip_item) :
  String.eqb (item_exch_seg item) exchange &&
  (String.eqb (item_instrumenttype item) "" ||
   String.eqb (item_instrumenttype item) "EQ") &&
  endswith "-EQ" (item_symbol item) &&
  is_etf (item_name item) (item_symbol item) = true ->
  pick_etf query_upper exchange item = None ->
  pick_by_name_or_symbol query_upper (as_instrument item) = None.
Proof.
  unfold is_etf, pick_etf, pick_by_name_or_symbol.
  cbn [as_instrument inst_name inst_symbol].
  intros Hk. apply andb_prop in Hk. destruct Hk as [Hk Hetf].
  apply andb_prop in Hk. destruct Hk as [Hk Heq].
  apply andb_prop in Hk. destruct Hk as [Hex Hty].
  cbv zeta in Hetf |- *.
  rewrite Hex, Hty, Heq, Hetf. cbn [negb andb].
  destruct (contains query_upper (upper (item_symbol item)));
    destruct (contains query_upper (upper (item_name item)));
    cbn [orb]; try discriminate. reflexivity.
Qed.

Lemma pick_index_listed (query_upper exchange : string) (item : scrip_item)
  (r : instrument) :
  pick_index query_upper exchange item = Some r ->
  is_index_item exchange item = true /\ r = as_instrument item.
Proof.
  unfold pick_index, is_index_item.
  destruct (String.eqb (item_exch_seg item) exchange); [|discriminate].
  destruct (String.eqb (item_instrumenttype item) "AMXIDX"); [|discriminate].
  cbn [negb andb]. destruct (_ || _); [|discriminate].
  intros [= <-]. split; reflexivity.
Qed.

Lemma pick_stock_listed (query_upper query_base exchange : string)
  (item : scrip_item) (r : instrument) :
  pick_stock query_upper query_base exchange item = Some r ->
  is_equity_item exchange item &&
  negb (is_etf (item_name item) (item_symbol item)) = true /\
  r = as_instrument item.
Proof.
  unfold pick_stock, is_equity_item.
  destruct (String.eqb (item_exch_seg item) exchange); [|discriminate].
  destruct (endswith "-EQ" (item_symbol item)); [|discriminate].
  cbn [negb andb orb]. rewrite <- negb_orb.
  destruct (_ || _); [|discriminate]. cbn [negb].
  destruct (is_etf (item_name item) (item_symbol item)); [discriminate|].
  destruct (_ || _); [|discriminate].
  intros [= <-]. split; reflexivity.
Qed.

Lemma pick_etf_listed (query_upper exchange : string) (item : scrip_item)
  (r : instrument) :
  pick_etf query_upper exchange item = Some r ->
  String.eqb (item_exch_seg item) exchange &&
  (String.eqb (item_instrumenttype item) "" ||
   String.eqb (item_instrumenttype item) "EQ") &&
  endswith "-EQ" (item_symbol item) &&
  is_etf (item_name item) (item_symbol item) = true /\
  r = as_instrument item.
Proof.
  unfold pick_etf, is_etf. cbv zeta.
  destruct (String.eqb (item_exch_seg item) exchange); [|discriminate].
  cbn [negb andb].
  destruct (_ && _ && _); [|discriminate]. cbn [negb].
  destruct (_ || _ || _ || _); [|discriminate].
  intros [= <-]. split; reflexivity.
Qed.

Lemma listed_In (keep : scrip_item -> bool) (scrip_data : list scrip_item)
  (item : scrip_item) :
  In item scrip_data -> keep item = true ->
  In (as_instrument item) (sort_by_name (map as_instrument (filter keep scrip_data))).
Proof.
  intros Hin Hk. apply (Permutation_in _ (sort_by_name_permutation _)).
  apply in_map, filter_In. split; assumption.
Qed.

Lemma In_firstn_In {A : Type} (n : nat) (l : list A) (x : A) :
  In x (firstn n l) -> In x l.
Proof.
  intros H. rewrite <- (firstn_skipn n l). apply in_or_app. left. exact H.
Qed.

Lemma search_first_matches (query exchange : string) (limit : Z)
  (scrip_data : list scrip_item) :
  query <> ""%string ->
  strip (upper query) <> ""%string ->
  search_indices query exchange limit (Some scrip_data) =
    firstn (Z.to_nat (Z.max limit 1))
           (picked (pick_index (strip (upper query)) exchange) scrip_data) /\
  search_stocks query exchange limit (Some scrip_data) =
    firstn (Z.to_nat (Z.max limit 1))
           (picked (pick_stock (strip (upper query))
                               (str_replace "-EQ" "" (strip (upper query))) exchange)
                   scrip_data) /\
  search_etfs query exchange limit (Some scrip_data) =
    firstn (Z.to_nat (Z.max limit 1))
           (picked (pick_etf (strip (upper query)) exchange) scrip_data).
Proof.
  intros Hq Hu. apply String.eqb_neq in Hq, Hu.
  unfold search_indices, search_stocks, search_etfs.
  rewrite Hq, Hu. cbv zeta. cbn [get_indices get_stocks get_etfs].
  split; [|split]; apply search_without_fallback.
  - apply pick_index_fallback.
  - apply pick_stock_fallback_none.
  - apply pick_etf_fallback.
Qed.

End Search.

(** X10.  The listings of the scrip master: [get_indices], [get_stocks] and
    [get_etfs] are in ascending order of the names; the stocks and the ETFs
    together are the entries of the exchange whose symbol ends in "-EQ" and
    whose instrument type is "" or "EQ", each as often as the scrip master
    has it, so that no such entry is lost and none is listed as both; and
    the indices are the entries of the exchange of type "AMXIDX". *)
Theorem listings_split_the_equities
  {py : PyStr} (exchange : string) (scrip_data : list scrip_item) :
  Sorted name_le (get_indices exchange (Some scrip_data)) /\
  Sorted name_le (get_stocks exchange (Some scrip_data)) /\
  Sorted name_le (get_etfs exchange (Some scrip_data)) /\
  Permutation
    (get_stocks exchange (Some scrip_data) ++ get_etfs exchange (Some scrip_data))
    (map as_instrument (filter (is_equity_item exchange) scrip_data)) /\
  (forall r, In r (get_indices exchange (Some scrip_data)) <->
             exists item, In item scrip_data /\
                          item_exch_seg item = exchange /\
                          item_instrumenttype item = "AMXIDX"%string /\
                          r = as_instrument item).
Proof.
  cbn [get_indices get_stocks get_etfs].
  split; [apply sort_by_name_sorted|].
  split; [apply sort_by_name_sorted|].
  split; [apply sort_by_name_sorted|].
  split.
  - eapply perm_trans.
    { apply Permutation_app; apply Permutation_sym, sort_by_name_permutation. }
    rewrite <- map_app. apply Permutation_map.
    eapply perm_trans; [apply Permutation_app_comm|].
    set (etf := fun item : scrip_item => is_etf (item_name item) (item_symbol item)).
    rewrite (filter_ext _ (fun item => is_equity_item exchange item && etf item)).
    2:{ intros item. unfold is_equity_item, etf.
        destruct (String.eqb (item_exch_seg item) exchange);
          destruct (endswith "-EQ" (item_symbol item));
          destruct (_ || _); reflexivity. }
    rewrite <- (filter_filter etf (is_equity_item exchange)).
    rewrite <- (filter_filter (fun item => negb (etf item)) (is_equity_item exchange)).
    apply filter_split.
  - intros r. split.
    + intros Hr.
      apply (Permutation_in _ (Permutation_sym (sort_by_name_permutation _))) in Hr.
      apply in_map_iff in Hr. destruct Hr as (item & <- & Hin).
      apply filter_In in Hin. destruct Hin as [Hin Hk].
      unfold is_index_item in Hk. apply andb_prop in Hk. destruct Hk as [H1 H2].
      apply String.eqb_eq in H1, H2. exists item. tauto.
    + intros (item & Hin & H1 & H2 & ->).
      apply listed_In; [assumption|].
      unfold is_index_item. rewrite H1, H2, !String.eqb_refl. reflexivity.
Qed.

(** X11.  A search with a query that is not blank returns the first
    [max(limit, 1)] entries its main loop accepts, in the order of the scrip
    master and not of the names; the fallback through the sorted listing
    never adds an entry, because every listed entry it would accept has
    been refused by the main loop. *)
Theorem search_returns_first_matches
  {py : PyStr} (query exchange : string) (limit : Z) (scrip_data : list scrip_item) :
  query <> ""%string ->
  strip (upper query) <> ""%string ->
  let query_upper := strip (upper query) in
  let first_matches pick :=
    firstn (Z.to_nat (Z.max limit 1)) (picked pick scrip_data) in
  search_indices query exchange limit (Some scrip_data) =
    first_matches (pick_index query_upper exchange) /\
  search_stocks query exchange limit (Some scrip_data) =
    first_matches (pick_stock query_upper (str_replace "-EQ" "" query_upper) exchange) /\
  search_etfs query exchange limit (Some scrip_data) =
    first_matches (pick_etf query_upper exchange).
Proof.
  intros Hq Hu. cbv zeta. apply search_first_matches; assumption.
Qed.

Lemma search_returns_first_matches_witness :
  @search_indices ascii_str "bank" "NSE" 1
    (Some [mk_item "1" "Nifty Bank" "BANKNIFTY" "AMXIDX" "NSE";
           mk_item "2" "HDFCBANK-EQ" "HDFCBANK" "" "NSE";
           mk_item "3" "BANKBEES-EQ" "BANKBEES" "" "NSE";
           mk_item "4" "Nifty PSU Bank" "NIFTY PSU BANK" "AMXIDX" "NSE"])
  = firstn (Z.to_nat (Z.max 1 1))
      (picked (@pick_index ascii_str (@strip ascii_str (@upper ascii_str "bank")) "NSE")
         [mk_item "1" "Nifty Bank" "BANKNIFTY" "AMXIDX" "NSE";
          mk_item "2" "HDFCBANK-EQ" "HDFCBANK" "" "NSE";
          mk_item "3" "BANKBEES-EQ" "BANKBEES" "" "NSE";
          mk_item "4" "Nifty PSU Bank" "NIFTY PSU BANK" "AMXIDX" "NSE"]) /\
  @search_stocks ascii_str "bank" "NSE" 1
    (Some [mk_item "1" "Nifty Bank" "BANKNIFTY" "AMXIDX" "NSE";
           mk_item "2" "HDFCBANK-EQ" "HDFCBANK" "" "NSE";
           mk_item "3" "BANKBEES-EQ" "BANKBEES" "" "NSE";
           mk_item "4" "Nifty PSU Bank" "NIFTY PSU BANK" "AMXIDX" "NSE"])
  = firstn (Z.to_nat (Z.max 1 1))
      (picked (@pick_stock ascii_str (@strip ascii_str (@upper ascii_str "bank"))
                 (str_replace "-EQ" "" (@strip ascii_str (@upper ascii_str "bank")))
                 "NSE")
         [mk_item "1" "Nifty Bank" "BANKNIFTY" "AMXIDX" "NSE";
          mk_item "2" "HDFCBANK-EQ" "HDFCBANK" "" "NSE";
          mk_item "3" "BANKBEES-EQ" "BANKBEES" "" "NSE";
          mk_item "4" "Nifty PSU Bank" "NIFTY PSU BANK" "AMXIDX" "NSE"]) /\
  @search_etfs ascii_str "bank" "NSE" 1
    (Some [mk_item "1" "Nifty Bank" "BANKNIFTY" "AMXIDX" "NSE";
           mk_item "2" "HDFCBANK-EQ" "HDFCBANK" "" "NSE";
           mk_item "3" "BANKBEES-EQ" "BANKBEES" "" "NSE";
           mk_item "4" "Nifty PSU Bank" "NIFTY PSU BANK" "AMXIDX" "NSE"])
  = firstn (Z.to_nat (Z.max 1 1))
      (picked (@pick_etf ascii_str (@strip ascii_str (@upper ascii_str "bank")) "NSE")
         [mk_item "1" "Nifty Bank" "BANKNIFTY" "AMXIDX" "NSE";
          mk_item "2" "HDFCBANK-EQ" "HDFCBANK" "" "NSE";
          mk_item "3" "BANKBEES-EQ" "BANKBEES" "" "NSE";
          mk_item "4" "Nifty PSU Bank" "NIFTY PSU BANK" "AMXIDX" "NSE"]).
Proof.
  apply (@search_returns_first_matches ascii_str "bank" "NSE" 1
           [mk_item "1" "Nifty Bank" "BANKNIFTY" "AMXIDX" "NSE";
            mk_item "2" "HDFCBANK-EQ" "HDFCBANK" "" "NSE";
            mk_item "3" "BANKBEES-EQ" "BANKBEES" "" "NSE";
            mk_item "4" "Nifty PSU Bank" "NIFTY PSU BANK" "AMXIDX" "NSE"]).
  - discriminate.
  - vm_compute. discriminate.
Defined.

(** X12.  Whatever the query, the limit and the outcome of the download, a
    search returns at most [max(limit, 1)] entries, and each of them is an
    entry of the listing of its kind: an index search returns entries of
    [get_indices], a stock search entries of [get_stocks] (never an ETF),
    an ETF search entries of [get_etfs]. *)
Theorem search_results_are_listed
  {py : PyStr} (query exchange : string) (limit : Z)
  (fetched : option (list scrip_item)) :
  let bounded results listing :=
    Z.of_nat (length results) <= Z.max limit 1 /\
    forall r : instrument, In r results -> In r listing in
  bounded (search_indices query exchange limit fetched) (get_indices exchange fetched) /\
  bounded (search_stocks query exchange limit fetched) (get_stocks exchange fetched) /\
  bounded (search_etfs query exchange limit fetched) (get_etfs exchange fetched).
Proof.
  cbv zeta.
  assert (Hnil : forall listing : list instrument,
             Z.of_nat (length (@nil instrument)) <= Z.max limit 1 /\
             forall r, In r [] -> In r listing).
  { intros listing. split; [cbn [length]; lia | intros r []]. }
  assert (Hfirst : forall (pick : scrip_item -> option instrument) scrip_data,
             Z.of_nat (length (firstn (Z.to_nat (Z.max limit 1))
                                      (picked pick scrip_data))) <= Z.max limit 1).
  { intros pick scrip_data.
    pose proof (firstn_le_length (Z.to_nat (Z.max limit 1)) (picked pick scrip_data)).
    lia. }
  destruct (String.eqb query "") eqn:Hq.
  { unfold search_indices, search_stocks, search_etfs. rewrite Hq.
    split; [|split]; apply Hnil. }
  destruct fetched as [scrip_data|].
  2:{ unfold search_indices, search_stocks, search_etfs. rewrite Hq.
      split; [|split]; apply Hnil. }
  destruct (String.eqb (strip (upper query)) "") eqn:Hu.
  { unfold search_indices, search_stocks, search_etfs. rewrite Hq, Hu.
    split; [|split]; apply Hnil. }
  apply String.eqb_neq in Hq, Hu.
  destruct (search_first_matches query exchange limit scrip_data Hq Hu)
    as (-> & -> & ->).
  cbn [get_indices get_stocks get_etfs].
  split; [|split]; (split; [apply Hfirst|]); intros r Hr;
    apply In_firstn_In, picked_In in Hr; destruct Hr as (item & Hin & Hr).
  - apply pick_index_listed in Hr. destruct Hr as [Hk ->].
    apply listed_In; assumption.
  - apply pick_stock_listed in Hr. destruct Hr as [Hk ->].
    apply listed_In; assumption.
  - apply pick_etf_listed in Hr. destruct Hr as [Hk ->].
    apply listed_In; assumption.
Qed.

(** * The loader and the frames of the animation *)

(** X13.  [initialize_api_loader] calls the constructor at most three
    times.  It stops at the first attempt k (counted from 0) that returns a
    loader or raises an error that is not a timeout, and at the third
    attempt in any case; every attempt before k raised a timeout and was
    followed by a sleep of 2, then 4 seconds, so that it never sleeps more
    than 6 seconds in all.  It returns the loader of attempt k, or None. *)
Theorem loader_attempts_are_bounded
  {py : PyStr} {L : Type} (connect : Z -> attempt L) :
  exists k : nat,
    (k < 3)%nat /\
    snd (initialize_api_loader connect) =
      map (fun j => 2 * (Z.of_nat j + 1)) (seq 0 k) /\
    (forall j, (j < k)%nat ->
               exists e, connect (Z.of_nat j) = Raised e /\ is_timeout e = true) /\
    match fst (initialize_api_loader connect) with
    | Some loader => connect (Z.of_nat k) = Connected loader
    | None =>
        exists e, connect (Z.of_nat k) = Raised e /\
                  (is_timeout e = false \/ k = 2%nat)
    end.
Proof.
  unfold initialize_api_loader, range, max_retries, retry_delay.
  change (map Z.of_nat (seq 0 (Z.to_nat 3))) with [0; 1; 2].
  cbn [attempts].
  destruct (connect 0) as [l0 | e0] eqn:E0.
  { exists 0%nat. cbn [fst snd seq map].
    split; [lia|]. split; [reflexivity|]. split; [intros j Hj; lia | exact E0]. }
  destruct (is_timeout e0) eqn:T0; cbn [andb].
  2:{ exists 0%nat. cbn [fst snd seq map].
      split; [lia|]. split; [reflexivity|]. split; [intros j Hj; lia|].
      exists e0. split; [exact E0 | left; exact T0]. }
  change (0 <? 3 - 1) with true. cbv iota.
  assert (H0 : forall j, (j < 1)%nat ->
                 exists e, connect (Z.of_nat j) = Raised e /\ is_timeout e = true).
  { intros j Hj. assert (j = 0%nat) as -> by lia. exists e0. split; assumption. }
  destruct (connect 1) as [l1 | e1] eqn:E1.
  { exists 1%nat. cbn [fst snd seq map].
    split; [lia|]. split; [reflexivity|]. split; [exact H0 | exact E1]. }
  destruct (is_timeout e1) eqn:T1; cbn [andb].
  2:{ exists 1%nat. cbn [fst snd seq map].
      split; [lia|]. split; [reflexivity|]. split; [exact H0|].
      exists e1. split; [exact E1 | left; exact T1]. }
  change (1 <? 3 - 1) with true. cbv iota.
  assert (H01 : forall j, (j < 2)%nat ->
                  exists e, connect (Z.of_nat j) = Raised e /\ is_timeout e = true).
  { intros j Hj. assert (j = 0 \/ j = 1)%nat as [-> | ->] by lia;
      [exists e0 | exists e1]; split; assumption. }
  destruct (connect 2) as [l2 | e2] eqn:E2.
  { exists 2%nat. cbn [fst snd seq map].
    split; [lia|]. split; [reflexivity|]. split; [exact H01 | exact E2]. }
  rewrite andb_false_r.
  exists 2%nat. cbn [fst snd seq map].
  split; [lia|]. split; [reflexivity|]. split; [exact H01|].
  exists e2. split; [exact E2 | right; reflexivity].
Qed.

Section Frames.

Lemma slice_from_incl {A : Type} (step skip : nat) (l : list A) :
  incl (slice_from step skip l) l.
Proof.
  revert skip. induction l as [|x l IH]; intros skip; cbn [slice_from].
  - apply incl_refl.
  - destruct skip as [|skip'].
    + apply incl_cons; [left; reflexivity | apply incl_tl, IH].
    + apply incl_tl, IH.
Qed.

Lemma slice_from_sorted (step skip : nat) (l : list date) :
  StronglySorted Z.lt l -> StronglySorted Z.lt (slice_from step skip l).
Proof.
  revert skip. induction l as [|x l IH]; intros skip Hs; cbn [slice_from].
  - constructor.
  - inversion Hs as [|? ? Hs' Hall]; subst. destruct skip as [|skip'].
    + constructor; [apply IH, Hs'|].
      rewrite Forall_forall in Hall |- *. intros y Hy. apply Hall.
      exact (slice_from_incl _ _ _ _ Hy).
    + apply IH, Hs'.
Qed.

Lemma slice_from_length {A : Type} (step skip : nat) (l : list A) :
  (1 <= step -> skip <= step - 1 ->
   step * length (slice_from step skip l) + skip <= length l + step - 1)%nat.
Proof.
  revert skip. induction l as [|x l IH]; intros skip Hstep Hskip;
    cbn [slice_from length].
  - lia.
  - destruct skip as [|skip']; cbn [length].
    + specialize (IH (step - 1)%nat Hstep (Nat.le_refl _)). nia.
    + specialize (IH skip' Hstep). lia.
Qed.

Lemma slice_step_nonempty {A : Type} (step : nat) (x : A) (l : list A) :
  slice_step step (x :: l) = x :: slice_from step (step - 1) l.
Proof. reflexivity. Qed.

Lemma last_In {A : Type} (l : list A) (d : A) : l <> [] -> In (last l d) l.
Proof.
  induction l as [|x l IH]; intros Hne; [congruence|].
  destruct l as [|y l]; [left; reflexivity|].
  right. apply IH. discriminate.
Qed.

Lemma last_default {A : Type} (l : list A) (d d' : A) :
  l <> [] -> last l d = last l d'.
Proof.
  induction l as [|x l IH]; intros Hne; [congruence|].
  destruct l as [|y l]; [reflexivity|].
  change (last (y :: l) d = last (y :: l) d'). apply IH. discriminate.
Qed.

Lemma sorted_le_last (l : list date) (x d : date) :
  StronglySorted Z.lt l -> In x l -> x <= last l d.
Proof.
  induction l as [|y l IH]; intros Hs Hin; [destruct Hin|].
  inversion Hs as [|? ? Hs' Hall]; subst.
  destruct l as [|z l].
  - destruct Hin as [-> | []]. cbn [last]. lia.
  - change (last (y :: z :: l) d) with (last (z :: l) d).
    destruct Hin as [-> | Hin].
    + rewrite Forall_forall in Hall.
      assert (Hz : In (last (z :: l) d) (z :: l)) by (apply last_In; discriminate).
      specialize (Hall _ Hz). lia.
    + apply IH; assumption.
Qed.

Lemma sorted_snoc (l : list date) (y : date) :
  StronglySorted Z.lt l -> (forall x, In x l -> x < y) ->
  StronglySorted Z.lt (l ++ [y]).
Proof.
  induction l as [|x l IH]; intros Hs Hlt; cbn [app].
  - repeat constructor.
  - inversion Hs as [|? ? Hs' Hall]; subst.
    constructor.
    + apply IH; [assumption | intros z Hz; apply Hlt; right; exact Hz].
    + apply Forall_app. split; [assumption|].
      constructor; [apply Hlt; left; reflexivity | constructor].
Qed.

End Frames.

(** X14.  The frames of the animation, for dates that are not empty and a
    tail count other than 0: the first frame is the first date and the last
    frame is the last date, every frame date is one of the dates, dates in
    ascending order give frames in ascending order (so no date twice), and
    with a tail count of at least 1 there are at most 100 times the tail
    count of them. *)
Theorem animation_frames_span_the_dates
  (tail_count : Z) (filtered_dates : list date) :
  filtered_dates <> [] -> tail_count <> 0 ->
  exists frames : list date,
    frame_dates false tail_count filtered_dates = Frames frames /\
    hd_error frames = hd_error filtered_dates /\
    last frames 0 = last filtered_dates 0 /\
    incl frames filtered_dates /\
    (StronglySorted Z.lt filtered_dates -> StronglySorted Z.lt frames) /\
    (1 <= tail_count -> Z.of_nat (length frames) <= 100 * tail_count).
Proof.
  intros Hne Ht.
  destruct filtered_dates as [|first rest]; [congruence|].
  unfold frame_dates. cbv iota beta.
  remember (first :: rest) as filtered_dates eqn:Edates.
  assert (Hlast : forall d, last filtered_dates d = last filtered_dates first).
  { intros d. apply last_default. congruence. }
  destruct (50 * tail_count =? 0) eqn:E50; [apply Z.eqb_eq in E50; lia|].
  cbv zeta.
  set (step := Z.to_nat (Z.max 1 (Z.of_nat (length filtered_dates) / (50 * tail_count)))).
  assert (Hstep : (1 <= step)%nat) by (unfold step; lia).
  assert (Hslice : slice_step step filtered_dates =
                   first :: slice_from step (step - 1) rest).
  { rewrite Edates. apply slice_step_nonempty. }
  assert (Hincl : incl (slice_step step filtered_dates) filtered_dates)
    by apply slice_from_incl.
  assert (Hcount : 1 <= tail_count ->
            Z.of_nat (length (slice_step step filtered_dates)) + 1 <= 100 * tail_count).
  { intros Htail.
    pose proof (slice_from_length step 0 filtered_dates Hstep (Nat.le_0_l _)) as Hl.
    fold (slice_step step filtered_dates) in Hl.
    set (c := length (slice_step step filtered_dates)) in *.
    set (n := length filtered_dates) in *.
    assert (Hs : Z.of_nat step = Z.max 1 (Z.of_nat n / (50 * tail_count)))
      by (unfold step; lia).
    pose proof (Z.div_mod (Z.of_nat n) (50 * tail_count) ltac:(lia)) as Hdm.
    pose proof (Z.mod_pos_bound (Z.of_nat n) (50 * tail_count) ltac:(lia)) as Hmod.
    set (q := Z.of_nat n / (50 * tail_count)) in *.
    set (r := Z.of_nat n mod (50 * tail_count)) in *.
    assert (Hq : 0 <= q) by (unfold q; apply Z.div_pos; lia).
    assert (Hl' : Z.of_nat step * Z.of_nat c <= Z.of_nat n + Z.of_nat step - 1) by nia.
    destruct (Z.max_spec 1 q) as [[Hlt Hmax] | [Hge Hmax]]; rewrite Hmax in Hs.
    - nia.
    - assert (Hc : Z.of_nat c <= Z.of_nat n) by nia.
      assert (q = 0 \/ q = 1) as [Hq0 | Hq1] by lia; nia. }
  set (frames := slice_step step filtered_dates) in *.
  destruct (negb (last frames first =? last filtered_dates first)) eqn:Eap.
  - exists (frames ++ [last filtered_dates first]).
    split; [reflexivity|].
    split; [rewrite Hslice, Edates; reflexivity|].
    split; [rewrite last_last; symmetry; apply Hlast|].
    split.
    { apply incl_app; [exact Hincl|].
      intros x [<- | []]. apply last_In. congruence. }
    split.
    { intros Hs. apply sorted_snoc; [apply slice_from_sorted, Hs|].
      intros x Hx.
      apply negb_true_iff, Z.eqb_neq in Eap.
      pose proof (sorted_le_last _ x first (slice_from_sorted step 0 _ Hs) Hx) as H1.
      fold (slice_step step filtered_dates) in H1. fold frames in H1.
      assert (Hin : In (last frames first) filtered_dates).
      { apply Hincl, last_In. rewrite Hslice. discriminate. }
      pose proof (sorted_le_last _ _ first Hs Hin) as H2. lia. }
    intros Htail. rewrite length_app. cbn [length]. specialize (Hcount Htail). lia.
  - exists frames.
    split; [reflexivity|].
    split; [rewrite Hslice, Edates; reflexivity|].
    split.
    { apply negb_false_iff, Z.eqb_eq in Eap. rewrite Hlast, <- Eap.
      apply last_default. rewrite Hslice. discriminate. }
    split; [exact Hincl|].
    split; [intros Hs; apply slice_from_sorted, Hs|].
    intros Htail. specialize (Hcount Htail). lia.
Qed.

Lemma animation_frames_span_the_dates_witness :
  exists frames : list date,
    frame_dates false 1 [1; 2; 3] = Frames frames /\
    hd_error frames = hd_error [1; 2; 3] /\
    last frames 0 = last [1; 2; 3] 0 /\
    incl frames [1; 2; 3] /\
    (StronglySorted Z.lt [1; 2; 3] -> StronglySorted Z.lt frames) /\
    (1 <= 1 -> Z.of_nat (length frames) <= 100 * 1).
Proof.
  apply (animation_frames_span_the_dates 1 [1; 2; 3]).
  - discriminate.
  - lia.
Defined.

(** * The chart *)

Section ChartNumbers.

Local Open Scope Qc_scope.

Lemma Qc_ltb_lt (x y : Qc) : Qc_ltb x y = true <-> x < y.
Proof.
  unfold Qc_ltb. rewrite Qclt_alt. destruct (x ?= y); split; congruence.
Qed.

Lemma Qc_ltb_ge (x y : Qc) : Qc_ltb x y = false <-> y <= x.
Proof.
  split.
  - intros H. apply Qcnot_lt_le. intros Hlt. apply Qc_ltb_lt in Hlt. congruence.
  - intros H. destruct (Qc_ltb x y) eqn:E; [|reflexivity].
    apply Qc_ltb_lt in E. exfalso. exact (Qclt_not_le _ _ E H).
Qed.

Lemma Qc_leb_le (x y : Qc) : Qc_leb x y = true <-> x <= y.
Proof.
  rewrite Qc_leb_ltb, negb_true_iff. apply Qc_ltb_ge.
Qed.

Lemma py_min_Fin (a b : Qc) :
  exists c, py_min (Fin a) (Fin b) = Fin c /\ c <= a /\ c <= b.
Proof.
  unfold py_min, fltb. cbn [fgtb]. destruct (Qc_ltb b a) eqn:E.
  - exists b. apply Qc_ltb_lt in E.
    split; [reflexivity|]. split; [apply Qclt_le_weak, E | apply Qcle_refl].
  - exists a. apply Qc_ltb_ge in E.
    split; [reflexivity|]. split; [apply Qcle_refl | exact E].
Qed.

Lemma py_max_Fin (a b : Qc) :
  exists c, py_max (Fin a) (Fin b) = Fin c /\ a <= c /\ b <= c.
Proof.
  unfold py_max. cbn [fgtb]. destruct (Qc_ltb a b) eqn:E.
  - exists b. apply Qc_ltb_lt in E.
    split; [reflexivity|]. split; [apply Qclt_le_weak, E | apply Qcle_refl].
  - exists a. apply Qc_ltb_ge in E.
    split; [reflexivity|]. split; [apply Qcle_refl | exact E].
Qed.

Lemma py_min_NaN (a : float) : py_min a NaN = a.
Proof. unfold py_min, fltb. destruct a; reflexivity. Qed.

Lemma py_max_NaN (a : float) : py_max a NaN = a.
Proof. unfold py_max. destruct a; reflexivity. Qed.

Lemma py_abs_Fin (a : Qc) :
  exists c, py_abs (Fin a) = Fin c /\ a <= c /\ - a <= c.
Proof.
  cbn [py_abs]. unfold Qc_neg. destruct (Qc_ltb a 0) eqn:E.
  - exists (- a). apply Qc_ltb_lt in E. split; [reflexivity|].
    revert E. unfold Qclt, Qcle. rewrite this_opp.
    change (this 0) with 0%Q. intros E. split; lra.
  - exists a. apply Qc_ltb_ge in E. split; [reflexivity|].
    revert E. unfold Qcle. rewrite this_opp. change (this 0) with 0%Q.
    intros E. split; lra.
Qed.

(** [Series.min()] and [Series.max()] of values none of which is infinite:
    NaN when the series has no number, else a number that bounds every
    number of the series. *)
Lemma nan_reduce_spec (better : float -> float -> bool) (R : Qc -> Qc -> Prop)
  (vals : list float) :
  (forall q, R q q) ->
  (forall x y z, R x y -> R y z -> R x z) ->
  (forall q m, better (Fin q) (Fin m) = true -> R q m) ->
  (forall q m, better (Fin q) (Fin m) = false -> R m q) ->
  Forall (fun x => is_inf x = false) vals ->
  (nan_reduce better vals = NaN /\ forall q, ~ In (Fin q) vals) \/
  exists m, nan_reduce better vals = Fin m /\ forall q, In (Fin q) vals -> R m q.
Proof.
  intros Hrefl Htrans Htrue Hfalse Hfin. unfold nan_reduce.
  assert (H : forall acc,
             acc = NaN \/ (exists m, acc = Fin m) ->
             let r := fold_left (fun acc v =>
                         if is_nan v then acc
                         else if is_nan acc then v
                         else if better v acc then v else acc) vals acc in
             (r = NaN /\ acc = NaN /\ forall q, ~ In (Fin q) vals) \/
             exists m, r = Fin m /\ (forall q, In (Fin q) vals -> R m q) /\
                       (forall q, acc = Fin q -> R m q)).
  { induction Hfin as [|v vals Hv Hvals IH]; intros acc Hacc; cbn [fold_left].
    - destruct Hacc as [-> | [m ->]].
      + left. split; [reflexivity|]. split; [reflexivity | intros q []].
      + right. exists m. split; [reflexivity|].
        split; [intros q [] | intros q [= <-]; apply Hrefl].
    - cbv zeta in IH.
      destruct (not_inf_cases v Hv) as [[q ->] | ->].
      + replace (is_nan (Fin q)) with false
          by (symmetry; apply is_nan_false; discriminate).
        destruct Hacc as [-> | [m ->]].
        * replace (is_nan NaN) with true by reflexivity.
          destruct (IH (Fin q) (or_intror (ex_intro _ q eq_refl)))
            as [(_ & H & _) | (m & Hr & Hin & Hq)]; [discriminate|].
          right. exists m. split; [exact Hr|].
          split; [|intros ? [=]].
          intros q' [[= <-] | Hq']; [apply Hq; reflexivity | apply Hin, Hq'].
        * replace (is_nan (Fin m)) with false
            by (symmetry; apply is_nan_false; discriminate).
          destruct (better (Fin q) (Fin m)) eqn:E.
          -- apply Htrue in E.
             destruct (IH (Fin q) (or_intror (ex_intro _ q eq_refl)))
               as [(_ & H & _) | (m' & Hr & Hin & Hq)]; [discriminate|].
             right. exists m'. split; [exact Hr|].
             specialize (Hq q eq_refl).
             split.
             ++ intros q' [[= <-] | Hq']; [exact Hq | apply Hin, Hq'].
             ++ intros ? [= <-]. exact (Htrans _ _ _ Hq E).
          -- apply Hfalse in E.
             destruct (IH (Fin m) (or_intror (ex_intro _ m eq_refl)))
               as [(_ & H & _) | (m' & Hr & Hin & Hq)]; [discriminate|].
             right. exists m'. split; [exact Hr|].
             specialize (Hq m eq_refl).
             split.
             ++ intros q' [[= <-] | Hq'];
                  [exact (Htrans _ _ _ Hq E) | apply Hin, Hq'].
             ++ intros ? [= <-]. exact Hq.
      + replace (is_nan NaN) with true by reflexivity.
        destruct (IH acc Hacc) as [(Hr & Ha & Hnone) | (m & Hr & Hin & Hq)].
        * left. split; [exact Hr|]. split; [exact Ha|].
          intros q [[=] | Hq]. exact (Hnone q Hq).
        * right. exists m. split; [exact Hr|].
          split; [|exact Hq].
          intros q' [[=] | Hq']. apply Hin, Hq'. }
  destruct (H NaN (or_introl eq_refl)) as [(Hr & _ & Hnone) | (m & Hr & Hin & _)].
  - left. split; assumption.
  - right. exists m. split; [exact Hr | exact Hin].
Qed.

Lemma series_min_spec (vals : list float) :
  Forall (fun x => is_inf x = false) vals ->
  (series_min vals = NaN /\ forall q, ~ In (Fin q) vals) \/
  exists m, series_min vals = Fin m /\ forall q, In (Fin q) vals -> m <= q.
Proof.
  apply (nan_reduce_spec fltb Qcle).
  - apply Qcle_refl.
  - apply Qcle_trans.
  - intros q m H. unfold fltb in H. cbn [fgtb] in H.
    apply Qc_ltb_lt in H. apply Qclt_le_weak, H.
  - intros q m H. unfold fltb in H. cbn [fgtb] in H.
    apply Qc_ltb_ge in H. exact H.
Qed.

Lemma series_max_spec (vals : list float) :
  Forall (fun x => is_inf x = false) vals ->
  (series_max vals = NaN /\ forall q, ~ In (Fin q) vals) \/
  exists m, series_max vals = Fin m /\ forall q, In (Fin q) vals -> q <= m.
Proof.
  apply (nan_reduce_spec fgtb (fun x y => y <= x)).
  - apply Qcle_refl.
  - intros x y z H1 H2. exact (Qcle_trans _ _ _ H2 H1).
  - intros q m H. cbn [fgtb] in H.
    apply Qc_ltb_lt in H. apply Qclt_le_weak, H.
  - intros q m H. cbn [fgtb] in H.
    apply Qc_ltb_ge in H. exact H.
Qed.

(** The half widths of the axes, from finite minima and maxima. *)
Lemma axis_ranges_spec (a a' c c' : Qc) :
  exists rx ry : Qc,
    axis_ranges (mk_bounds (Fin a) (Fin a') (Fin c) (Fin c')) = (Fin rx, Fin ry) /\
    Q2Qc (inject_Z 7) <= rx /\ Q2Qc (inject_Z 7) <= ry /\
    (a < Q2Qc (inject_Z 200) -> 0 < a' ->
     (forall q, a <= q -> q <= a' ->
        Q2Qc (inject_Z 100) - rx <= q /\ q <= Q2Qc (inject_Z 100) + rx) /\
     (forall q, c <= q -> q <= c' ->
        Q2Qc (inject_Z 100) - ry <= q /\ q <= Q2Qc (inject_Z 100) + ry)).
Proof.
  unfold axis_ranges, fgeb, center_x, center_y, of_Z, of_Q.
  cbn [x_min x_max y_min y_max fleb].
  destruct (Qc_leb (Q2Qc (inject_Z 200)) a || Qc_leb a' (Q2Qc (inject_Z 0))) eqn:E.
  - exists (Q2Qc (inject_Z 7)), (Q2Qc (inject_Z 7)).
    split; [reflexivity|]. split; [apply Qcle_refl|]. split; [apply Qcle_refl|].
    intros Ha Ha'. exfalso. apply orb_true_iff in E. destruct E as [E | E].
    + apply Qc_leb_le in E. exact (Qclt_not_le _ _ Ha E).
    + apply Qc_leb_le in E. exact (Qclt_not_le _ _ Ha' E).
  - cbv zeta. rewrite !fsub_Fin, !fmul_Fin.
    destruct (py_max_Fin ((a' - a) * Q2Qc (5 # 100)) (Q2Qc (15 # 10)))
      as (px & -> & _ & Hpx).
    destruct (py_max_Fin ((c' - c) * Q2Qc (5 # 100)) (Q2Qc (15 # 10)))
      as (py' & -> & _ & Hpy).
    destruct (py_abs_Fin (a - Q2Qc (inject_Z 100))) as (xa & -> & Hxa1 & Hxa2).
    destruct (py_abs_Fin (a' - Q2Qc (inject_Z 100))) as (xb & -> & Hxb1 & Hxb2).
    destruct (py_abs_Fin (c - Q2Qc (inject_Z 100))) as (ya & -> & Hya1 & Hya2).
    destruct (py_abs_Fin (c' - Q2Qc (inject_Z 100))) as (yb & -> & Hyb1 & Hyb2).
    destruct (py_max_Fin xa xb) as (dx & -> & Hdx1 & Hdx2).
    destruct (py_max_Fin ya yb) as (dy & -> & Hdy1 & Hdy2).
    rewrite !fadd_Fin.
    destruct (py_max_Fin (dx + px) (Q2Qc (inject_Z 7))) as (rx & -> & Hrx1 & Hrx2).
    destruct (py_max_Fin (dy + py') (Q2Qc (inject_Z 7))) as (ry & -> & Hry1 & Hry2).
    exists rx, ry. split; [reflexivity|]. split; [exact Hrx2|]. split; [exact Hry2|].
    intros _ _.
    revert Hpx Hpy Hxa1 Hxa2 Hxb1 Hxb2 Hya1 Hya2 Hyb1 Hyb2 Hdx1 Hdx2 Hdy1 Hdy2
           Hrx1 Hry1.
    unfold Qcle.
    repeat first [rewrite this_opp | rewrite this_plus | rewrite this_minus
                 | rewrite this_Q2Qc].
    unfold inject_Z.
    intros. split; intros q Hq1 Hq2; revert Hq1 Hq2;
      repeat first [rewrite this_plus | rewrite this_minus | rewrite this_Q2Qc];
      unfold inject_Z; intros; split; lra.
Qed.

End ChartNumbers.

Section ChartAxes.

Local Open Scope Qc_scope.

Variable normalize : date -> date.

Lemma last_skipn {A : Type} (k : nat) (l : list A) (d : A) :
  (k < length l)%nat -> last (skipn k l) d = last l d.
Proof.
  revert k. induction l as [|x l IH]; intros k Hk; [cbn [length] in Hk; lia|].
  destruct k as [|k]; [reflexivity|]. cbn [skipn]. cbn [length] in Hk.
  rewrite IH by lia. destruct l as [|y l]; [cbn [length] in Hk; lia | reflexivity].
Qed.

Lemma skipn_incl {A : Type} (k : nat) (l : list A) : incl (skipn k l) l.
Proof.
  intros x Hx. rewrite <- (firstn_skipn k l). apply in_or_app. right. exact Hx.
Qed.

Lemma iloc_from_incl {A : Type} (start : Z) (l : list A) : incl (iloc_from start l) l.
Proof. apply skipn_incl. Qed.

Lemma last_in_tail {A : Type} (tail_count : Z) (l : list A) (d : A) :
  (0 <= tail_count)%Z -> (length l =? 0)%nat = false ->
  (Z.of_nat (length l) <? tail_count)%Z = false ->
  In (last l d) (iloc_from (- tail_count) l).
Proof.
  intros Ht Hn Hlen. apply Nat.eqb_neq in Hn. apply Z.ltb_ge in Hlen.
  unfold iloc_from.
  set (k := Z.to_nat (if (- tail_count <? 0)%Z
                      then Z.max (Z.of_nat (length l) + - tail_count) 0
                      else (- tail_count)%Z)).
  assert (Hk : (k < length l)%nat).
  { unfold k. destruct (- tail_count <? 0)%Z eqn:E.
    - apply Z.ltb_lt in E. lia.
    - apply Z.ltb_ge in E. lia. }
  rewrite <- (last_skipn k l d Hk). apply last_In.
  intros H. apply (f_equal (@length A)) in H. rewrite length_skipn in H.
  cbn [length] in H. lia.
Qed.

Lemma values_upto_cutoff (cutoff_date : option date) (ser : Series) :
  incl (values (upto_cutoff normalize cutoff_date ser)) (values ser).
Proof.
  unfold upto_cutoff, values. destruct cutoff_date as [cutoff|]; [|apply incl_refl].
  intros x Hx. apply in_map_iff in Hx. destruct Hx as (row & <- & Hrow).
  apply in_map. exact (incl_filter _ _ _ Hrow).
Qed.

Lemma not_inf_incl (l l' : list float) :
  incl l l' -> Forall (fun x => is_inf x = false) l' ->
  Forall (fun x => is_inf x = false) l.
Proof.
  intros Hincl Hall. rewrite Forall_forall in Hall |- *.
  intros x Hx. apply Hall, Hincl, Hx.
Qed.

(** The running minimum and maximum after a tail that has no infinite
    value. *)
Lemma tail_bounds (a a' : Qc) (tail : list float) :
  Forall (fun x => is_inf x = false) tail ->
  exists a2 a2' : Qc,
    py_min (Fin a) (series_min tail) = Fin a2 /\
    py_max (Fin a') (series_max tail) = Fin a2' /\
    a2 <= a /\ a' <= a2' /\
    forall q, In (Fin q) tail -> a2 <= q /\ q <= a2'.
Proof.
  intros Hfin.
  destruct (series_min_spec tail Hfin) as [[-> Hnone] | (m & -> & Hm)];
    destruct (series_max_spec tail Hfin) as [[-> Hnone'] | (m' & -> & Hm')];
    rewrite ?py_min_NaN, ?py_max_NaN.
  - exists a, a'. split; [reflexivity|]. split; [reflexivity|].
    split; [apply Qcle_refl|]. split; [apply Qcle_refl|].
    intros q Hq. destruct (Hnone q Hq).
  - destruct (py_max_Fin a' m') as (a2' & -> & H1 & H2).
    exists a, a2'. split; [reflexivity|]. split; [reflexivity|].
    split; [apply Qcle_refl|]. split; [exact H1|].
    intros q Hq. destruct (Hnone q Hq).
  - destruct (py_min_Fin a m) as (a2 & -> & H1 & H2).
    exists a2, a'. split; [reflexivity|]. split; [reflexivity|].
    split; [exact H1|]. split; [apply Qcle_refl|].
    intros q Hq. destruct (Hnone' q Hq).
  - destruct (py_min_Fin a m) as (a2 & -> & H1 & H2).
    destruct (py_max_Fin a' m') as (a2' & -> & H1' & H2').
    exists a2, a2'. split; [reflexivity|]. split; [reflexivity|].
    split; [exact H1|]. split; [exact H1'|].
    intros q Hq. split.
    + exact (Qcle_trans _ _ _ H2 (Hm q Hq)).
    + exact (Qcle_trans _ _ _ (Hm' q Hq) H2').
Qed.

(** The loop of [create_rrg_chart]: the bounds stay finite and hold every
    number of the traces. *)
Lemma plot_items_bounds (tail_count : Z) (cutoff_date : option date)
  (items_data : list (string * (Series * Series))) :
  (0 <= tail_count)%Z ->
  Forall (fun item =>
            Forall (fun x => is_inf x = false) (values (fst (snd item))) /\
            Forall (fun y => is_inf y = false) (values (snd (snd item))))
         items_data ->
  forall (data : list Scatter) (a a' c c' : Qc),
    (forall s, In s data ->
       (forall x, In x (scatter_x s) ->
                  x = NaN \/ exists q, x = Fin q /\ a <= q /\ q <= a') /\
       (forall y, In y (scatter_y s) ->
                  y = NaN \/ exists q, y = Fin q /\ c <= q /\ q <= c')) ->
    exists a2 a2' c2 c2' : Qc,
      snd (fold_left (plot_item normalize tail_count cutoff_date) items_data
                     (data, mk_bounds (Fin a) (Fin a') (Fin c) (Fin c')))
      = mk_bounds (Fin a2) (Fin a2') (Fin c2) (Fin c2') /\
      forall s,
        In s (fst (fold_left (plot_item normalize tail_count cutoff_date) items_data
                             (data, mk_bounds (Fin a) (Fin a') (Fin c) (Fin c')))) ->
        (forall x, In x (scatter_x s) ->
                   x = NaN \/ exists q, x = Fin q /\ a2 <= q /\ q <= a2') /\
        (forall y, In y (scatter_y s) ->
                   y = NaN \/ exists q, y = Fin q /\ c2 <= q /\ q <= c2').
Proof.
  intros Ht Hfin. induction Hfin as [|item items_data [Hx Hy] _ IH];
    intros data a a' c c' Hinv; cbn [fold_left].
  - exists a, a', c, c'. split; [reflexivity | exact Hinv].
  - unfold plot_item at 2 4. cbn [fst snd].
    set (rs_series := upto_cutoff normalize cutoff_date (fst (snd item))).
    set (momentum_series := upto_cutoff normalize cutoff_date (snd (snd item))).
    destruct ((length rs_series =? 0)%nat) eqn:En1; cbn [orb];
      [apply IH, Hinv|].
    destruct ((length momentum_series =? 0)%nat) eqn:En2; cbn [orb];
      [apply IH, Hinv|].
    destruct (Z.of_nat (length rs_series) <? tail_count)%Z eqn:El1; cbn [orb];
      [apply IH, Hinv|].
    destruct (Z.of_nat (length momentum_series) <? tail_count)%Z eqn:El2; cbn [orb];
      [apply IH, Hinv|].
    cbn [x_min x_max y_min y_max].
    assert (Hxs : Forall (fun x => is_inf x = false) (values rs_series))
      by (eapply not_inf_incl; [apply values_upto_cutoff | exact Hx]).
    assert (Hys : Forall (fun x => is_inf x = false) (values momentum_series))
      by (eapply not_inf_incl; [apply values_upto_cutoff | exact Hy]).
    assert (Hxt : Forall (fun x => is_inf x = false)
                         (iloc_from (- tail_count) (values rs_series)))
      by (eapply not_inf_incl; [apply iloc_from_incl | exact Hxs]).
    assert (Hyt : Forall (fun x => is_inf x = false)
                         (iloc_from (- tail_count) (values momentum_series)))
      by (eapply not_inf_incl; [apply iloc_from_incl | exact Hys]).
    destruct (tail_bounds a a' _ Hxt) as (a2 & a2' & -> & -> & Ha & Ha' & Hxin).
    destruct (tail_bounds c c' _ Hyt) as (c2 & c2' & -> & -> & Hc & Hc' & Hyin).
    apply IH. intros s Hs.
    assert (Hpoint : forall (lo hi : Qc) (tail : list float) (x : float),
               Forall (fun x => is_inf x = false) tail ->
               (forall q, In (Fin q) tail -> lo <= q /\ q <= hi) ->
               In x tail ->
               x = NaN \/ exists q, x = Fin q /\ lo <= q /\ q <= hi).
    { intros lo hi tail x Hall Hin Hxin'.
      rewrite Forall_forall in Hall.
      destruct (not_inf_cases x (Hall x Hxin')) as [[q ->] | ->]; [|left; reflexivity].
      right. exists q. split; [reflexivity | apply Hin, Hxin']. }
    apply in_app_or in Hs. destruct Hs as [Hs | [<- | [<- | []]]]; cbn [scatter_x scatter_y].
    + destruct (Hinv s Hs) as [H1 H2]. split.
      * intros x Hxs'. destruct (H1 x Hxs') as [-> | (q & -> & Hq1 & Hq2)];
          [left; reflexivity|].
        right. exists q. split; [reflexivity|].
        split; [exact (Qcle_trans _ _ _ Ha Hq1) | exact (Qcle_trans _ _ _ Hq2 Ha')].
      * intros y Hys'. destruct (H2 y Hys') as [-> | (q & -> & Hq1 & Hq2)];
          [left; reflexivity|].
        right. exists q. split; [reflexivity|].
        split; [exact (Qcle_trans _ _ _ Hc Hq1) | exact (Qcle_trans _ _ _ Hq2 Hc')].
    + split; intros x Hxs';
        [exact (Hpoint _ _ _ x Hxt Hxin Hxs') | exact (Hpoint _ _ _ x Hyt Hyin Hxs')].
    + assert (Hvx : length (values rs_series) = length rs_series)
        by (unfold values; apply length_map).
      assert (Hvy : length (values momentum_series) = length momentum_series)
        by (unfold values; apply length_map).
      split; intros x [<- | []].
      * eapply Hpoint; [exact Hxt | exact Hxin |].
        apply last_in_tail; rewrite ?Hvx; assumption.
      * eapply Hpoint; [exact Hyt | exact Hyin |].
        apply last_in_tail; rewrite ?Hvy; assumption.
Qed.

End ChartAxes.

(** X15.  The axes of [create_rrg_chart], for a tail count that is not
    negative and series without infinite values: both axes are centred at
    100 and reach at least 7 to each side; and when some plotted RS value is
    below 200 and some is above 0, every number plotted, of a tail or of a
    current point, lies within the axes.  (When no plotted RS value is below
    200, or none is above 0, the axes are the default 93 to 107 whatever the
    data.) *)
Theorem chart_axes_hold_the_points
  (normalize : date -> date) (items_data : list (string * (Series * Series)))
  (tail_count : Z) (cutoff_date : option date) :
  0 <= tail_count ->
  Forall (fun item =>
            Forall (fun x => is_inf x = false) (values (fst (snd item))) /\
            Forall (fun y => is_inf y = false) (values (snd (snd item))))
         items_data ->
  let fig := create_rrg_chart normalize items_data tail_count cutoff_date in
  exists x_range y_range : float,
    xaxis_range fig = ((center_x - x_range)%float, (center_x + x_range)%float) /\
    yaxis_range fig = ((center_y - y_range)%float, (center_y + y_range)%float) /\
    fleb (of_Z 7) x_range = true /\
    fleb (of_Z 7) y_range = true /\
    ((exists s x, In s (fig_data fig) /\ In x (scatter_x s) /\
                  fltb x (of_Z 200) = true) ->
     (exists s x, In s (fig_data fig) /\ In x (scatter_x s) /\
                  fgtb x (of_Z 0) = true) ->
     forall s, In s (fig_data fig) ->
       (forall x, In x (scatter_x s) -> is_nan x = false ->
          fleb (fst (xaxis_range fig)) x = true /\
          fleb x (snd (xaxis_range fig)) = true) /\
       (forall y, In y (scatter_y s) -> is_nan y = false ->
          fleb (fst (yaxis_range fig)) y = true /\
          fleb y (snd (yaxis_range fig)) = true)).
Proof.
  intros Ht Hfin fig.
  destruct (plot_items_bounds normalize tail_count cutoff_date items_data Ht Hfin
              [] (Q2Qc (inject_Z 200)) (Q2Qc (inject_Z 0))
              (Q2Qc (inject_Z 200)) (Q2Qc (inject_Z 0)))
    as (a & a' & c & c' & Hb & Hinv); [intros s []|].
  fold (of_Z 200) (of_Z 0) in Hb, Hinv. fold initial_bounds in Hb, Hinv.
  destruct (axis_ranges_spec a a' c c') as (rx & ry & Hr & Hrx & Hry & Hin).
  exists (Fin rx), (Fin ry).
  unfold fig, create_rrg_chart. cbn [fig_data xaxis_range yaxis_range fst snd].
  rewrite Hb, Hr. cbn [fst snd].
  split; [reflexivity|]. split; [reflexivity|].
  split; [apply Qc_leb_le, Hrx|]. split; [apply Qc_leb_le, Hry|].
  intros (s1 & x1 & Hs1 & Hx1 & Hlow) (s2 & x2 & Hs2 & Hx2 & Hhigh).
  assert (Ha : (a < Q2Qc (inject_Z 200))%Qc).
  { destruct (proj1 (Hinv s1 Hs1) x1 Hx1) as [-> | (q & -> & Hq & _)];
      [discriminate Hlow|].
    unfold fltb, of_Z in Hlow. cbn [fgtb] in Hlow. apply Qc_ltb_lt in Hlow.
    exact (Qcle_lt_trans _ _ _ Hq Hlow). }
  assert (Ha' : (0 < a')%Qc).
  { destruct (proj1 (Hinv s2 Hs2) x2 Hx2) as [-> | (q & -> & _ & Hq)];
      [discriminate Hhigh|].
    unfold of_Z in Hhigh. cbn [fgtb] in Hhigh. apply Qc_ltb_lt in Hhigh.
    exact (Qclt_le_trans _ _ _ Hhigh Hq). }
  destruct (Hin Ha Ha') as [Hxin Hyin].
  intros s Hs. destruct (Hinv s Hs) as [Hsx Hsy].
  unfold center_x, center_y, of_Z, of_Q.
  repeat first [rewrite fsub_Fin | rewrite fadd_Fin].
  split.
  - intros x Hx Hnan. destruct (Hsx x Hx) as [-> | (q & -> & Hq1 & Hq2)];
      [discriminate Hnan|].
    cbn [fleb]. rewrite !Qc_leb_le. apply Hxin; assumption.
  - intros y Hy Hnan. destruct (Hsy y Hy) as [-> | (q & -> & Hq1 & Hq2)];
      [discriminate Hnan|].
    cbn [fleb]. rewrite !Qc_leb_le. apply Hyin; assumption.
Qed.

Lemma chart_axes_hold_the_points_witness :
  exists x_range y_range : float,
    xaxis_range
      (create_rrg_chart (fun d => d)
       [("TCS-EQ"%string,
       (with_values [1; 2] [of_Z 99; of_Z 104],
        with_values [1; 2] [of_Z 102; of_Z 98]))]
       2 None)
    = ((center_x - x_range)%float, (center_x + x_range)%float) /\
    yaxis_range
      (create_rrg_chart (fun d => d)
       [("TCS-EQ"%string,
       (with_values [1; 2] [of_Z 99; of_Z 104],
        with_values [1; 2] [of_Z 102; of_Z 98]))]
       2 None)
    = ((center_y - y_range)%float, (center_y + y_range)%float) /\
    fleb (of_Z 7) x_range = true /\
    fleb (of_Z 7) y_range = true.
Proof.
  destruct (chart_axes_hold_the_points (fun d => d)
              [("TCS-EQ"%string,
       (with_values [1; 2] [of_Z 99; of_Z 104],
        with_values [1; 2] [of_Z 102; of_Z 98]))]
              2 None) as (x_range & y_range & Hx & Hy & Hx7 & Hy7 & _).
  - lia.
  - repeat constructor.
  - exists x_range, y_range. repeat split; assumption.
Defined.

(** The other case: RS values that are all 200 or more leave the axes at
    93 to 107 and the points outside them. *)
Example points_beyond_200_leave_the_axes :
  let fig :=
    create_rrg_chart (fun d => d)
      [("A"%string, (with_values [1] [of_Z 250], with_values [1] [of_Z 100]))]
      1 None in
  feqb (fst (xaxis_range fig)) (of_Z 93) = true /\
  feqb (snd (xaxis_range fig)) (of_Z 107) = true /\
  map scatter_x (fig_data fig) = [[of_Z 250]; [of_Z 250]].
Proof. vm_compute. repeat split. Qed.

(** On doubles the padding of 1.5 is not kept to the last bit: with the RS
    values 98.19 and 127.96 (and a momentum of 100) the axis ends
    1.5 - 2^-46 to the right of 127.96.  Both values are within the axis. *)
Example axis_padding_in_doubles :
  let rs_low : spec_float := Any.div (Any.of_int 9819) (Any.of_int 100) in
  let rs_high : spec_float := Any.div (Any.of_int 12796) (Any.of_int 100) in
  let x_range :=
    fst (axis_ranges64 rs_low rs_high (Any.of_int 100) (Any.of_int 100)) in
  let x_axis_min := Any.sub (Any.of_int 100) x_range in
  let x_axis_max := Any.add (Any.of_int 100) x_range in
  SFleb x_axis_min rs_low = true /\
  SFleb rs_high x_axis_max = true /\
  Any.sub x_axis_max rs_high = S754_finite false 6755399441055680 (-52) /\
  Any.div (Any.of_int 15) (Any.of_int 10) = S754_finite false 6755399441055744 (-52).
Proof. vm_compute. repeat split. Qed.

(** * The animated chart *)

Section AnimationFrames.

Variable normalize : date -> date.

Lemma frame_dates_incl (no_items : bool) (tail_count : Z)
  (filtered_dates frames : list date) :
  frame_dates no_items tail_count filtered_dates = Frames frames ->
  incl frames filtered_dates.
Proof.
  unfold frame_dates. destruct filtered_dates as [|first rest]; [discriminate|].
  destruct no_items; [discriminate|].
  destruct (50 * tail_count =? 0); [discriminate|]. cbv zeta.
  remember (first :: rest) as filtered_dates eqn:Edates.
  destruct (negb _); intros H; injection H as <-.
  - apply incl_app; [apply slice_from_incl|].
    intros x [<- | []]. apply last_In. rewrite Edates. discriminate.
  - apply slice_from_incl.
Qed.

Lemma upto_cutoff_filter (cutoff : date) (ser : Series) :
  normalize cutoff = cutoff ->
  (forall d, In d (index ser) -> normalize d = d) ->
  upto_cutoff normalize (Some cutoff) ser = filter (fun row => fst row <=? cutoff) ser.
Proof.
  intros Hc Hd. unfold upto_cutoff. cbv zeta. apply filter_ext_in.
  intros row Hrow. rewrite Hc, Hd; [reflexivity|].
  unfold index. apply in_map, Hrow.
Qed.

Lemma plot_items_traces (tail_count : Z) (cutoff : date)
  (items_data : list (string * (Series * Series))) :
  normalize cutoff = cutoff ->
  (forall item d, In item items_data ->
                  In d (index (fst (snd item))) \/ In d (index (snd (snd item))) ->
                  normalize d = d) ->
  forall acc,
    fst (fold_left (plot_item normalize tail_count (Some cutoff)) items_data acc) =
    fst acc ++ flat_map (frame_traces tail_count cutoff) items_data.
Proof.
  intros Hc. induction items_data as [|item items_data IH]; intros Hd acc;
    cbn [fold_left flat_map].
  - rewrite app_nil_r. reflexivity.
  - rewrite IH by (intros item' d Hin; apply Hd; right; exact Hin).
    rewrite app_assoc. f_equal.
    unfold plot_item, frame_traces. cbv zeta.
    rewrite !upto_cutoff_filter;
      try exact Hc;
      try (intros d Hin; apply (Hd item d); [left; reflexivity | tauto]).
    destruct (_ || _); [cbn [fst]; rewrite app_nil_r; reflexivity|].
    destruct (_ || _); [cbn [fst]; rewrite app_nil_r; reflexivity|].
    reflexivity.
Qed.

End AnimationFrames.

(** X16.  Every frame of the animation shows what the static chart shows
    for that date: for timestamps at midnight (on which [normalize] does
    nothing), the traces of the frame of a date are the traces
    [create_rrg_chart] plots with that date as cutoff, for the same tail
    count; and every frame date is one of the dates given. *)
Theorem animation_frames_are_static_charts
  (normalize : date -> date) (items_data : list (string * (Series * Series)))
  (tail_count : Z) (filtered_dates : list date) (fig : AnimatedFigure) :
  (forall d, In d filtered_dates -> normalize d = d) ->
  (forall item d, In item items_data ->
                  In d (index (fst (snd item))) \/ In d (index (snd (snd item))) ->
                  normalize d = d) ->
  create_rrg_chart_with_animation items_data tail_count filtered_dates
  = Animation fig ->
  forall frame_date data,
    In (frame_date, data) (fig_frames fig) ->
    In frame_date filtered_dates /\
    data = fig_data (create_rrg_chart normalize items_data tail_count (Some frame_date)).
Proof.
  intros Hdates Hitems Hfig frame_date data Hin.
  unfold create_rrg_chart_with_animation in Hfig.
  destruct (frame_dates _ tail_count filtered_dates) as [| |dates] eqn:Ef.
  - injection Hfig as <-. destruct Hin.
  - discriminate.
  - injection Hfig as <-. cbn [fig_frames] in Hin.
    apply in_map_iff in Hin. destruct Hin as (d & [= <- <-] & Hd).
    assert (Hdin : In d filtered_dates) by exact (frame_dates_incl _ _ _ _ Ef d Hd).
    split; [exact Hdin|].
    unfold create_rrg_chart. cbn [fig_data].
    rewrite (plot_items_traces normalize tail_count d items_data (Hdates d Hdin) Hitems).
    reflexivity.
Qed.

Lemma animation_frames_are_static_charts_witness :
  In 2 [1; 2] /\
  flat_map (frame_traces 1 2)
    [("TCS-EQ"%string,
       (with_values [1; 2] [of_Z 99; of_Z 104],
        with_values [1; 2] [of_Z 102; of_Z 98]))]
  = fig_data
      (create_rrg_chart (fun d => d)
         [("TCS-EQ"%string,
       (with_values [1; 2] [of_Z 99; of_Z 104],
        with_values [1; 2] [of_Z 102; of_Z 98]))]
         1 (Some 2)).
Proof.
  eapply (animation_frames_are_static_charts (fun d => d)
            [("TCS-EQ"%string,
       (with_values [1; 2] [of_Z 99; of_Z 104],
        with_values [1; 2] [of_Z 102; of_Z 98]))]
            1 [1; 2]).
  - reflexivity.
  - reflexivity.
  - reflexivity.
  - right. left. reflexivity.
Defined.

Section AnimationAxes.

Local Open Scope Qc_scope.

Lemma values_filter (f : date * float -> bool) (ser : Series) :
  incl (values (filter f ser)) (values ser).
Proof.
  unfold values. intros x Hx. apply in_map_iff in Hx.
  destruct Hx as (row & <- & Hrow). apply in_map. exact (incl_filter _ _ _ Hrow).
Qed.

(** The minima and maxima of the whole series stay finite and bound every
    number of an item whose two series are not empty. *)
Lemma series_bounds_spec (items_data : list (string * (Series * Series))) :
  Forall (fun item =>
            Forall (fun x => is_inf x = false) (values (fst (snd item))) /\
            Forall (fun y => is_inf y = false) (values (snd (snd item))))
         items_data ->
  forall a a' c c' : Qc,
  exists a2 a2' c2 c2' : Qc,
    fold_left series_bounds items_data (mk_bounds (Fin a) (Fin a') (Fin c) (Fin c'))
    = mk_bounds (Fin a2) (Fin a2') (Fin c2) (Fin c2') /\
    a2 <= a /\ a' <= a2' /\ c2 <= c /\ c' <= c2' /\
    forall item, In item items_data ->
      fst (snd item) <> [] -> snd (snd item) <> [] ->
      (forall q, In (Fin q) (values (fst (snd item))) -> a2 <= q /\ q <= a2') /\
      (forall q, In (Fin q) (values (snd (snd item))) -> c2 <= q /\ q <= c2').
Proof.
  intros Hfin. induction Hfin as [|item items_data [Hx Hy] _ IH];
    intros a a' c c'; cbn [fold_left].
  - exists a, a', c, c'. split; [reflexivity|].
    repeat (split; [apply Qcle_refl|]). intros item [].
  - unfold series_bounds at 2. cbv zeta. cbn [x_min x_max y_min y_max].
    destruct ((0 <? length (fst (snd item)))%nat &&
              (0 <? length (snd (snd item)))%nat) eqn:E.
    + destruct (tail_bounds a a' _ Hx) as (a1 & a1' & -> & -> & Ha & Ha' & Hxin).
      destruct (tail_bounds c c' _ Hy) as (c1 & c1' & -> & -> & Hc & Hc' & Hyin).
      destruct (IH a1 a1' c1 c1')
        as (a2 & a2' & c2 & c2' & Hb & Ha2 & Ha2' & Hc2 & Hc2' & Hin).
      exists a2, a2', c2, c2'. split; [exact Hb|].
      split; [exact (Qcle_trans _ _ _ Ha2 Ha)|].
      split; [exact (Qcle_trans _ _ _ Ha' Ha2')|].
      split; [exact (Qcle_trans _ _ _ Hc2 Hc)|].
      split; [exact (Qcle_trans _ _ _ Hc' Hc2')|].
      intros item' [<- | Hitem] Hne1 Hne2; [|apply Hin; assumption].
      split; intros q Hq.
      * destruct (Hxin q Hq) as [H1 H2].
        split; [exact (Qcle_trans _ _ _ Ha2 H1) | exact (Qcle_trans _ _ _ H2 Ha2')].
      * destruct (Hyin q Hq) as [H1 H2].
        split; [exact (Qcle_trans _ _ _ Hc2 H1) | exact (Qcle_trans _ _ _ H2 Hc2')].
    + destruct (IH a a' c c')
        as (a2 & a2' & c2 & c2' & Hb & Ha2 & Ha2' & Hc2 & Hc2' & Hin).
      exists a2, a2', c2, c2'. split; [exact Hb|].
      repeat (split; [assumption|]).
      intros item' [<- | Hitem] Hne1 Hne2; [|apply Hin; assumption].
      exfalso. apply andb_false_iff in E.
      destruct (fst (snd item)) as [|r1 l1]; [congruence|].
      destruct (snd (snd item)) as [|r2 l2]; [congruence|].
      destruct E as [E | E]; discriminate E.
Qed.

(** The numbers of a frame are numbers of the series of an item whose two
    series are not empty. *)
Lemma frame_traces_values (tail_count : Z) (cutoff_ts : date)
  (item : string * (Series * Series)) (s : Scatter) :
  In s (frame_traces tail_count cutoff_ts item) ->
  fst (snd item) <> [] /\ snd (snd item) <> [] /\
  incl (scatter_x s) (values (fst (snd item))) /\
  incl (scatter_y s) (values (snd (snd item))).
Proof.
  unfold frame_traces. cbv zeta.
  set (rs_filtered := filter (fun row => fst row <=? cutoff_ts)%Z (fst (snd item))).
  set (momentum_filtered :=
         filter (fun row => fst row <=? cutoff_ts)%Z (snd (snd item))).
  destruct ((length rs_filtered =? 0)%nat) eqn:E1; cbn [orb]; [intros []|].
  destruct ((length momentum_filtered =? 0)%nat) eqn:E2; cbn [orb]; [intros []|].
  destruct (_ || _); [intros []|].
  apply Nat.eqb_neq in E1, E2.
  assert (Hne1 : fst (snd item) <> []).
  { intros H. apply E1. unfold rs_filtered. rewrite H. reflexivity. }
  assert (Hne2 : snd (snd item) <> []).
  { intros H. apply E2. unfold momentum_filtered. rewrite H. reflexivity. }
  assert (Hv1 : values rs_filtered <> []).
  { unfold values. intros H. apply E1. apply (f_equal (@length float)) in H.
    rewrite length_map in H. exact H. }
  assert (Hv2 : values momentum_filtered <> []).
  { unfold values. intros H. apply E2. apply (f_equal (@length float)) in H.
    rewrite length_map in H. exact H. }
  intros [<- | [<- | []]]; cbn [scatter_x scatter_y];
    (split; [exact Hne1|]); (split; [exact Hne2|]); split.
  - eapply incl_tran; [apply iloc_from_incl | apply values_filter].
  - eapply incl_tran; [apply iloc_from_incl | apply values_filter].
  - intros x [<- | []].
    exact (values_filter _ (fst (snd item)) _ (last_In _ NaN Hv1)).
  - intros x [<- | []].
    exact (values_filter _ (snd (snd item)) _ (last_In _ NaN Hv2)).
Qed.

End AnimationAxes.

(** X17.  The axes of the animation, for series without infinite values:
    both are centred at 100 and reach at least 7 to each side; and when
    some RS value of an item with two series that are not empty is below
    200 and some is above 0, every number of every frame lies within the
    axes, so that the axes can stay fixed over the frames. *)
Theorem animation_axes_hold_every_frame
  (items_data : list (string * (Series * Series))) (tail_count : Z)
  (filtered_dates : list date) (fig : AnimatedFigure) :
  Forall (fun item =>
            Forall (fun x => is_inf x = false) (values (fst (snd item))) /\
            Forall (fun y => is_inf y = false) (values (snd (snd item))))
         items_data ->
  create_rrg_chart_with_animation items_data tail_count filtered_dates
  = Animation fig ->
  exists x_range y_range : float,
    xaxis_range (base fig) = ((center_x - x_range)%float, (center_x + x_range)%float) /\
    yaxis_range (base fig) = ((center_y - y_range)%float, (center_y + y_range)%float) /\
    fleb (of_Z 7) x_range = true /\
    fleb (of_Z 7) y_range = true /\
    ((exists item x, In item items_data /\
                     fst (snd item) <> [] /\ snd (snd item) <> [] /\
                     In x (values (fst (snd item))) /\ fltb x (of_Z 200) = true) ->
     (exists item x, In item items_data /\
                     fst (snd item) <> [] /\ snd (snd item) <> [] /\
                     In x (values (fst (snd item))) /\ fgtb x (of_Z 0) = true) ->
     forall frame_date data s,
       In (frame_date, data) (fig_frames fig) -> In s data ->
       (forall x, In x (scatter_x s) -> is_nan x = false ->
          fleb (fst (xaxis_range (base fig))) x = true /\
          fleb x (snd (xaxis_range (base fig))) = true) /\
       (forall y, In y (scatter_y s) -> is_nan y = false ->
          fleb (fst (yaxis_range (base fig))) y = true /\
          fleb y (snd (yaxis_range (base fig))) = true)).
Proof.
  intros Hfin Hfig.
  unfold create_rrg_chart_with_animation in Hfig.
  destruct (frame_dates _ tail_count filtered_dates) as [| |dates] eqn:Ef.
  - injection Hfig as <-. cbn [base fig_frames xaxis_range yaxis_range].
    exists (of_Z 7), (of_Z 7).
    assert (H93 : of_Z 93 = (center_x - of_Z 7)%float).
    { unfold center_x, of_Z. rewrite fsub_Fin. apply f_equal, Qc_is_canon.
      reflexivity. }
    assert (H107 : of_Z 107 = (center_x + of_Z 7)%float).
    { unfold center_x, of_Z. rewrite fadd_Fin. apply f_equal, Qc_is_canon.
      reflexivity. }
    unfold center_y. fold center_x. rewrite <- H93, <- H107.
    split; [reflexivity|]. split; [reflexivity|].
    split; [reflexivity|]. split; [reflexivity|].
    intros _ _ frame_date data s [].
  - discriminate.
  - injection Hfig as <-. cbn [base fig_frames xaxis_range yaxis_range fst snd].
    destruct (series_bounds_spec items_data Hfin
                (Q2Qc (inject_Z 200)) (Q2Qc (inject_Z 0))
                (Q2Qc (inject_Z 200)) (Q2Qc (inject_Z 0)))
      as (a & a' & c & c' & Hb & _ & _ & _ & _ & Hinv).
    fold (of_Z 200) (of_Z 0) in Hb. fold initial_bounds in Hb.
    destruct (axis_ranges_spec a a' c c') as (rx & ry & Hr & Hrx & Hry & Hin).
    rewrite Hb, Hr. cbn [fst snd].
    exists (Fin rx), (Fin ry).
    split; [reflexivity|]. split; [reflexivity|].
    split; [apply Qc_leb_le, Hrx|]. split; [apply Qc_leb_le, Hry|].
    intros (i1 & x1 & Hi1 & Hn1 & Hm1 & Hx1 & Hlow)
           (i2 & x2 & Hi2 & Hn2 & Hm2 & Hx2 & Hhigh).
    assert (Ha : (a < Q2Qc (inject_Z 200))%Qc).
    { destruct x1 as [q| |]; try discriminate Hlow.
      - unfold fltb, of_Z in Hlow. cbn [fgtb] in Hlow. apply Qc_ltb_lt in Hlow.
        destruct (proj1 (Hinv i1 Hi1 Hn1 Hm1) q Hx1) as [Hq _].
        exact (Qcle_lt_trans _ _ _ Hq Hlow).
      - exfalso. rewrite Forall_forall in Hfin.
        destruct (Hfin i1 Hi1) as [Hxs _]. rewrite Forall_forall in Hxs.
        specialize (Hxs _ Hx1). discriminate Hxs. }
    assert (Ha' : (0 < a')%Qc).
    { destruct x2 as [q| |]; try discriminate Hhigh.
      - unfold of_Z in Hhigh. cbn [fgtb] in Hhigh. apply Qc_ltb_lt in Hhigh.
        destruct (proj1 (Hinv i2 Hi2 Hn2 Hm2) q Hx2) as [_ Hq].
        exact (Qclt_le_trans _ _ _ Hhigh Hq).
      - exfalso. rewrite Forall_forall in Hfin.
        destruct (Hfin i2 Hi2) as [Hxs _]. rewrite Forall_forall in Hxs.
        specialize (Hxs _ Hx2). discriminate Hxs. }
    destruct (Hin Ha Ha') as [Hxin Hyin].
    intros frame_date data s Hframe Hs.
    apply in_map_iff in Hframe. destruct Hframe as (d & [= <- <-] & Hd).
    apply in_flat_map in Hs. destruct Hs as (item & Hitem & Hs).
    destruct (frame_traces_values _ _ _ _ Hs) as (Hne1 & Hne2 & Hsx & Hsy).
    destruct (Hinv item Hitem Hne1 Hne2) as [Hbx Hby].
    unfold center_x, center_y, of_Z, of_Q, fsub. cbn [fadd fopp fst snd].
    split.
    + intros x Hx Hnan. destruct x as [q| |]; [| |discriminate Hnan].
      * cbn [fleb]. rewrite !Qc_leb_le. apply Hxin; apply Hbx, Hsx, Hx.
      * exfalso. rewrite Forall_forall in Hfin.
        destruct (Hfin item Hitem) as [Hxs _]. rewrite Forall_forall in Hxs.
        specialize (Hxs _ (Hsx _ Hx)). discriminate Hxs.
    + intros y Hy Hnan. destruct y as [q| |]; [| |discriminate Hnan].
      * cbn [fleb]. rewrite !Qc_leb_le. apply Hyin; apply Hby, Hsy, Hy.
      * exfalso. rewrite Forall_forall in Hfin.
        destruct (Hfin item Hitem) as [_ Hys]. rewrite Forall_forall in Hys.
        specialize (Hys _ (Hsy _ Hy)). discriminate Hys.
Qed.

Lemma animation_axes_hold_every_frame_witness :
  exists x_range y_range : float,
    ((center_x
      - fst (axis_ranges
               (fold_left series_bounds
                  [("TCS-EQ"%string,
       (with_values [1; 2] [of_Z 99; of_Z 104],
        with_values [1; 2] [of_Z 102; of_Z 98]))]
                  initial_bounds)))%float,
     (center_x
      + fst (axis_ranges
               (fold_left series_bounds
                  [("TCS-EQ"%string,
       (with_values [1; 2] [of_Z 99; of_Z 104],
        with_values [1; 2] [of_Z 102; of_Z 98]))]
                  initial_bounds)))%float)
    = ((center_x - x_range)%float, (center_x + x_range)%float) /\
    fleb (of_Z 7) x_range = true /\
    fleb (of_Z 7) y_range = true.
Proof.
  edestruct (animation_axes_hold_every_frame
               [("TCS-EQ"%string,
       (with_values [1; 2] [of_Z 99; of_Z 104],
        with_values [1; 2] [of_Z 102; of_Z 98]))]
               1 [1; 2]) as (x_range & y_range & Hx & _ & Hx7 & Hy7 & _).
  - repeat constructor.
  - reflexivity.
  - exists x_range, y_range. split; [exact Hx|]. split; assumption.
Defined.

(** * The default selection *)

Section DefaultSelection.

Context {py : PyStr}.

Local Open Scope nat_scope.

Lemma add_selected_NoDup (selected : list instrument) (item : instrument) :
  NoDup (map inst_symbol selected) ->
  NoDup (map inst_symbol (add_selected selected item)).
Proof.
  intros Hnd. unfold add_selected.
  destruct (existsb _ selected) eqn:E; [exact Hnd|].
  rewrite map_app. cbn [map].
  apply NoDup_app; [exact Hnd | repeat constructor; intros [] |].
  intros sym Hin [<- | []].
  apply in_map_iff in Hin. destruct Hin as (x & Hx & Hin).
  assert (Hex : existsb (fun x => String.eqb (inst_symbol x) (inst_symbol item))
                        selected = true).
  { apply existsb_exists. exists x. split; [exact Hin|]. apply String.eqb_eq, Hx. }
  congruence.
Qed.

Lemma add_selected_In (selected : list instrument) (item x : instrument) :
  In x (add_selected selected item) -> In x selected \/ x = item.
Proof.
  unfold add_selected. destruct (existsb _ selected); [tauto|].
  intros H. apply in_app_or in H. destruct H as [H | [<- | []]]; tauto.
Qed.

Lemma add_selected_length (selected : list instrument) (item : instrument) :
  length (add_selected selected item) <= S (length selected).
Proof.
  unfold add_selected. destruct (existsb _ selected); [lia|].
  rewrite length_app. cbn [length]. lia.
Qed.

(** A loop that adds what [pick] finds for each key. *)
Lemma add_picked {K : Type} (pick : K -> option instrument) (keys : list K)
  (selected : list instrument) :
  let result :=
    fold_left (fun selected key =>
                 match pick key with
                 | Some item => add_selected selected item
                 | None => selected
                 end) keys selected in
  (NoDup (map inst_symbol selected) -> NoDup (map inst_symbol result)) /\
  (forall x, In x result ->
             In x selected \/ exists key, In key keys /\ pick key = Some x) /\
  length result <= length selected + length keys.
Proof.
  revert selected. induction keys as [|key keys IH]; intros selected;
    cbn [fold_left].
  - split; [tauto|]. split; [tauto | cbn [length]; lia].
  - cbv zeta in IH.
    destruct (pick key) as [item|] eqn:E.
    + destruct (IH (add_selected selected item)) as (H1 & H2 & H3).
      split; [intros Hnd; apply H1, add_selected_NoDup, Hnd|].
      split.
      * intros x Hx. destruct (H2 x Hx) as [Hin | (k & Hk & Hp)].
        -- destruct (add_selected_In _ _ _ Hin) as [Hs | ->]; [left; exact Hs|].
           right. exists key. split; [left; reflexivity | exact E].
        -- right. exists k. split; [right; exact Hk | exact Hp].
      * pose proof (add_selected_length selected item). cbn [length]. lia.
    + destruct (IH selected) as (H1 & H2 & H3).
      split; [exact H1|]. split.
      * intros x Hx. destruct (H2 x Hx) as [Hin | (k & Hk & Hp)]; [tauto|].
        right. exists k. split; [right; exact Hk | exact Hp].
      * cbn [length]. lia.
Qed.

Lemma index_dict_get_In (d : index_dict) (key : string) (v : instrument) :
  index_dict_get d key = Some v -> In v (map snd d).
Proof.
  induction d as [|[k w] d IH]; cbn [index_dict_get map snd]; [discriminate|].
  destruct (String.eqb k key); [intros [= ->]; left; reflexivity|].
  intros H. right. apply IH, H.
Qed.

Lemma index_dict_set_values (d : index_dict) (key : string) (v x : instrument) :
  In x (map snd (index_dict_set d key v)) -> x = v \/ In x (map snd d).
Proof.
  induction d as [|[k w] d IH]; cbn [index_dict_set map snd].
  - intros [<- | []]. left. reflexivity.
  - destruct (String.eqb k key); cbn [map snd].
    + intros [<- | H]; [left; reflexivity | right; right; exact H].
    + intros [<- | H]; [right; left; reflexivity|].
      destruct (IH H) as [-> | H']; [left; reflexivity | right; right; exact H'].
Qed.

Lemma match_major_values (idx : instrument) (majors : list string) (d : index_dict)
  (x : instrument) :
  In x (map snd (match_major idx majors d)) -> x = idx \/ In x (map snd d).
Proof.
  induction majors as [|major rest IH]; cbn [match_major]; [tauto|].
  destruct (_ && _); [apply index_dict_set_values | exact IH].
Qed.

Lemma note_index_values (all_indices : list instrument) (d : index_dict)
  (x : instrument) :
  In x (map snd (fold_left note_index all_indices d)) ->
  In x (map snd d) \/
  (In x all_indices /\
   is_nifty_50 (inst_symbol x) = false /\ is_nifty_50 (inst_name x) = false).
Proof.
  revert d. induction all_indices as [|idx all_indices IH]; intros d;
    cbn [fold_left]; [tauto|].
  intros H. destruct (IH _ H) as [Hd | (Hin & Hn)];
    [|right; split; [right; exact Hin | exact Hn]].
  unfold note_index in Hd.
  destruct (is_nifty_50 (inst_symbol idx) || is_nifty_50 (inst_name idx)) eqn:E;
    [left; exact Hd|].
  apply orb_false_iff in E.
  assert (Hx : x = idx \/ In x (map snd d)).
  { destruct (existsb _ MAJOR_INDICES);
      [apply index_dict_set_values in Hd | apply match_major_values in Hd];
      exact Hd. }
  destruct Hx as [-> | Hx]; [|left; exact Hx].
  right. split; [left; reflexivity | exact E].
Qed.

End DefaultSelection.

(** X18.  The default selection.  [initialize_default_items] never changes
    a selection that is not empty.  Called on empty selections it never
    lists an instrument twice under one symbol, and it selects at most 12 indices, each of them listed by
    [get_indices] and none with the symbol or the name of NIFTY 50; at most
    6 stocks, each listed by [get_stocks] under a symbol of
    [DEFAULT_STOCKS]; at most 4 ETFs, each listed by [get_etfs] under a
    symbol of [DEFAULT_ETFS]. *)
Theorem default_selection_is_distinct
  {py : PyStr} (active_tab : option string) (fetched : option (list scrip_item)) :
  (forall s,
     (selected_indices s <> [] ->
      selected_indices (initialize_default_items active_tab fetched s)
      = selected_indices s) /\
     (selected_stocks s <> [] ->
      selected_stocks (initialize_default_items active_tab fetched s)
      = selected_stocks s) /\
     (selected_etfs s <> [] ->
      selected_etfs (initialize_default_items active_tab fetched s)
      = selected_etfs s)) /\
  let s := initialize_default_items active_tab fetched (mk_selections [] [] []) in
  (NoDup (map inst_symbol (selected_indices s)) /\
   (length (selected_indices s) <= 12)%nat /\
   forall x, In x (selected_indices s) ->
             In x (get_indices "NSE" fetched) /\
             is_nifty_50 (inst_symbol x) = false /\
             is_nifty_50 (inst_name x) = false) /\
  (NoDup (map inst_symbol (selected_stocks s)) /\
   (length (selected_stocks s) <= 6)%nat /\
   forall x, In x (selected_stocks s) ->
             In x (get_stocks "NSE" fetched) /\ In (inst_symbol x) DEFAULT_STOCKS) /\
  (NoDup (map inst_symbol (selected_etfs s)) /\
   (length (selected_etfs s) <= 4)%nat /\
   forall x, In x (selected_etfs s) ->
             In x (get_etfs "NSE" fetched) /\ In (inst_symbol x) DEFAULT_ETFS).
Proof.
  split.
  { intros s. unfold initialize_default_items.
    destruct (String.eqb _ "Index"), (String.eqb _ "Stock"), (String.eqb _ "ETF");
      destruct (selected_indices s) eqn:Ei, (selected_stocks s) eqn:Es,
               (selected_etfs s) eqn:Ee;
      cbn [andb selected_indices selected_stocks selected_etfs];
      rewrite ?Ei, ?Es, ?Ee; repeat split; congruence. }
  assert (Hidx :
            NoDup (map inst_symbol (select_major_indices (get_indices "NSE" fetched) [])) /\
            (length (select_major_indices (get_indices "NSE" fetched) []) <= 12)%nat /\
            forall x, In x (select_major_indices (get_indices "NSE" fetched) []) ->
                      In x (get_indices "NSE" fetched) /\
                      is_nifty_50 (inst_symbol x) = false /\
                      is_nifty_50 (inst_name x) = false).
  { unfold select_major_indices. cbv zeta.
    destruct (add_picked (index_dict_get (fold_left note_index
                                            (get_indices "NSE" fetched) []))
                         MAJOR_INDICES []) as (H1 & H2 & H3).
    split; [apply H1; constructor|]. split; [exact H3|].
    intros x Hx. destruct (H2 x Hx) as [[] | (key & _ & Hget)].
    apply index_dict_get_In, note_index_values in Hget.
    destruct Hget as [[] | Hget]. exact Hget. }
  assert (Hdef : forall defaults listing,
            NoDup (map inst_symbol (select_defaults defaults listing [])) /\
            (length (select_defaults defaults listing []) <= length defaults)%nat /\
            forall x, In x (select_defaults defaults listing []) ->
                      In x listing /\ In (inst_symbol x) defaults).
  { intros defaults listing. unfold select_defaults.
    destruct (add_picked
                (fun default_symbol =>
                   find (fun s => String.eqb (inst_symbol s) default_symbol) listing)
                defaults []) as (H1 & H2 & H3).
    split; [apply H1; constructor|]. split; [exact H3|].
    intros x Hx. destruct (H2 x Hx) as [[] | (key & Hkey & Hfind)].
    apply find_some in Hfind. destruct Hfind as [Hin Heq].
    apply String.eqb_eq in Heq. rewrite Heq. split; assumption. }
  assert (Hnone : forall (listing : list instrument) (P : instrument -> Prop) n,
            NoDup (map inst_symbol []) /\ (length (@nil instrument) <= n)%nat /\
            forall x, In x [] -> P x).
  { intros listing P n. split; [constructor|]. split; [cbn [length]; lia | intros x []]. }
  cbv zeta. unfold initialize_default_items.
  cbn [selected_indices selected_stocks selected_etfs]. rewrite !andb_true_r.
  destruct (String.eqb _ "Index"); cbn [selected_indices selected_stocks selected_etfs].
  { split; [exact Hidx|]. split; apply Hnone; exact []. }
  destruct (String.eqb _ "Stock"); cbn [selected_indices selected_stocks selected_etfs].
  { split; [apply Hnone; exact []|]. split; [apply (Hdef DEFAULT_STOCKS)|].
    apply Hnone; exact []. }
  destruct (String.eqb _ "ETF"); cbn [selected_indices selected_stocks selected_etfs].
  { split; [apply Hnone; exact []|]. split; [apply Hnone; exact []|].
    apply (Hdef DEFAULT_ETFS). }
  split; [apply Hnone; exact []|]. split; apply Hnone; exact [].
Qed.

Lemma default_selection_is_distinct_witness :
  selected_stocks
    (@initialize_default_items ascii_str (Some "Stock"%string) None
       (mk_selections [] [mk_instrument "TCS-EQ" "TCS" "11536" "NSE"] []))
  = [mk_instrument "TCS-EQ" "TCS" "11536" "NSE"].
Proof.
  apply (proj1 (proj2 (proj1 (@default_selection_is_distinct ascii_str
                                (Some "Stock"%string) None)
                             (mk_selections
                                [] [mk_instrument "TCS-EQ" "TCS" "11536" "NSE"] [])))).
  discriminate.
Defined.
